(** * Execution-lifecycle hooks of the EOEPCA processing service template

    A shallow embedding of [service.py]: the execution handler
    [EoepcaCalrissianRunnerExecutionHandler] (constructor, pre- and
    post-execution hooks, [setOutput], [handle_outputs], the static helpers)
    and the failure branch of the service entry point.

    Python objects that the code mutates in place and shares by reference
    ([conf], [outputs], [os.environ], the engine's output dictionary and the
    handler's own attributes) live in one [state] record that is threaded
    through a state-and-exception monad.  Third-party calls (PyJWT, requests,
    pystac, PyYAML, the builtins [str] and [int], [zoo._]) are collected in a
    record of
    [externals] over which every theorem is universally quantified. *)

From Stdlib Require Import ZArith String Ascii List Bool Lia.
From stdpp Require Import base tactics option list gmap strings pretty.

Local Open Scope string_scope.

(** ** Python values *)

(** The JSON-like fragment of Python's values that flows through the
    handler: configuration entries, token claims, HTTP response bodies,
    engine outputs and catalogue documents. *)
#[warnings="-register-all"]
Inductive pyval : Type :=
| PNone
| PBool (b : bool)
| PInt (n : Z)
| PStr (s : string)
| PList (l : list pyval)
| PDict (d : gmap string pyval).

(** Python truthiness, as used by [if x:] and [not x]. *)
Definition truthy (v : pyval) : bool :=
  match v with
  | PNone => false
  | PBool b => b
  | PInt n => negb (n =? 0)%Z
  | PStr s => negb (String.eqb s "")
  | PList l => match l with [] => false | _ => true end
  | PDict d => match map_to_list d with [] => false | _ => true end
  end.

(** The exception classes that the modelled code can meet.  All of them
    derive from [Exception]; [OSError] stands for the operating-system
    errors other than [FileNotFoundError]. *)
Inductive exn : Type :=
| KeyError (k : string)
| TypeError
| AttributeError
| ValueError
| NameError (v : string)
| UnboundLocalError (v : string)
| StopIteration
| FileNotFoundError
| OSError
| UnicodeDecodeError
| YAMLError
| RequestException
| JSONDecodeError
| DecodeError.

Inductive outcome (A : Type) : Type :=
| Ret (a : A)
| Raise (e : exn).
Arguments Ret {A} a.
Arguments Raise {A} e.

(** ** String helpers standing for the [str] methods and [os.path] *)

Fixpoint starts_with (p s : string) : bool :=
  match p, s with
  | EmptyString, _ => true
  | String a p', String b s' => Ascii.eqb a b && starts_with p' s'
  | String _ _, EmptyString => false
  end.

(** [s.count(p) != 0] for a non-empty pattern [p]. *)
Fixpoint contains (p s : string) : bool :=
  starts_with p s ||
  match s with
  | EmptyString => false
  | String _ s' => contains p s'
  end.

Fixpoint ends_with_slash (s : string) : bool :=
  match s with
  | EmptyString => false
  | String c EmptyString => Ascii.eqb c "/"
  | String _ s' => ends_with_slash s'
  end.

(** [posixpath.join(a, b)]. *)
Definition os_path_join (a b : string) : string :=
  if starts_with "/" b then b
  else if String.eqb a "" || ends_with_slash a then a +:+ b
  else a +:+ "/" +:+ b.

Definition os_path_join3 (a b c : string) : string :=
  os_path_join (os_path_join a b) c.

(** [posixpath.basename(p)]: what follows the last slash. *)
Fixpoint os_path_basename (p : string) : string :=
  match p with
  | EmptyString => EmptyString
  | String c p' =>
      if Ascii.eqb c "/" then os_path_basename p'
      else if contains "/" p' then os_path_basename p'
      else p
  end.

(** [s.replace(old, new)] for a non-empty [old]: non-overlapping
    occurrences, left to right.  [skip] counts the characters of a match
    that remain to be dropped. *)
Fixpoint replace_from (skip : nat) (old new s : string) : string :=
  match s with
  | EmptyString => EmptyString
  | String c s' =>
      match skip with
      | S k => replace_from k old new s'
      | O =>
          if starts_with old s
          then new +:+ replace_from (String.length old - 1) old new s'
          else String c (replace_from 0 old new s')
      end
  end.

Definition str_replace (old new s : string) : string :=
  replace_from 0 old new s.

Definition lower_ascii (c : ascii) : ascii :=
  let n := nat_of_ascii c in
  if (65 <=? n)%nat && (n <=? 90)%nat then ascii_of_nat (n + 32) else c.

(** [s.lower()] on ASCII text. *)
Fixpoint str_lower (s : string) : string :=
  match s with
  | EmptyString => EmptyString
  | String c s' => String (lower_ascii c) (str_lower s')
  end.

Definition digit_of_ascii (c : ascii) : option Z :=
  let n := nat_of_ascii c in
  if (48 <=? n)%nat && (n <=? 57)%nat then Some (Z.of_nat (n - 48)) else None.

Fixpoint parse_digits (acc : Z) (s : string) : option Z :=
  match s with
  | EmptyString => Some acc
  | String c s' =>
      match digit_of_ascii c with
      | Some d => parse_digits (10 * acc + d) s'
      | None => None
      end
  end.

(** A plain decimal numeral, optionally signed. *)
Definition decimal_numeral (s : string) : option Z :=
  match s with
  | String "-" (String c s') => Z.opp <$> parse_digits 0 (String c s')
  | String "+" (String c s') => parse_digits 0 (String c s')
  | String c s' => parse_digits 0 (String c s')
  | EmptyString => None
  end.

(** Whether the text holds a NUL character. *)
Fixpoint has_nul (s : string) : bool :=
  match s with
  | EmptyString => false
  | String c s' => Ascii.eqb c "000" || has_nul s'
  end.

(** [str(n)] for an integer. *)
Definition str_of_int (n : Z) : string := pretty n.

(** ** The external world *)

(** A [requests] response: status, text, and the result of [.json()]. *)
Record response : Type := Response {
  status_code : Z;
  text : string;
  json : outcome pyval;
}.

(** [Response.ok]: [raise_for_status()] does not raise, that is the status
    is not a 4xx or 5xx one. *)
Definition response_ok (r : response) : bool :=
  negb ((400 <=? status_code r)%Z && (status_code r <? 600)%Z).

Inductive http_result : Type :=
| HttpResponse (r : response)
| HttpFailure.

(** The part of pystac's document model the handler touches. *)
Record Item : Type := MkItem {
  item_assets : gmap string (gmap string pyval);
  item_collection_id : pyval;
  item_fields : gmap string pyval;
}.

Record Collection : Type := MkCollection {
  collection_to_dict : gmap string pyval;
  collection_self_href : pyval;
}.

(** A Python iterator: it yields values, then stops or raises. *)
Inductive iterator (A : Type) : Type :=
| IterEnd
| IterRaise
| IterYield (a : A) (rest : iterator A).
Arguments IterEnd {A}.
Arguments IterRaise {A}.
Arguments IterYield {A} a rest.

(** What [read_file] hands back.  [get_all_collections()] and
    [get_all_items()] return iterators (they have neither [append] nor
    [len]); [None] in a field: the call itself raises, as on an object
    without that method. *)
Record stac_object : Type := StacObject {
  all_collections : option (iterator Collection);
  all_items : option (iterator Item);
}.

Record externals : Type := Externals {
  (** builtin [str] and f-string formatting *)
  py_str : pyval -> string;
  (** [jwt.decode(token, options={"verify_signature": False})] *)
  jwt_decode : string -> outcome (gmap string pyval);
  (** [requests.get(url, headers=...)] *)
  requests_get : string -> gmap string string -> http_result;
  (** [requests.post(url, json=..., headers=...)] *)
  requests_post : string -> pyval -> gmap string string -> http_result;
  (** [pystac.read_file(href)]; [None] when it raises *)
  read_file : string -> option stac_object;
  (** [open(name, "r")] followed by reading the whole text *)
  open_read : string -> outcome string;
  (** [yaml.safe_load] on that text *)
  yaml_safe_load : string -> outcome pyval;
  (** builtin [int] on a string; [None] when it raises [ValueError] *)
  int_of_str : string -> option Z;
  (** [zoo._(message)], of the [zoo] module that was imported or of the
      [ZooStub] that stands in for it *)
  zoo_translate : string -> pyval;
}.

(** [int(v)]: numbers and booleans convert, a string is read by the
    builtin, anything else is a [TypeError]. *)
Definition py_int (E : externals) (v : pyval) : outcome Z :=
  match v with
  | PInt n => Ret n
  | PBool b => Ret (if b then 1 else 0)%Z
  | PStr s =>
      match int_of_str E s with
      | Some n => Ret n
      | None => Raise ValueError
      end
  | PNone | PList _ | PDict _ => Raise TypeError
  end.

(** [ZooStub._], lines 18-19: it prints the message and returns nothing. *)
Definition ZooStub_translate (message : string) : pyval := PNone.

(** ** Program state *)

Record state : Type := State {
  (** [conf], aliased by [self.conf] *)
  conf : gmap string (gmap string pyval);
  (** [outputs], aliased by [self.outputs]; insertion-ordered *)
  outputs : list (string * gmap string pyval);
  (** [os.environ] *)
  environ : gmap string string;
  (** the engine's output dictionary ([output] of the post hook, [values]
      of [setOutput]), which [setOutput] updates in place *)
  engine_output : gmap string pyval;
  http_proxy_env : option string;
  domain : pyval;
  workspace_url : pyval;
  workspace_prefix : pyval;
  use_workspace : bool;
  workspace_catalog_register : bool;
  username : pyval;
  ades_rx_token : pyval;
}.

Definition set_conf (f : gmap string (gmap string pyval) -> gmap string (gmap string pyval))
    (s : state) : state :=
  State (f (conf s)) (outputs s) (environ s) (engine_output s) (http_proxy_env s)
        (domain s) (workspace_url s) (workspace_prefix s) (use_workspace s)
        (workspace_catalog_register s) (username s) (ades_rx_token s).

Definition set_outputs (f : list (string * gmap string pyval) -> list (string * gmap string pyval))
    (s : state) : state :=
  State (conf s) (f (outputs s)) (environ s) (engine_output s) (http_proxy_env s)
        (domain s) (workspace_url s) (workspace_prefix s) (use_workspace s)
        (workspace_catalog_register s) (username s) (ades_rx_token s).

Definition set_environ (f : gmap string string -> gmap string string) (s : state) : state :=
  State (conf s) (outputs s) (f (environ s)) (engine_output s) (http_proxy_env s)
        (domain s) (workspace_url s) (workspace_prefix s) (use_workspace s)
        (workspace_catalog_register s) (username s) (ades_rx_token s).

Definition set_engine_output (f : gmap string pyval -> gmap string pyval) (s : state) : state :=
  State (conf s) (outputs s) (environ s) (f (engine_output s)) (http_proxy_env s)
        (domain s) (workspace_url s) (workspace_prefix s) (use_workspace s)
        (workspace_catalog_register s) (username s) (ades_rx_token s).

Definition set_use_workspace (b : bool) (s : state) : state :=
  State (conf s) (outputs s) (environ s) (engine_output s) (http_proxy_env s)
        (domain s) (workspace_url s) (workspace_prefix s) b
        (workspace_catalog_register s) (username s) (ades_rx_token s).

Definition set_username (u : pyval) (s : state) : state :=
  State (conf s) (outputs s) (environ s) (engine_output s) (http_proxy_env s)
        (domain s) (workspace_url s) (workspace_prefix s) (use_workspace s)
        (workspace_catalog_register s) u (ades_rx_token s).

(** ** The monad: state passing with exceptions *)

Definition M (A : Type) : Type := state -> outcome A * state.

Definition ret {A} (a : A) : M A := fun s => (Ret a, s).
Definition raise {A} (e : exn) : M A := fun s => (Raise e, s).

Definition bind {A B} (m : M A) (k : A -> M B) : M B :=
  fun s =>
    match m s with
    | (Ret a, s') => k a s'
    | (Raise e, s') => (Raise e, s')
    end.

Declare Scope py_scope.
Delimit Scope py_scope with py.
Notation "x <- m ;; k" := (bind m (fun x => k))
  (at level 100, m at next level, right associativity) : py_scope.
Notation "m ;;; k" := (bind m (fun _ => k))
  (at level 100, right associativity) : py_scope.
Local Open Scope py_scope.

Definition gets {A} (f : state -> A) : M A := fun s => (Ret (f s), s).
Definition modify (f : state -> state) : M unit := fun s => (Ret tt, f s).
Definition lift {A} (o : outcome A) : M A := fun s => (o, s).

(** [try: m except Exception as e: h e] *)
Definition try_except {A} (m : M A) (h : exn -> M A) : M A :=
  fun s =>
    match m s with
    | (Ret a, s') => (Ret a, s')
    | (Raise e, s') => h e s'
    end.

(** [try: m finally: fin] *)
Definition try_finally {A} (m : M A) (fin : M unit) : M A :=
  fun s =>
    match m s with
    | (r, s') =>
        match fin s' with
        | (Ret _, s'') => (r, s'')
        | (Raise e, s'') => (Raise e, s'')
        end
    end.

(** [if c: m] without an [else]. *)
Definition when (c : bool) (m : M unit) : M unit := if c then m else ret tt.

(** ** Dictionary access *)

(** [d[k]] on a dictionary. *)
Definition subscript {V} (d : gmap string V) (k : string) : outcome V :=
  match d !! k with
  | Some v => Ret v
  | None => Raise (KeyError k)
  end.

(** [v[k]] on an arbitrary value with a string key. *)
Definition subscript_val (v : pyval) (k : string) : outcome pyval :=
  match v with
  | PDict d => subscript d k
  | _ => Raise TypeError
  end.

(** [v.get(k)] on an arbitrary value. *)
Definition get_val (v : pyval) (k : string) : outcome pyval :=
  match v with
  | PDict d => Ret (default PNone (d !! k))
  | _ => Raise AttributeError
  end.

(** [conf[sec][k]] *)
Definition conf_item (sec k : string) : M pyval :=
  c <- gets conf ;;
  d <- lift (subscript c sec) ;;
  lift (subscript d k).

(** [conf[sec][k] = v] *)
Definition conf_setitem (sec k : string) (v : pyval) : M unit :=
  c <- gets conf ;;
  d <- lift (subscript c sec) ;;
  modify (set_conf (insert sec (<[k := v]> d))).

(** [conf.get(sec, {})] *)
Definition conf_get_section (sec : string) : M (gmap string pyval) :=
  c <- gets conf ;;
  ret (default ∅ (c !! sec)).

(** A value that must be a [str]. *)
Definition as_str (e : exn) (v : pyval) : outcome string :=
  match v with
  | PStr s => Ret s
  | _ => Raise e
  end.

(** ** [init_config_defaults] *)

(** [os.environ.get(k, d)] *)
Definition environ_get (k d : string) : M pyval :=
  env <- gets environ ;;
  ret (PStr (default d (env !! k))).

Definition default_param (k d : string) : M unit :=
  v <- environ_get k d ;;
  conf_setitem "additional_parameters" k v.

Definition init_config_defaults : M unit :=
  c <- gets conf ;;
  when (bool_decide (c !! "additional_parameters" = None))
       (modify (set_conf (insert "additional_parameters" ∅))) ;;;
  default_param "STAGEIN_AWS_SERVICEURL" "http://s3-service.zoo.svc.cluster.local:9000" ;;;
  default_param "STAGEIN_AWS_ACCESS_KEY_ID" "minio-admin" ;;;
  default_param "STAGEIN_AWS_SECRET_ACCESS_KEY" "minio-secret-password" ;;;
  default_param "STAGEIN_AWS_REGION" "RegionOne" ;;;
  default_param "STAGEOUT_AWS_SERVICEURL" "http://s3-service.zoo.svc.cluster.local:9000" ;;;
  default_param "STAGEOUT_AWS_ACCESS_KEY_ID" "minio-admin" ;;;
  default_param "STAGEOUT_AWS_SECRET_ACCESS_KEY" "minio-secret-password" ;;;
  default_param "STAGEOUT_AWS_REGION" "RegionOne" ;;;
  default_param "STAGEOUT_OUTPUT" "eoepca".

Definition stagein_keys : list string :=
  ["STAGEIN_AWS_SERVICEURL"; "STAGEIN_AWS_ACCESS_KEY_ID";
   "STAGEIN_AWS_SECRET_ACCESS_KEY"; "STAGEIN_AWS_REGION"].

Definition stageout_keys : list string :=
  ["STAGEOUT_AWS_SERVICEURL"; "STAGEOUT_AWS_ACCESS_KEY_ID";
   "STAGEOUT_AWS_SECRET_ACCESS_KEY"; "STAGEOUT_AWS_REGION"; "STAGEOUT_OUTPUT"].

Definition staging_keys : list string := (stagein_keys ++ stageout_keys)%list.

(** [conf["additional_parameters"].get(k)], [None] when section or key is
    missing. *)
Definition additional_parameter (s : state) (k : string) : option pyval :=
  conf s !! "additional_parameters" ≫= (.!! k).

(** ** Constructor *)

(** [v.lower()] *)
Definition lower_val (v : pyval) : outcome string :=
  match v with
  | PStr s => Ret (str_lower s)
  | _ => Raise AttributeError
  end.

(** [EoepcaCalrissianRunnerExecutionHandler(conf, outputs)], run in the
    process environment [env].  The engine's output dictionary is not known
    yet; the post hook binds it. *)
Definition handler_new (c : gmap string (gmap string pyval))
    (o : list (string * gmap string pyval)) (env : gmap string string)
    : outcome state :=
  let http_proxy := env !! "HTTP_PROXY" in
  let eoepca := default ∅ (c !! "eoepca") in
  let dom := default (PStr "") (eoepca !! "domain") in
  let wurl := default (PStr "") (eoepca !! "workspace_url") in
  let wprefix := default (PStr "") (eoepca !! "workspace_prefix") in
  let use_ws := if truthy wurl && truthy wprefix then true else false in
  let register :=
    if use_ws then
      match lower_val (default (PStr "false") (eoepca !! "workspace_catalog_register")) with
      | Ret l => Ret (String.eqb l "true")
      | Raise e => Raise e
      end
    else Ret false in
  match register with
  | Raise e => Raise e
  | Ret reg =>
      let auth_env := default ∅ (c !! "auth_env") in
      let token := default (PStr "") (auth_env !! "jwt") in
      match init_config_defaults
              (State c o env ∅ http_proxy dom wurl wprefix use_ws reg PNone token) with
      | (Ret _, s) => Ret s
      | (Raise e, _) => Raise e
      end
  end.

(** ** Proxy variable *)

Definition unset_http_proxy_env : M unit :=
  modify (set_environ (delete "HTTP_PROXY")).

(** The value written back is the one the constructor read from
    [os.environ], which holds strings without NUL only: this assignment
    has no failing case. *)
Definition restore_http_proxy_env : M unit :=
  saved <- gets http_proxy_env ;;
  match saved with
  | Some v =>
      when (negb (String.eqb v "")) (modify (set_environ (insert "HTTP_PROXY" v)))
  | None => ret tt
  end.

(** ** Identity *)

Fixpoint first_claim (keys : list string) (decodedJwt : gmap string pyval) : pyval :=
  match keys with
  | [] => PNone
  | key :: keys' =>
      match decodedJwt !! key with
      | Some v => v
      | None => first_claim keys' decodedJwt
      end
  end.

Definition get_user_name (decodedJwt : gmap string pyval) : pyval :=
  first_claim ["username"; "user_name"; "preferred_username"] decodedJwt.

(** [os.getenv(k)] *)
Definition os_getenv (k : string) : M pyval :=
  env <- gets environ ;;
  ret (match env !! k with Some v => PStr v | None => PNone end).

(** [jwt.decode] on the stored token. *)
Definition decode_token (E : externals) (token : pyval) : outcome (gmap string pyval) :=
  match token with
  | PStr t => jwt_decode E t
  | _ => Raise DecodeError
  end.

(** Lines 134-152 of the pre hook: the user name from the token, else from
    the path prefix.  ([username_source] only feeds the log.) *)
Definition resolve_username (E : externals) : M unit :=
  token <- gets ades_rx_token ;;
  when (truthy token)
       (claims <- lift (decode_token E token) ;;
        modify (set_username (get_user_name claims))) ;;;
  u <- gets username ;;
  when (negb (truthy u))
       (ns <- os_getenv "SERVICES_NAMESPACE" ;;
        modify (set_username ns)).

(** ** Workspace lookup *)

Definition request_headers (E : externals) (accept : string) (token : pyval)
    : gmap string string :=
  let headers := {[ accept := "application/json" ]} in
  if truthy token then <["Authorization" := "Bearer " +:+ py_str E token]> headers
  else headers.

(** [conf["additional_parameters"][k] = storage_credentials.get(field)] *)
Definition set_from_credentials (storage_credentials : pyval) (k field : string) : M unit :=
  v <- lift (get_val storage_credentials field) ;;
  conf_setitem "additional_parameters" k v.

(** Lines 154-192 of the pre hook. *)
Definition lookup_workspace (E : externals) : M unit :=
  uw <- gets use_workspace ;;
  when uw
    (prefix <- gets workspace_prefix ;;
     u <- gets username ;;
     let uri_for_request := "workspaces/" +:+ py_str E prefix +:+ "-" +:+ py_str E u in
     wurl <- gets workspace_url ;;
     base <- lift (as_str TypeError wurl) ;;
     let workspace_api_endpoint := os_path_join base uri_for_request in
     token <- gets ades_rx_token ;;
     let headers := request_headers E "accept" token in
     match requests_get E workspace_api_endpoint headers with
     | HttpFailure => raise RequestException
     | HttpResponse r =>
         if response_ok r then
           workspace_response <- lift (json r) ;;
           storage <- lift (subscript_val workspace_response "storage") ;;
           storage_credentials <- lift (subscript_val storage "credentials") ;;
           set_from_credentials storage_credentials "STAGEOUT_AWS_SERVICEURL" "endpoint" ;;;
           set_from_credentials storage_credentials "STAGEOUT_AWS_ACCESS_KEY_ID" "access" ;;;
           set_from_credentials storage_credentials "STAGEOUT_AWS_SECRET_ACCESS_KEY" "secret" ;;;
           set_from_credentials storage_credentials "STAGEOUT_AWS_REGION" "region" ;;;
           set_from_credentials storage_credentials "STAGEOUT_OUTPUT" "bucketname"
         else
           modify (set_use_workspace false)
     end).

(** Lines 194-196 of the pre hook. *)
Definition derive_collection_id : M unit :=
  lenv <- conf_get_section "lenv" ;;
  conf_setitem "additional_parameters" "collection_id" (default (PStr "") (lenv !! "usid")) ;;;
  cid <- conf_item "additional_parameters" "collection_id" ;;
  cid_str <- lift (as_str TypeError cid) ;;
  conf_setitem "additional_parameters" "process"
               (PStr (os_path_join "processing-results" cid_str)).

(** ** [pre_execution_hook] *)

Definition pre_execution_hook (E : externals) : M unit :=
  try_finally
    (try_except
       (unset_http_proxy_env ;;;
        resolve_username E ;;;
        lookup_workspace E ;;;
        derive_collection_id)
       (fun e => raise e))
    restore_http_proxy_env.

(** ** Output descriptors *)

(** [outputs] is a dictionary whose iteration order matters: an
    association list, read and updated at the first entry of a key. *)
Fixpoint alist_lookup {V} (k : string) (l : list (string * V)) : option V :=
  match l with
  | [] => None
  | (k', v) :: l' => if String.eqb k k' then Some v else alist_lookup k l'
  end.

Fixpoint alist_alter {V} (f : V -> V) (k : string) (l : list (string * V))
    : list (string * V) :=
  match l with
  | [] => []
  | (k', v) :: l' =>
      if String.eqb k k' then (k', f v) :: l' else (k', v) :: alist_alter f k l'
  end.

(** [self.outputs[name]] *)
Definition output_item (name : string) : M (gmap string pyval) :=
  o <- gets outputs ;;
  match alist_lookup name o with
  | Some d => ret d
  | None => raise (KeyError name)
  end.

(** [self.outputs[name][k] = v] *)
Definition output_setitem (name k : string) (v : pyval) : M unit :=
  output_item name ;;;
  modify (set_outputs (alist_alter (insert k v) name)).

(** [json.dumps({}, indent=2)] *)
Definition json_dumps_empty : pyval := PStr "{}".

(** ** [setOutput] *)

(** The local [items]: the list it starts as, or the iterator that
    [get_all_items()] returned. *)
Inductive items_ref : Type :=
| ItemsList (l : list Item)
| ItemsIterator (it : iterator Item).

(** The local [collection]: a collection of the document or an
    [ItemCollection]. *)
Inductive collection_ref : Type :=
| NativeCollection (c : Collection)
| ItemCollection (items : list Item).

(** Local variables of [setOutput] that survive a pass of its loop; the
    outer [option] is "not bound yet". *)
Record locals : Type := Locals {
  l_items : items_ref;
  l_itemFinal : option (list Item);
  l_collection : option (option collection_ref);
  l_collection_id : option pyval;
}.

Definition item_to_dict (i : Item) : pyval :=
  PDict (<["assets" := PDict (PDict <$> item_assets i)]>
         (<["collection" := item_collection_id i]> (item_fields i))).

Definition collection_ref_to_dict (c : collection_ref) : gmap string pyval :=
  match c with
  | NativeCollection c => collection_to_dict c
  | ItemCollection items =>
      {[ "type" := PStr "FeatureCollection";
         "features" := PList (item_to_dict <$> items) ]}
  end.

(** Lines 276-281: the storage fields written into one asset. *)
Definition storage_fields (region endpoint : pyval) (cDict : gmap string pyval)
    : gmap string pyval :=
  <["storage:endpoint" := endpoint]>
  (<["storage:region" := region]>
  (<["storage:tier" := PStr "Standard"]>
  (<["storage:requester_pays" := PBool false]>
  (<["storage:platform" := PStr "EOEPCA"]> cDict)))).

(** Lines 275-282 for one item: every asset is rewritten; the two
    configuration entries are read once per asset, so they are only needed
    when there is an asset. *)
Definition enrich_assets (c : gmap string (gmap string pyval))
    (assets : gmap string (gmap string pyval))
    : outcome (gmap string (gmap string pyval)) :=
  match map_to_list assets with
  | [] => Ret assets
  | _ =>
      match subscript c "additional_parameters" with
      | Raise e => Raise e
      | Ret ap =>
          match subscript ap "STAGEOUT_AWS_REGION", subscript ap "STAGEOUT_AWS_SERVICEURL" with
          | Ret region, Ret endpoint => Ret (storage_fields region endpoint <$> assets)
          | Raise e, _ => Raise e
          | _, Raise e => Raise e
          end
      end
  end.

(** Lines 271-289: the fallback on the document's items, with its own
    [try]; every exception ends it, the locals keep what was assigned
    before.  [items.append] raises [AttributeError] on an iterator, so at
    most one item is visited. *)
Definition items_fallback (c : gmap string (gmap string pyval)) (cat : stac_object)
    (collection_id : pyval) (loc : locals) : locals :=
  match all_items cat with
  | None => loc
  | Some it =>
      match it with
      | IterEnd =>
          Locals (ItemsIterator IterEnd) (Some []) (Some (Some (ItemCollection [])))
                 (l_collection_id loc)
      | IterRaise =>
          Locals (ItemsIterator IterRaise) (Some []) (l_collection loc) (l_collection_id loc)
      | IterYield i rest =>
          match enrich_assets c (item_assets i) with
          | Raise _ =>
              Locals (ItemsIterator rest) (Some []) (l_collection loc) (l_collection_id loc)
          | Ret assets =>
              Locals (ItemsIterator rest)
                     (Some [MkItem assets collection_id (item_fields i)])
                     (l_collection loc) (l_collection_id loc)
          end
      end
  end.

(** Lines 252-255: the storage URI and the document behind it; [None]
    when the [try] block raises. *)
Definition load_catalog (E : externals) (s3_path : pyval) : option stac_object :=
  match s3_path with
  | PStr p => read_file E (if contains "s3://" p then p else "s3://" +:+ p)
  | _ => None
  end.

Inductive loop_exit : Type :=
| LoopReturn
| LoopDone (loc : locals).

(** Lines 248-289, over the elements of [values[outputName]]. *)
Fixpoint setOutput_loop (E : externals) (outputName : string) (vals : list pyval)
    (loc : locals) : M loop_exit :=
  match vals with
  | [] => ret (LoopDone loc)
  | PNone :: _ => ret (LoopDone loc)
  | v :: vals' =>
      s3_path <- lift (subscript_val v "value") ;;
      match load_catalog E s3_path with
      | None =>
          output_setitem outputName "collection" json_dumps_empty ;;;
          ret LoopReturn
      | Some cat =>
          collection_id <- conf_item "additional_parameters" "collection_id" ;;
          let loc1 := Locals (l_items loc) (l_itemFinal loc) (Some None) (Some collection_id) in
          match all_collections cat with
          | Some (IterYield collection _) =>
              setOutput_loop E outputName vals'
                (Locals (l_items loc1) (l_itemFinal loc1)
                        (Some (Some (NativeCollection collection))) (l_collection_id loc1))
          | _ =>
              c <- gets conf ;;
              setOutput_loop E outputName vals' (items_fallback c cat collection_id loc1)
          end
      end
  end.

(** [len(items)] *)
Definition items_len (i : items_ref) : outcome nat :=
  match i with
  | ItemsList l => Ret (length l)
  | ItemsIterator _ => Raise TypeError
  end.

Definition post_json (E : externals) (url : string) (body : pyval)
    (headers : gmap string string) : M unit :=
  match requests_post E url body headers with
  | HttpResponse _ => ret tt
  | HttpFailure => raise RequestException
  end.

(** Lines 304-329. *)
Definition register_collection (E : externals) (collection : collection_ref)
    (collection_dict : gmap string pyval) : M unit :=
  token <- gets ades_rx_token ;;
  let headers := request_headers E "Accept" token in
  wurl <- gets workspace_url ;;
  prefix <- gets workspace_prefix ;;
  u <- gets username ;;
  let api_endpoint :=
    py_str E wurl +:+ "/workspaces/" +:+ py_str E prefix +:+ "-" +:+ py_str E u in
  post_json E (api_endpoint +:+ "/register-json") (PDict collection_dict) headers ;;;
  href <- match collection with
          | NativeCollection c => ret (collection_self_href c)
          | ItemCollection _ => raise AttributeError
          end ;;
  post_json E (api_endpoint +:+ "/register")
            (PDict {[ "type" := PStr "stac-item"; "url" := href ]}) headers.

(** Lines 291-329. *)
Definition setOutput_finish (E : externals) (outputName : string) (loc : locals) : M unit :=
  match l_collection loc with
  | None => raise (UnboundLocalError "collection")
  | Some None => output_setitem outputName "collection" json_dumps_empty
  | Some (Some collection) =>
      n <- lift (items_len (l_items loc)) ;;
      collection <- (if (0 <? n)%nat then
                       match l_itemFinal loc with
                       | Some itemFinal => ret (ItemCollection itemFinal)
                       | None => raise (UnboundLocalError "itemFinal")
                       end
                     else ret collection) ;;
      collection_id <- match l_collection_id loc with
                       | Some cid => ret cid
                       | None => raise (UnboundLocalError "collection_id")
                       end ;;
      let collection_dict := <["id" := collection_id]> (collection_ref_to_dict collection) in
      output_setitem outputName "collection" (PDict collection_dict) ;;;
      reg <- gets workspace_catalog_register ;;
      when reg (register_collection E collection collection_dict)
  end.

Definition setOutput (E : externals) (outputName : string) : M unit :=
  output_item outputName ;;;
  values <- gets engine_output ;;
  v <- lift (subscript values outputName) ;;
  vals <- match v with
          | PList l => ret l
          | _ => modify (set_engine_output (insert outputName (PList [v]))) ;;; ret [v]
          end ;;
  r <- setOutput_loop E outputName vals (Locals (ItemsList []) None None None) ;;
  match r with
  | LoopReturn => ret tt
  | LoopDone loc => setOutput_finish E outputName loc
  end.

(** ** [post_execution_hook] *)

(** [os.environ[k] = v] for the variable names of the source: a value
    that is not a string is a [TypeError], a string with an embedded NUL a
    [ValueError]. *)
Definition environ_setitem (k : string) (v : pyval) : M unit :=
  sv <- lift (as_str TypeError v) ;;
  if has_nul sv then raise ValueError
  else modify (set_environ (insert k sv)).

Definition publish_credential (var k : string) : M unit :=
  v <- conf_item "additional_parameters" k ;;
  environ_setitem var v.

(** Lines 223-228: the body of the loop over the declared outputs. *)
Definition map_output (E : externals) (i : string) : M unit :=
  o <- output_item i ;;
  if bool_decide (is_Some (o !! "mimeType")) then setOutput E i
  else
    values <- gets engine_output ;;
    v <- lift (subscript values i) ;;
    output_setitem i "value" (PStr (py_str E v)).

(** Line 222: the loop, over the output names [names]. *)
Fixpoint map_outputs (E : externals) (names : list string) : M unit :=
  match names with
  | [] => ret tt
  | i :: names' => map_output E i ;;; map_outputs E names'
  end.

(** The hook, called with the engine's output dictionary [output]. *)
Definition post_execution_hook (E : externals) (output : gmap string pyval) : M unit :=
  modify (set_engine_output (fun _ => output)) ;;;
  try_finally
    (try_except
       (unset_http_proxy_env ;;;
        publish_credential "AWS_S3_ENDPOINT" "STAGEOUT_AWS_SERVICEURL" ;;;
        publish_credential "AWS_ACCESS_KEY_ID" "STAGEOUT_AWS_ACCESS_KEY_ID" ;;;
        publish_credential "AWS_SECRET_ACCESS_KEY" "STAGEOUT_AWS_SECRET_ACCESS_KEY" ;;;
        publish_credential "AWS_REGION" "STAGEOUT_AWS_REGION" ;;;
        names <- gets (fun s => fst <$> outputs s) ;;
        map_outputs E names)
       (fun e => raise e))
    restore_http_proxy_env.

(** ** [local_get_file] and [get_secrets] *)

Definition local_get_file (E : externals) (fileName : string) : outcome pyval :=
  let loaded :=
    match open_read E fileName with
    | Ret content => yaml_safe_load E content
    | Raise e => Raise e
    end in
  match loaded with
  | Ret data => Ret data
  | Raise FileNotFoundError => Ret (PDict ∅)
  | Raise YAMLError => Ret (PDict ∅)
  | Raise e => Raise e
  end.

Definition get_secrets (E : externals) : outcome pyval :=
  local_get_file E "/assets/pod_imagePullSecrets.yaml".

(** ** [handle_outputs] *)

(** One element of [servicesLogs]. *)
Record service_log : Type := ServiceLog {
  sl_url : string;
  sl_title : string;
  sl_rel : string;
}.

Definition okeys : list string := ["url"; "title"; "rel"].

(** [key + "_" + str(n)] *)
Definition suffixed (n : Z) (key : string) : string :=
  key +:+ "_" +:+ str_of_int n.

(** [conf['main']['tmpUrl'].replace("temp/", conf["auth_env"]["user"] + "/temp/")] *)
Definition user_tmp_url : M string :=
  tmpUrl <- conf_item "main" "tmpUrl" ;;
  tmpUrl <- lift (as_str AttributeError tmpUrl) ;;
  user <- conf_item "auth_env" "user" ;;
  user <- lift (as_str TypeError user) ;;
  ret (str_replace "temp/" (user +:+ "/temp/") tmpUrl).

(** Lines 422-431: the list comprehension. *)
Fixpoint build_service_logs (E : externals) (tool_logs : list string)
    : M (list service_log) :=
  match tool_logs with
  | [] => ret []
  | tool_log :: tool_logs' =>
      tmpUrl <- conf_item "main" "tmpUrl" ;;
      identifier <- conf_item "lenv" "Identifier" ;;
      usid <- conf_item "lenv" "usid" ;;
      tmpUrl <- lift (as_str TypeError tmpUrl) ;;
      let entry :=
        ServiceLog
          (os_path_join3 tmpUrl (py_str E identifier +:+ "-" +:+ py_str E usid)
                         (os_path_basename tool_log))
          ("Tool log " +:+ os_path_basename tool_log)
          "related" in
      rest <- build_service_logs E tool_logs' ;;
      ret (entry :: rest)
  end.

(** Lines 435-445, from the running index [cindex]. *)
Fixpoint store_service_logs (servicesLogs : list service_log) (cindex : nat) : M unit :=
  match servicesLogs with
  | [] => ret tt
  | entry :: servicesLogs' =>
      let keys := if (0 <? cindex)%nat then suffixed (Z.of_nat cindex) <$> okeys else okeys in
      c <- gets conf ;;
      when (bool_decide (c !! "service_logs" = None))
           (modify (set_conf (insert "service_logs" ∅))) ;;;
      conf_setitem "service_logs" (nth 0 keys "") (PStr (sl_url entry)) ;;;
      conf_setitem "service_logs" (nth 1 keys "") (PStr (sl_title entry)) ;;;
      conf_setitem "service_logs" (nth 2 keys "") (PStr (sl_rel entry)) ;;;
      store_service_logs servicesLogs' (S cindex)
  end.

Definition handle_outputs (E : externals) (tool_logs : list string) : M unit :=
  try_except
    (url <- user_tmp_url ;;
     conf_setitem "main" "tmpUrl" (PStr url) ;;;
     servicesLogs <- build_service_logs E tool_logs ;;
     c <- gets conf ;;
     let cindex := if bool_decide (is_Some (c !! "service_logs")) then 1%nat else 0%nat in
     store_service_logs servicesLogs cindex ;;;
     conf_setitem "service_logs" "length"
                  (PStr (str_of_int (Z.of_nat (length servicesLogs)))))
    (fun e => raise e).

(** ** Failure branch of the service entry point *)

(** What the branch asks of the [ZooCalrissianRunner]. *)
Record runner : Type := Runner {
  get_namespace_name : string;
  (** opening the job-log file and writing [execution.get_log()] into it *)
  write_job_log : outcome unit;
  (** [execution.get_tool_logs()] *)
  get_tool_logs : outcome (list string);
}.

Definition SERVICE_SUCCEEDED : Z := 3.
Definition SERVICE_FAILED : Z := 4.

(** The local [runner], unbound when the exception came before its
    assignment. *)
Definition the_runner (r : option runner) : M runner :=
  match r with
  | Some rn => ret rn
  | None => raise (NameError "runner")
  end.

(** Lines 506-523. *)
Definition save_job_log (E : externals) (r : option runner) : M unit :=
  try_except
    (tmpPath <- conf_item "main" "tmpPath" ;;
     rn <- the_runner r ;;
     lift (as_str TypeError tmpPath) ;;;
     lift (write_job_log rn) ;;;
     c <- gets conf ;;
     when (bool_decide (c !! "service_logs" = None))
          (modify (set_conf (insert "service_logs" ∅))) ;;;
     service_logs <- conf_get_section "service_logs" ;;
     keys <- match service_logs !! "length" with
             | Some len => n <- lift (py_int E len) ;; ret (suffixed n <$> okeys)
             | None => ret okeys
             end ;;
     url <- user_tmp_url ;;
     conf_setitem "service_logs" (nth 0 keys "")
                  (PStr (os_path_join3 url (get_namespace_name rn) "job.log")) ;;;
     conf_setitem "service_logs" (nth 1 keys "") (PStr "Job pod log") ;;;
     conf_setitem "service_logs" (nth 2 keys "") (PStr "related") ;;;
     conf_setitem "service_logs" "length" (PStr "1"))
    (fun _ => ret tt).

(** Lines 524-528. *)
Definition salvage_tool_logs (E : externals) (r : option runner) : M unit :=
  try_except
    (rn <- the_runner r ;;
     tool_logs <- lift (get_tool_logs rn) ;;
     handle_outputs E tool_logs)
    (fun _ => ret tt).

(** Lines 504-532; [message] is the text of line 531 with the formatted
    stack in it, as it is handed to [zoo._]. *)
Definition service_failure_branch (E : externals) (r : option runner)
    (message : string) : M Z :=
  save_job_log E r ;;;
  salvage_tool_logs E r ;;;
  conf_setitem "lenv" "message" (zoo_translate E message) ;;;
  ret SERVICE_FAILED.

(** ** Reading the service-log section *)

(** The key under which entry number [n] stores its field [key]. *)
Definition entry_key (n : nat) (key : string) : string :=
  match n with
  | O => key
  | S _ => suffixed (Z.of_nat n) key
  end.

(** Entry number [n] exists in the section. *)
Definition has_entry (service_logs : gmap string pyval) (n : nat) : bool :=
  bool_decide (is_Some (service_logs !! entry_key n "url")).

(** ** Configuration providers *)

Definition get_pod_env_vars (s : state) : gmap string pyval :=
  default ∅ (conf s !! "pod_env_vars").

Definition get_pod_node_selector (s : state) : gmap string pyval :=
  default ∅ (conf s !! "pod_node_selector").

Definition get_additional_parameters (s : state) : gmap string pyval :=
  default ∅ (conf s !! "additional_parameters").

(** ** Success branch of the service entry point *)

(** Lines 494-497 for one output; [json_dumps] is
    [json.dumps(_, indent=2)]. *)
Definition collect_output (json_dumps : pyval -> string) (i : string) : M unit :=
  o <- output_item i ;;
  match o !! "collection" with
  | Some collection => output_setitem i "value" (PStr (json_dumps collection))
  | None => ret tt
  end.

(** Lines 492-497: the loop over the declared outputs. *)
Fixpoint collect_outputs (json_dumps : pyval -> string) (names : list string) : M unit :=
  match names with
  | [] => ret tt
  | i :: names' => collect_output json_dumps i ;;; collect_outputs json_dumps names'
  end.

(** ** Vocabulary of the statements *)

(** [m] never changes the observation [f] of the state, whether it returns
    or raises. *)
Definition preserves {T A} (f : state -> T) (m : M A) : Prop :=
  forall s, f (snd (m s)) = f s.

(** The nine defaults as one map transformer. *)
Definition with_defaults (env : gmap string string) (m : gmap string pyval)
    : gmap string pyval :=
  let dv k d := PStr (default d (env !! k)) in
  <["STAGEOUT_OUTPUT" := dv "STAGEOUT_OUTPUT" "eoepca"]>
  (<["STAGEOUT_AWS_REGION" := dv "STAGEOUT_AWS_REGION" "RegionOne"]>
  (<["STAGEOUT_AWS_SECRET_ACCESS_KEY" := dv "STAGEOUT_AWS_SECRET_ACCESS_KEY" "minio-secret-password"]>
  (<["STAGEOUT_AWS_ACCESS_KEY_ID" := dv "STAGEOUT_AWS_ACCESS_KEY_ID" "minio-admin"]>
  (<["STAGEOUT_AWS_SERVICEURL" := dv "STAGEOUT_AWS_SERVICEURL" "http://s3-service.zoo.svc.cluster.local:9000"]>
  (<["STAGEIN_AWS_REGION" := dv "STAGEIN_AWS_REGION" "RegionOne"]>
  (<["STAGEIN_AWS_SECRET_ACCESS_KEY" := dv "STAGEIN_AWS_SECRET_ACCESS_KEY" "minio-secret-password"]>
  (<["STAGEIN_AWS_ACCESS_KEY_ID" := dv "STAGEIN_AWS_ACCESS_KEY_ID" "minio-admin"]>
  (<["STAGEIN_AWS_SERVICEURL" := dv "STAGEIN_AWS_SERVICEURL" "http://s3-service.zoo.svc.cluster.local:9000"]>
   m)))))))).

(** What [restore_http_proxy_env] leaves in HTTP_PROXY once the variable
    has been unset: the saved value when it is non-empty. *)
Definition restored_proxy (s : state) : option string :=
  match http_proxy_env s with
  | Some v => if String.eqb v "" then None else Some v
  | None => None
  end.

(** [os.getenv("SERVICES_NAMESPACE")] in the state [s]. *)
Definition namespace_user (s : state) : pyval :=
  match environ s !! "SERVICES_NAMESPACE" with
  | Some ns => PStr ns
  | None => PNone
  end.

(** The request the lookup sends from state [s] when the base URL is
    [base]. *)
Definition workspace_request (E : externals) (s : state) (base : string) : http_result :=
  requests_get E
    (os_path_join base
       ("workspaces/" +:+ py_str E (workspace_prefix s) +:+ "-" +:+ py_str E (username s)))
    (request_headers E "accept" (ades_rx_token s)).

(** The references [setOutput] walks through: the engine's value, wrapped
    into a list when it is not one. *)
Definition values_list (v : pyval) : list pyval :=
  match v with
  | PList l => l
  | _ => [v]
  end.

(** The reference [v] names a document that loads. *)
Definition loadable (E : externals) (v : pyval) : Prop :=
  exists p cat, subscript_val v "value" = Ret p /\ load_catalog E p = Some cat.

(** The reference [v] names a document that cannot be loaded. *)
Definition unloadable (E : externals) (v : pyval) : Prop :=
  exists p, subscript_val v "value" = Ret p /\ load_catalog E p = None.

(** The reference [v] names a document that loads and whose first
    collection is [c]. *)
Definition native_collection (E : externals) (v : pyval) (c : Collection) : Prop :=
  exists p cat rest,
    subscript_val v "value" = Ret p /\ load_catalog E p = Some cat /\
    all_collections cat = Some (IterYield c rest).

(** What the hooks can see of the declared output [o]: its descriptor and
    the engine's value for it. *)
Definition output_view (o : string) (s : state)
    : option (gmap string pyval) * option pyval :=
  (alist_lookup o (outputs s), engine_output s !! o).

(** The descriptor [d'] is [d] up to its [value] field. *)
Definition same_but_value (d d' : gmap string pyval) : Prop :=
  forall k, k <> "value" -> d' !! k = d !! k.

(** The entry [conf[sec][k]], when present, is a string. *)
Definition str_valued (s : state) (sec k : string) : Prop :=
  forall v, conf s !! sec ≫= (.!! k) = Some v -> exists t, v = PStr t.

(** A credential that [os.environ] takes: a string without NUL. *)
Definition publishable (v : option pyval) : bool :=
  match v with
  | Some (PStr a) => negb (has_nul a)
  | _ => false
  end.

(** The four stage-out entries that the post hook publishes. *)
Definition credential_keys : list string :=
  ["STAGEOUT_AWS_SERVICEURL"; "STAGEOUT_AWS_ACCESS_KEY_ID";
   "STAGEOUT_AWS_SECRET_ACCESS_KEY"; "STAGEOUT_AWS_REGION"].

Definition credentials_publishable (s : state) : bool :=
  forallb (fun k => publishable (additional_parameter s k)) credential_keys.

(** A declared output without [mimeType] for which the engine's output
    has a value. *)
Definition raw_and_valued (output : gmap string pyval)
    (o : string * gmap string pyval) : bool :=
  match snd o !! "mimeType", output !! fst o with
  | None, Some _ => true
  | _, _ => false
  end.

(** Every declared output is such a one. *)
Definition all_raw (output : gmap string pyval) (s : state) : bool :=
  forallb (raw_and_valued output) (outputs s).

(** The first of them, in the order of the assignments, that cannot be
    published. *)
Definition first_bad_credential (s : state) : option string :=
  find (fun k => negb (publishable (additional_parameter s k))) credential_keys.

(** The exception that publishing the credential [v] raises. *)
Definition credential_error (v : option pyval) (e : exn) : Prop :=
  match v with
  | None => exists x, e = KeyError x
  | Some (PStr a) => has_nul a = true /\ e = ValueError
  | Some _ => e = TypeError
  end.

(** ** Concrete worlds and jobs, for the runs at the end *)

Module Demo.

(** [str] on the scalars that occur in the runs below. *)
Definition str (v : pyval) : string :=
  match v with
  | PStr s => s
  | PNone => "None"
  | PBool true => "True"
  | PBool false => "False"
  | PInt n => str_of_int n
  | PList _ | PDict _ => ""
  end.

Definition claims_alice : gmap string pyval :=
  {[ "user_name" := PStr "alice"; "preferred_username" := PStr "al" ]}.

Definition claims_empty : gmap string pyval :=
  {[ "username" := PStr ""; "preferred_username" := PStr "bob" ]}.

Definition decode (token : string) : outcome (gmap string pyval) :=
  if String.eqb token "tok-alice" then Ret claims_alice
  else if String.eqb token "tok-empty" then Ret claims_empty
  else Raise DecodeError.

Definition native : Collection :=
  MkCollection {[ "type" := PStr "Collection"; "id" := PStr "original" ]}
               (PStr "s3://bucket/collection.json").

Definition catalog : stac_object :=
  StacObject (Some (IterYield native IterEnd)) (Some IterEnd).

Definition storage (href : string) : option stac_object :=
  if String.eqb href "s3://bucket/catalog.json" then Some catalog else None.

(** A world whose workspace API answers every GET with [get]; the
    secrets file does not exist, [int] reads plain decimal numerals and
    [zoo] is the [ZooStub]. *)
Definition world (get : http_result) : externals :=
  Externals str decode (fun _ _ => get) (fun _ _ _ => HttpFailure) storage
            (fun _ => Raise FileNotFoundError) (fun _ => Raise YAMLError)
            decimal_numeral ZooStub_translate.

Definition unavailable : response :=
  Response 503 "Service Unavailable" (Raise JSONDecodeError).

Definition garbled : response :=
  Response 200 "<html>" (Raise JSONDecodeError).

Definition job_conf (token : string) : gmap string (gmap string pyval) :=
  {[ "eoepca" := {[ "workspace_url" := PStr "https://workspace.example";
                    "workspace_prefix" := PStr "ws" ]};
     "main" := {[ "tmpPath" := PStr "/tmp"; "tmpUrl" := PStr "https://zoo.example/temp/" ]};
     "auth_env" := {[ "user" := PStr "bob"; "jwt" := PStr token ]};
     "lenv" := {[ "Identifier" := PStr "proc"; "usid" := PStr "job-1" ]} ]}.

Definition job_outputs : list (string * gmap string pyval) :=
  [ ("stac", {[ "mimeType" := PStr "application/json" ]});
    ("raw", {[ "title" := PStr "plain result" ]}) ].

Definition process_env (proxy : string) : gmap string string :=
  {[ "HTTP_PROXY" := proxy; "SERVICES_NAMESPACE" := "ns" ]}.

Definition blank : state :=
  State ∅ [] ∅ ∅ None PNone PNone PNone false false PNone PNone.

(** The handler as its constructor leaves it. *)
Definition handler (token proxy : string) : state :=
  match handler_new (job_conf token) job_outputs (process_env proxy) with
  | Ret s => s
  | Raise _ => blank
  end.

(** The handler after its pre hook, with the engine's output bound. *)
Definition after_pre_hook (output : gmap string pyval) : state :=
  set_engine_output (fun _ => output)
    (snd (pre_execution_hook (world (HttpResponse unavailable))
                             (handler "" "http://proxy:3128"))).

Definition good_output : gmap string pyval :=
  {[ "stac" := PDict {[ "value" := PStr "bucket/catalog.json" ]};
     "raw" := PStr "42" ]}.

Definition lost_output : gmap string pyval :=
  {[ "stac" := PList [PDict {[ "value" := PStr "s3://missing/catalog.json" ]}];
     "raw" := PStr "42" ]}.

Definition failed_runner : runner :=
  Runner "proc-job-1" (Ret tt) (Ret ["/tmp/proc-job-1/step-1.log"]).

(** A job all of whose outputs are plain values, and what the engine
    produced for it. *)
Definition plain_outputs : list (string * gmap string pyval) :=
  [ ("count", ∅); ("raw", {[ "title" := PStr "plain result" ]}) ].

Definition plain_output : gmap string pyval :=
  {[ "count" := PInt 3; "raw" := PStr "42" ]}.

Definition plain_job : state :=
  match handler_new (job_conf "") plain_outputs (process_env "http://proxy:3128") with
  | Ret s => s
  | Raise _ => blank
  end.

(** The [service_logs] section after the failure branch has run on a
    fresh handler whose job left one tool log. *)
Definition salvaged_logs : gmap string pyval :=
  default ∅
    (conf (snd (service_failure_branch (world HttpFailure) (Some failed_runner)
                                       "Exception during execution"
                                       (handler "" ""))) !! "service_logs").

End Demo.

(** ** Vocabulary of the further properties *)

(** The five stage-out entries as the workspace's credentials give them. *)
Definition with_credentials (creds m : gmap string pyval) : gmap string pyval :=
  <["STAGEOUT_OUTPUT" := default PNone (creds !! "bucketname")]>
  (<["STAGEOUT_AWS_REGION" := default PNone (creds !! "region")]>
  (<["STAGEOUT_AWS_SECRET_ACCESS_KEY" := default PNone (creds !! "secret")]>
  (<["STAGEOUT_AWS_ACCESS_KEY_ID" := default PNone (creds !! "access")]>
  (<["STAGEOUT_AWS_SERVICEURL" := default PNone (creds !! "endpoint")]> m)))).


(** The body of the post hook after the proxy variable is unset. *)
Definition publish_and_map (E : externals) : M unit :=
  publish_credential "AWS_S3_ENDPOINT" "STAGEOUT_AWS_SERVICEURL" ;;;
  publish_credential "AWS_ACCESS_KEY_ID" "STAGEOUT_AWS_ACCESS_KEY_ID" ;;;
  publish_credential "AWS_SECRET_ACCESS_KEY" "STAGEOUT_AWS_SECRET_ACCESS_KEY" ;;;
  publish_credential "AWS_REGION" "STAGEOUT_AWS_REGION" ;;;
  names <- gets (fun s => fst <$> outputs s) ;;
  map_outputs E names.

(** The four credentials the post hook publishes, with the variable each
    goes to. *)
Definition published_credentials : list (string * string) :=
  [ ("AWS_S3_ENDPOINT", "STAGEOUT_AWS_SERVICEURL");
    ("AWS_ACCESS_KEY_ID", "STAGEOUT_AWS_ACCESS_KEY_ID");
    ("AWS_SECRET_ACCESS_KEY", "STAGEOUT_AWS_SECRET_ACCESS_KEY");
    ("AWS_REGION", "STAGEOUT_AWS_REGION") ].

(** The locals of [setOutput] before the first pass of its loop. *)
Definition no_locals : locals := Locals (ItemsList []) None None None.

(** Lines 443-444 for one element of [servicesLogs], as a map update. *)
Definition write_entry (cindex : nat) (entry : service_log) (d : gmap string pyval)
    : gmap string pyval :=
  <[entry_key cindex "rel" := PStr (sl_rel entry)]>
  (<[entry_key cindex "title" := PStr (sl_title entry)]>
  (<[entry_key cindex "url" := PStr (sl_url entry)]> d)).

Fixpoint write_entries (servicesLogs : list service_log) (cindex : nat)
    (d : gmap string pyval) : gmap string pyval :=
  match servicesLogs with
  | [] => d
  | entry :: servicesLogs' => write_entries servicesLogs' (S cindex) (write_entry cindex entry d)
  end.

(** The element of [servicesLogs] built for one tool log. *)
Definition tool_log_entry (E : externals) (tmpUrl : string) (identifier usid : pyval)
    (tool_log : string) : service_log :=
  ServiceLog
    (os_path_join3 tmpUrl (py_str E identifier +:+ "-" +:+ py_str E usid)
                   (os_path_basename tool_log))
    ("Tool log " +:+ os_path_basename tool_log)
    "related".

(** What the success branch makes of one output descriptor. *)
Definition with_serialized_collection (json_dumps : pyval -> string)
    (d : gmap string pyval) : gmap string pyval :=
  match d !! "collection" with
  | Some collection => <["value" := PStr (json_dumps collection)]> d
  | None => d
  end.

(** ** Further worlds and jobs, for the runs at the end *)

Module Runs.

(** Credentials as the workspace API returns them, here without a
    [region]. *)
Definition credentials : gmap string pyval :=
  {[ "endpoint" := PStr "https://s3.example"; "access" := PStr "key";
     "secret" := PStr "secret"; "bucketname" := PStr "ws-bob" ]}.

Definition details : response :=
  Response 200 "{}"
    (Ret (PDict {[ "storage" := PDict {[ "credentials" := PDict credentials ]} ]})).

Definition item : Item :=
  MkItem {[ "data" := {[ "href" := PStr "s3://bucket/a.tif" ]} ]} PNone ∅.

Definition items_only : stac_object :=
  StacObject (Some IterEnd) (Some (IterYield item IterEnd)).

Definition empty_catalog : stac_object :=
  StacObject (Some IterEnd) (Some IterEnd).

Definition storage (href : string) : option stac_object :=
  if String.eqb href "s3://bucket/items.json" then Some items_only
  else if String.eqb href "s3://bucket/empty.json" then Some empty_catalog
  else Demo.storage href.

(** A world whose workspace API answers every GET with [get] and every
    POST with [post]. *)
Definition world (get post : http_result) : externals :=
  Externals Demo.str Demo.decode (fun _ _ => get) (fun _ _ _ => post) storage
            (fun _ => Raise FileNotFoundError) (fun _ => Raise YAMLError)
            decimal_numeral ZooStub_translate.

Definition job_conf : gmap string (gmap string pyval) :=
  {[ "main" := {[ "tmpPath" := PStr "/tmp"; "tmpUrl" := PStr "https://zoo.example/temp/" ]};
     "auth_env" := {[ "user" := PStr "bob" ]};
     "lenv" := {[ "Identifier" := PStr "proc"; "usid" := PStr "job-1" ]};
     "additional_parameters" :=
       {[ "STAGEOUT_AWS_SERVICEURL" := PStr "https://minio.example";
          "STAGEOUT_AWS_ACCESS_KEY_ID" := PStr "minio-admin";
          "STAGEOUT_AWS_SECRET_ACCESS_KEY" := PStr "minio-secret-password";
          "STAGEOUT_AWS_REGION" := PStr "RegionOne";
          "STAGEOUT_OUTPUT" := PStr "eoepca";
          "collection_id" := PStr "job-1" ]} ]}.

Definition job_outputs : list (string * gmap string pyval) :=
  [ ("stac", {[ "mimeType" := PStr "application/json" ]});
    ("raw", {[ "title" := PStr "plain result" ]}) ].

Definition job_environ : gmap string string :=
  {[ "HTTP_PROXY" := "http://proxy:3128"; "SERVICES_NAMESPACE" := "ns" ]}.

(** A handler with workspace mode on and the engine's output [output]. *)
Definition job (output : gmap string pyval) : state :=
  State job_conf job_outputs job_environ output (Some "http://proxy:3128")
        (PStr "") (PStr "https://workspace.example") (PStr "ws") true false PNone (PStr "").

Definition items_output : gmap string pyval :=
  {[ "stac" := PDict {[ "value" := PStr "s3://bucket/items.json" ]} ]}.

Definition empty_output : gmap string pyval :=
  {[ "stac" := PDict {[ "value" := PStr "s3://bucket/empty.json" ]} ]}.

(** The handler after a pre hook that was given [details]. *)
Definition with_workspace_credentials : state :=
  snd (pre_execution_hook (world (HttpResponse details) HttpFailure) (job Demo.good_output)).

(** The handler after [handle_outputs] has stored two tool logs. *)
Definition with_two_logs : state :=
  snd (handle_outputs (world HttpFailure HttpFailure) ["/tmp/a.log"; "/tmp/b.log"] (job ∅)).

(** The handler after a post hook that mapped [Demo.good_output]. *)
Definition after_post_hook : state :=
  snd (post_execution_hook (world HttpFailure HttpFailure) Demo.good_output (job ∅)).

(** The handler made from nothing: empty configuration, no outputs, empty
    environment. *)
Definition bare : state :=
  match handler_new ∅ [] ∅ with
  | Ret s => s
  | Raise _ => Demo.blank
  end.

(** That handler with a NUL in the endpoint it was given. *)
Definition with_nul_endpoint : state :=
  set_conf (alter (insert "STAGEOUT_AWS_SERVICEURL"
                          (PStr (String "a" (String "000" (String "b" EmptyString)))))
                  "additional_parameters")
           with_workspace_credentials.

(** A configuration that turns workspace mode on and gives the
    registration flag as a boolean. *)
Definition misflagged : gmap string (gmap string pyval) :=
  {[ "eoepca" := {[ "workspace_url" := PStr "https://workspace.example";
                    "workspace_prefix" := PStr "ws";
                    "workspace_catalog_register" := PBool true ]} ]}.

End Runs.

(** * Verification *)

(** ** Credential defaults *)

Lemma default_param_run k d m s :
  conf s !! "additional_parameters" = Some m ->
  default_param k d s =
    (Ret tt, set_conf (insert "additional_parameters"
                         (<[k := PStr (default d (environ s !! k))]> m)) s).
Proof.
  intros Hm.
  unfold default_param, environ_get, conf_setitem, conf_item, bind, gets, lift, ret, modify, subscript.
  rewrite Hm. reflexivity.
Qed.

Lemma set_conf_insert_twice k m1 m2 s :
  set_conf (insert k m2) (set_conf (insert k m1) s) = set_conf (insert k m2) s.
Proof. unfold set_conf; cbn [conf outputs environ engine_output http_proxy_env domain
  workspace_url workspace_prefix use_workspace workspace_catalog_register username
  ades_rx_token]. by rewrite insert_insert_eq. Qed.

Lemma default_param_after k d m s :
  default_param k d (set_conf (insert "additional_parameters" m) s) =
    (Ret tt, set_conf (insert "additional_parameters"
                         (<[k := PStr (default d (environ s !! k))]> m)) s).
Proof.
  erewrite default_param_run by (cbn [conf set_conf]; apply lookup_insert_eq).
  by rewrite set_conf_insert_twice.
Qed.

Lemma init_config_defaults_run s :
  init_config_defaults s =
    (Ret tt,
     set_conf (insert "additional_parameters"
                 (with_defaults (environ s) (default ∅ (conf s !! "additional_parameters")))) s).
Proof.
  unfold init_config_defaults.
  unfold bind at 1. unfold gets at 1.
  set (m0 := default ∅ (conf s !! "additional_parameters")).
  unfold bind at 1.
  assert (Hw : exists s1, when (bool_decide (conf s !! "additional_parameters" = None))
                 (modify (set_conf (insert "additional_parameters" ∅))) s = (Ret tt, s1)
               /\ forall k d, default_param k d s1 =
                    (Ret tt, set_conf (insert "additional_parameters"
                         (<[k := PStr (default d (environ s !! k))]> m0)) s)).
  { unfold when. case_bool_decide as Hc.
    - eexists; split; [reflexivity|]. intros k d.
      rewrite default_param_after. subst m0. by rewrite Hc.
    - eexists; split; [reflexivity|]. intros k d.
      destruct (conf s !! "additional_parameters") as [m|] eqn:E; [|done].
      by rewrite (default_param_run k d m). }
  destruct Hw as (s1 & -> & Hs1).
  unfold bind at 1. rewrite Hs1.
  do 7 (unfold bind at 1; rewrite default_param_after).
  rewrite default_param_after.
  reflexivity.
Qed.

Ltac lookup_ins :=
  repeat first [ apply lookup_insert_eq
               | rewrite lookup_insert_eq
               | rewrite lookup_insert_ne by discriminate ].

Lemma with_defaults_lookup env m k :
  k ∈ staging_keys -> is_Some (with_defaults env m !! k).
Proof.
  unfold staging_keys, stagein_keys, stageout_keys, with_defaults. cbn [app].
  intros H.
  repeat (apply elem_of_cons in H as [->|H]; [eexists; lookup_ins; reflexivity|]).
  by apply elem_of_nil in H.
Qed.

Lemma with_defaults_idem env m :
  with_defaults env (with_defaults env m) = with_defaults env m.
Proof.
  apply map_eq; intros i.
  unfold with_defaults at 1.
  repeat (match goal with
          | |- <[?k := _]> _ !! _ = _ =>
              destruct (decide (i = k)) as [->|];
                [ rewrite lookup_insert_eq; symmetry; unfold with_defaults; lookup_ins; reflexivity
                | rewrite lookup_insert_ne by done ]
          end).
  reflexivity.
Qed.

(** C7 — after the credential defaults are applied, the four STAGEIN_* and
    the five STAGEOUT_* keys are all present in [additional_parameters], and
    applying the defaults once more under the same environment changes
    nothing. *)
Theorem init_config_defaults_present_idempotent (s : state) :
  exists s',
    init_config_defaults s = (Ret tt, s') /\
    (forall k, k ∈ staging_keys ->
               is_Some (additional_parameter s' k)) /\
    environ s' = environ s /\
    init_config_defaults s' = (Ret tt, s').
Proof.
  eexists. split; [apply init_config_defaults_run|].
  split; [|split; [reflexivity|]].
  - intros k Hk. unfold additional_parameter. cbn [conf set_conf].
    rewrite lookup_insert_eq. cbn [mbind option_bind].
    by apply with_defaults_lookup.
  - rewrite init_config_defaults_run. cbn [conf environ set_conf].
    rewrite lookup_insert_eq. cbn [from_option id].
    rewrite set_conf_insert_twice. by rewrite with_defaults_idem.
Qed.

(** ** Frame reasoning: what a computation leaves alone *)

Section Frame.
Context {T : Type} (f : state -> T).

Lemma preserves_ret {A} (a : A) : preserves f (ret a).
Proof. done. Qed.

Lemma preserves_raise {A} (e : exn) : preserves f (@raise A e).
Proof. done. Qed.

Lemma preserves_lift {A} (o : outcome A) : preserves f (lift o).
Proof. done. Qed.

Lemma preserves_gets {A} (g : state -> A) : preserves f (gets g).
Proof. done. Qed.

Lemma preserves_modify (g : state -> state) :
  (forall s, f (g s) = f s) -> preserves f (modify g).
Proof. intros H s. apply H. Qed.

Lemma preserves_bind {A B} (m : M A) (k : A -> M B) :
  preserves f m -> (forall a, preserves f (k a)) -> preserves f (bind m k).
Proof.
  intros Hm Hk s. unfold bind. specialize (Hm s).
  destruct (m s) as [[a|e] s']; cbn [snd] in *; [rewrite Hk|]; done.
Qed.

Lemma preserves_when (c : bool) (m : M unit) : preserves f m -> preserves f (when c m).
Proof. intros Hm. destruct c; [done|apply preserves_ret]. Qed.

Lemma preserves_try_except {A} (m : M A) (h : exn -> M A) :
  preserves f m -> (forall e, preserves f (h e)) -> preserves f (try_except m h).
Proof.
  intros Hm Hh s. unfold try_except. specialize (Hm s).
  destruct (m s) as [[a|e] s']; cbn [snd] in *; [|rewrite Hh]; done.
Qed.

Lemma preserves_try_finally {A} (m : M A) (fin : M unit) :
  preserves f m -> preserves f fin -> preserves f (try_finally m fin).
Proof.
  intros Hm Hf s. unfold try_finally. specialize (Hm s).
  destruct (m s) as [r s']; cbn [snd] in *. specialize (Hf s').
  destruct (fin s') as [[[]|e] s'']; cbn [snd] in *; congruence.
Qed.
End Frame.

Ltac frame_side :=
  intros ?;
  cbn beta iota delta
    [set_conf set_outputs set_environ set_engine_output set_use_workspace set_username
     conf outputs environ engine_output http_proxy_env domain workspace_url
     workspace_prefix use_workspace workspace_catalog_register username ades_rx_token];
  lazymatch goal with
  | |- ?x = ?x => reflexivity
  | |- <[_ := _]> _ !! _ = _ => apply lookup_insert_ne; discriminate
  | |- delete _ _ !! _ = _ => apply lookup_delete_ne; discriminate
  | |- _ => solve [auto]
  end.

Ltac frame_step :=
  first
    [ assumption
    | apply preserves_ret | apply preserves_raise | apply preserves_lift
    | apply preserves_gets
    | apply preserves_modify; frame_side
    | apply preserves_bind; [|intros ?]
    | apply preserves_when
    | apply preserves_try_except; [|intros ?]
    | apply preserves_try_finally
    | match goal with
      | H : forall _, preserves _ _ |- _ => apply H
      | H : forall _ _, preserves _ _ |- _ => apply H
      | |- preserves _ (match ?x with _ => _ end) => destruct x
      end
    | progress unfold conf_item, conf_setitem, conf_get_section, environ_get,
        default_param, os_getenv, output_item, output_setitem, environ_setitem,
        publish_credential, set_from_credentials, post_json, the_runner, user_tmp_url ].

Ltac frame := repeat frame_step.

(** ** The proxy variable *)

Lemma restore_http_proxy_env_run s :
  environ s !! "HTTP_PROXY" = None ->
  environ (snd (restore_http_proxy_env s)) !! "HTTP_PROXY" = restored_proxy s.
Proof.
  intros Hnone. unfold restore_http_proxy_env, restored_proxy, bind, gets, when.
  destruct (http_proxy_env s) as [v|]; [|done].
  destruct (String.eqb v ""); [done|].
  cbn [negb modify snd set_environ environ]. apply lookup_insert_eq.
Qed.

(** A hook body run between [unset_http_proxy_env] and
    [restore_http_proxy_env]. *)
Lemma scoped_proxy {A} (body : M A) s :
  preserves (fun s => environ s !! "HTTP_PROXY") body ->
  preserves http_proxy_env body ->
  environ (snd (try_finally
                  (try_except (unset_http_proxy_env ;;; body) (fun e => raise e))
                  restore_http_proxy_env s)) !! "HTTP_PROXY"
  = restored_proxy s.
Proof.
  intros Henv Hsaved.
  unfold try_finally, try_except, bind at 1, unset_http_proxy_env, modify.
  set (s0 := set_environ (delete "HTTP_PROXY") s).
  assert (H0 : environ s0 !! "HTTP_PROXY" = None) by apply lookup_delete_eq.
  specialize (Henv s0). specialize (Hsaved s0).
  destruct (body s0) as [[a|e] s1]; cbn [snd raise] in *.
  - pose proof (restore_http_proxy_env_run s1) as Hr.
    destruct (restore_http_proxy_env s1) as [[[]|e] s2]; cbn [snd] in *;
      (rewrite Hr by congruence; unfold restored_proxy; by rewrite Hsaved).
  - pose proof (restore_http_proxy_env_run s1) as Hr.
    destruct (restore_http_proxy_env s1) as [[[]|e'] s2]; cbn [snd] in *;
      (rewrite Hr by congruence; unfold restored_proxy; by rewrite Hsaved).
Qed.

Section OutputFrame.
Context {T : Type} (f : state -> T) (E : externals) (name : string).
Hypothesis f_outputs : forall h s, f (set_outputs (alist_alter h name) s) = f s.
Hypothesis f_engine_output :
  forall x s, f (set_engine_output (insert name x) s) = f s.

Lemma setOutput_loop_frame vals :
  forall loc, preserves f (setOutput_loop E name vals loc).
Proof.
  induction vals as [|v vals IH]; intros loc; cbn [setOutput_loop]; [frame|].
  destruct v; frame.
Qed.

Lemma setOutput_finish_frame loc : preserves f (setOutput_finish E name loc).
Proof. unfold setOutput_finish, register_collection. frame. Qed.

Lemma setOutput_frame : preserves f (setOutput E name).
Proof.
  unfold setOutput. pose proof setOutput_loop_frame as Hl.
  pose proof setOutput_finish_frame as Hf.
  frame.
Qed.

Lemma map_output_frame : preserves f (map_output E name).
Proof. unfold map_output. pose proof setOutput_frame as Hs. frame. Qed.
End OutputFrame.

Lemma map_outputs_frame {T} (f : state -> T) E names :
  (forall name h s, f (set_outputs (alist_alter h name) s) = f s) ->
  (forall name x s, f (set_engine_output (insert name x) s) = f s) ->
  preserves f (map_outputs E names).
Proof.
  intros Ho He.
  induction names as [|i names IH]; cbn [map_outputs]; [frame|].
  apply preserves_bind; [apply map_output_frame; auto|done].
Qed.

Lemma pre_execution_hook_body_frame {T} (f : state -> T) E :
  (forall u s, f (set_username u s) = f s) ->
  (forall b s, f (set_use_workspace b s) = f s) ->
  (forall g s, f (set_conf g s) = f s) ->
  preserves f (resolve_username E ;;; lookup_workspace E ;;; derive_collection_id).
Proof.
  intros Hu Hw Hc. unfold resolve_username, lookup_workspace, derive_collection_id. frame.
Qed.

Lemma post_execution_hook_body_frame E :
  preserves (fun s => environ s !! "HTTP_PROXY")
    (publish_credential "AWS_S3_ENDPOINT" "STAGEOUT_AWS_SERVICEURL" ;;;
     publish_credential "AWS_ACCESS_KEY_ID" "STAGEOUT_AWS_ACCESS_KEY_ID" ;;;
     publish_credential "AWS_SECRET_ACCESS_KEY" "STAGEOUT_AWS_SECRET_ACCESS_KEY" ;;;
     publish_credential "AWS_REGION" "STAGEOUT_AWS_REGION" ;;;
     names <- gets (fun s => fst <$> outputs s) ;;
     map_outputs E names) /\
  preserves http_proxy_env
    (publish_credential "AWS_S3_ENDPOINT" "STAGEOUT_AWS_SERVICEURL" ;;;
     publish_credential "AWS_ACCESS_KEY_ID" "STAGEOUT_AWS_ACCESS_KEY_ID" ;;;
     publish_credential "AWS_SECRET_ACCESS_KEY" "STAGEOUT_AWS_SECRET_ACCESS_KEY" ;;;
     publish_credential "AWS_REGION" "STAGEOUT_AWS_REGION" ;;;
     names <- gets (fun s => fst <$> outputs s) ;;
     map_outputs E names).
Proof.
  split.
  - pose proof (fun names =>
        map_outputs_frame (fun s => environ s !! "HTTP_PROXY") E names
          (fun _ _ _ => eq_refl) (fun _ _ _ => eq_refl)) as Hm.
    frame.
  - pose proof (fun names =>
        map_outputs_frame http_proxy_env E names
          (fun _ _ _ => eq_refl) (fun _ _ _ => eq_refl)) as Hm.
    frame.
Qed.

Lemma handler_new_captures_proxy c o env s :
  handler_new c o env = Ret s -> http_proxy_env s = env !! "HTTP_PROXY".
Proof.
  unfold handler_new. intros H.
  repeat match type of H with
         | match ?x with _ => _ end = _ => destruct x eqn:?; try discriminate
         end.
  all: match goal with
       | Hi : init_config_defaults _ = _ |- _ =>
           rewrite init_config_defaults_run in Hi; by simplify_eq
       end.
Qed.

(** C3 (amended) — the constructor captures the value of HTTP_PROXY; after
    either hook, whether it returned or raised, HTTP_PROXY holds exactly the
    captured value when that value is non-empty, and is absent when nothing
    or the empty string was captured. *)
Theorem http_proxy_env_scope E c o env s0 :
  handler_new c o env = Ret s0 ->
  http_proxy_env s0 = env !! "HTTP_PROXY" /\
  forall s output,
    http_proxy_env s = http_proxy_env s0 ->
    let after := match env !! "HTTP_PROXY" with
                 | Some v => if String.eqb v "" then None else Some v
                 | None => None
                 end in
    environ (snd (pre_execution_hook E s)) !! "HTTP_PROXY" = after /\
    environ (snd (post_execution_hook E output s)) !! "HTTP_PROXY" = after.
Proof.
  intros Hnew. pose proof (handler_new_captures_proxy _ _ _ _ Hnew) as Hcap.
  split; [done|]. intros s output Hs after.
  assert (Hafter : forall s', http_proxy_env s' = http_proxy_env s -> restored_proxy s' = after).
  { intros s' Hs'. unfold restored_proxy, after. by rewrite Hs', Hs, Hcap. }
  split.
  - unfold pre_execution_hook. rewrite scoped_proxy; [by apply Hafter| |];
      by apply pre_execution_hook_body_frame.
  - unfold post_execution_hook. unfold bind at 1, modify at 1.
    destruct (post_execution_hook_body_frame E) as [H1 H2].
    rewrite scoped_proxy; [by apply Hafter|done|done].
Qed.

(** ** Identity resolution *)

Lemma bind_tail_frame {T A B} (f : state -> T) (m : M A) (k : A -> M B) s :
  (forall a, preserves f (k a)) -> f (snd (bind m k s)) = f (snd (m s)).
Proof.
  intros Hk. unfold bind. destruct (m s) as [[a|e] s']; cbn [snd]; [apply Hk|done].
Qed.

Lemma reraise_id {A} (m : M A) s : try_except m (fun e => raise e) s = m s.
Proof. unfold try_except. by destruct (m s) as [[a|e] s']. Qed.

Lemma try_finally_frame {T A} (f : state -> T) (m : M A) (fin : M unit) s :
  preserves f fin -> f (snd (try_finally m fin s)) = f (snd (m s)).
Proof.
  intros Hf. unfold try_finally. destruct (m s) as [r s']. specialize (Hf s').
  by destruct (fin s') as [[[]|e] s''].
Qed.

Lemma restore_http_proxy_env_frame {T} (f : state -> T) :
  (forall g s, f (set_environ g s) = f s) -> preserves f restore_http_proxy_env.
Proof. intros H. unfold restore_http_proxy_env. frame. Qed.

Lemma resolve_username_run E s claims :
  username s = PNone ->
  (truthy (ades_rx_token s) = true -> decode_token E (ades_rx_token s) = Ret claims) ->
  let from_token := if truthy (ades_rx_token s) then get_user_name claims else PNone in
  exists s', resolve_username E s = (Ret tt, s') /\
    username s' = (if truthy from_token then from_token else namespace_user s) /\
    (forall u, set_username u s' = set_username u s).
Proof.
  intros Hu Hdec from_token. subst from_token.
  unfold resolve_username, bind, gets, when, lift, modify, os_getenv, ret, namespace_user.
  destruct (truthy (ades_rx_token s)) eqn:Ht.
  - rewrite Hdec by done. cbn [username set_username environ].
    destruct (truthy (get_user_name claims)) eqn:Hc; cbn [negb];
      eexists; (split; [reflexivity|]); split; try reflexivity; intros; reflexivity.
  - rewrite Hu. cbn [truthy negb username set_username environ].
    eexists; (split; [reflexivity|]); split; try reflexivity; intros; reflexivity.
Qed.

(** C6 (amended) — on a fresh handler, the pre hook resolves the user name
    to the first recognised claim of the decoded token, in the order
    [username], [user_name], [preferred_username], when that claim's value
    is truthy; with no token, no recognised claim, or an empty (falsy)
    first claim, it is the namespace variable SERVICES_NAMESPACE, and
    [None] when that is unset.  Nothing is raised by this step. *)
Theorem identity_resolution E s claims :
  username s = PNone ->
  (truthy (ades_rx_token s) = true -> decode_token E (ades_rx_token s) = Ret claims) ->
  let from_token := if truthy (ades_rx_token s) then get_user_name claims else PNone in
  get_user_name claims =
    match claims !! "username", claims !! "user_name", claims !! "preferred_username" with
    | Some v, _, _ => v
    | None, Some v, _ => v
    | None, None, Some v => v
    | None, None, None => PNone
    end /\
  (exists s', resolve_username E s = (Ret tt, s')) /\
  username (snd (pre_execution_hook E s)) =
    if truthy from_token then from_token
    else match environ s !! "SERVICES_NAMESPACE" with
         | Some ns => PStr ns
         | None => PNone
         end.
Proof.
  intros Hu Hdec from_token. split; [|split].
  - unfold get_user_name; cbn [first_claim].
    by destruct (claims !! "username"), (claims !! "user_name"),
               (claims !! "preferred_username").
  - destruct (resolve_username_run E s claims Hu Hdec) as (s' & Hrun & _). eauto.
  - unfold pre_execution_hook.
    rewrite (try_finally_frame username)
      by (apply restore_http_proxy_env_frame; intros; reflexivity).
    rewrite reraise_id.
    unfold bind at 1, unset_http_proxy_env, modify.
    set (s0 := set_environ (delete "HTTP_PROXY") s).
    rewrite (bind_tail_frame username).
    2:{ intros _. unfold lookup_workspace, derive_collection_id. frame. }
    destruct (resolve_username_run E s0 claims Hu Hdec) as (s' & Hrun & Hres & _).
    rewrite Hrun. cbn [snd]. rewrite Hres.
    unfold namespace_user, s0. cbn [environ set_environ ades_rx_token].
    by rewrite lookup_delete_ne by discriminate.
Qed.

(** ** Workspace lookup with an error status *)

Lemma set_username_same s : set_username (username s) s = s.
Proof. by destruct s. Qed.

Lemma resolve_username_returns E s claims :
  (truthy (ades_rx_token s) = true -> decode_token E (ades_rx_token s) = Ret claims) ->
  exists u, resolve_username E s = (Ret tt, set_username u s).
Proof.
  intros Hdec.
  unfold resolve_username, bind, gets, when, lift, modify, os_getenv, ret.
  destruct (truthy (ades_rx_token s)) eqn:Ht.
  - rewrite Hdec by done. cbn [username set_username environ].
    destruct (truthy (get_user_name claims)); cbn [negb]; eexists; reflexivity.
  - destruct (truthy (username s)) eqn:Hu; cbn [negb].
    + exists (username s). by rewrite set_username_same.
    + eexists; reflexivity.
Qed.

Lemma lookup_workspace_error_status E s base r :
  use_workspace s = true ->
  workspace_url s = PStr base ->
  workspace_request E s base = HttpResponse r ->
  response_ok r = false ->
  lookup_workspace E s = (Ret tt, set_use_workspace false s).
Proof.
  intros Huw Hurl Hreq Hok.
  unfold lookup_workspace, bind, gets, when, lift, as_str.
  unfold workspace_request in Hreq.
  rewrite Huw, Hurl, Hreq, Hok. reflexivity.
Qed.

Lemma lookup_workspace_network_failure E s base :
  use_workspace s = true ->
  workspace_url s = PStr base ->
  workspace_request E s base = HttpFailure ->
  lookup_workspace E s = (Raise RequestException, s).
Proof.
  intros Huw Hurl Hreq.
  unfold lookup_workspace, bind, gets, when, lift, as_str.
  unfold workspace_request in Hreq.
  rewrite Huw, Hurl, Hreq. reflexivity.
Qed.

Lemma conf_setitem_other sec k v k0 :
  k0 <> k -> preserves (fun s => conf s !! sec ≫= (.!! k0)) (conf_setitem sec k v).
Proof.
  intros Hne s. unfold conf_setitem, bind, gets, lift, subscript, modify.
  destruct (conf s !! sec) as [d|] eqn:Hd; cbn [snd conf set_conf]; [|by rewrite Hd].
  rewrite lookup_insert_eq. cbn [mbind option_bind]. by apply lookup_insert_ne.
Qed.

Lemma derive_collection_id_stageout k :
  k ∈ stageout_keys ->
  preserves (fun s => additional_parameter s k) derive_collection_id.
Proof.
  intros Hk. unfold derive_collection_id, additional_parameter.
  assert (k <> "collection_id" /\ k <> "process") as [H1 H2].
  { unfold stageout_keys in Hk.
    repeat (apply elem_of_cons in Hk as [->|Hk]; [split; discriminate|]).
    by apply elem_of_nil in Hk. }
  apply preserves_bind; [apply preserves_gets|intros lenv].
  apply preserves_bind; [by apply conf_setitem_other|intros _].
  apply preserves_bind; [unfold conf_item; frame|intros cid].
  apply preserves_bind; [apply preserves_lift|intros cid_str].
  by apply conf_setitem_other.
Qed.

Lemma lookup_workspace_unreadable_body E s base r e :
  use_workspace s = true ->
  workspace_url s = PStr base ->
  workspace_request E s base = HttpResponse r ->
  response_ok r = true ->
  json r = Raise e ->
  lookup_workspace E s = (Raise e, s).
Proof.
  intros Huw Hurl Hreq Hok Hjson.
  unfold lookup_workspace, bind, gets, when, lift, as_str.
  unfold workspace_request in Hreq.
  rewrite Huw, Hurl, Hreq, Hok, Hjson. reflexivity.
Qed.

Lemma restore_http_proxy_env_total s :
  exists s', restore_http_proxy_env s = (Ret tt, s').
Proof.
  unfold restore_http_proxy_env, bind, gets, when, ret, modify.
  destruct (http_proxy_env s) as [v|]; [|eauto].
  destruct (negb (String.eqb v "")); eauto.
Qed.

Lemma try_finally_restore_fst {A} (m : M A) s :
  fst (try_finally m restore_http_proxy_env s) = fst (m s).
Proof.
  unfold try_finally. destruct (m s) as [r s1].
  by destruct (restore_http_proxy_env_total s1) as [s2 ->].
Qed.

(** C1 (amended) — with workspace integration enabled, a workspace-details
    response carrying an error status (4xx or 5xx, for which [ok] is false)
    never raises out of the credential-resolution step: the step only
    switches workspace mode off.  After the pre hook every STAGEOUT_* entry
    of [additional_parameters] still holds its previous value and workspace
    mode is disabled.  A network failure, or an [ok] response whose body
    cannot be decoded, is re-raised by the hook; the STAGEOUT_* entries are
    unchanged then too, but workspace mode stays enabled. *)
Theorem workspace_error_status_keeps_defaults E s base claims :
  use_workspace s = true ->
  workspace_url s = PStr base ->
  (truthy (ades_rx_token s) = true -> decode_token E (ades_rx_token s) = Ret claims) ->
  (forall r,
     (forall url headers, requests_get E url headers = HttpResponse r) ->
     response_ok r = false ->
     lookup_workspace E s = (Ret tt, set_use_workspace false s) /\
     use_workspace (snd (pre_execution_hook E s)) = false /\
     forall k, k ∈ stageout_keys ->
       additional_parameter (snd (pre_execution_hook E s)) k = additional_parameter s k) /\
  (forall failure,
     (forall url headers, requests_get E url headers = HttpFailure) /\
     failure = RequestException \/
     (exists r, (forall url headers, requests_get E url headers = HttpResponse r) /\
                response_ok r = true /\ json r = Raise failure) ->
     fst (pre_execution_hook E s) = Raise failure /\
     use_workspace (snd (pre_execution_hook E s)) = true /\
     forall k, k ∈ stageout_keys ->
       additional_parameter (snd (pre_execution_hook E s)) k = additional_parameter s k).
Proof.
  intros Huw Hurl Hdec.
  set (s0 := set_environ (delete "HTTP_PROXY") s).
  destruct (resolve_username_returns E s0 claims Hdec) as [u Hres].
  set (s1 := set_username u s0).
  assert (Hhook : pre_execution_hook E s =
            try_finally (fun _ => (lookup_workspace E ;;; derive_collection_id) s1)
                        restore_http_proxy_env s).
  { unfold pre_execution_hook, try_finally. rewrite reraise_id.
    unfold bind at 1, unset_http_proxy_env, modify. fold s0.
    unfold bind at 1. by rewrite Hres. }
  assert (Hrestore : forall T (f : state -> T),
            (forall g s, f (set_environ g s) = f s) ->
            f (snd (pre_execution_hook E s))
            = f (snd ((lookup_workspace E ;;; derive_collection_id) s1))).
  { intros T f Henv. rewrite Hhook.
    by rewrite (try_finally_frame f) by (by apply restore_http_proxy_env_frame). }
  split.
  - intros r Hreq Hok.
    split; [eapply lookup_workspace_error_status; [done|done|apply Hreq|done]|].
    assert (Hrun : forall T (f : state -> T),
              preserves f derive_collection_id ->
              f (snd ((lookup_workspace E ;;; derive_collection_id) s1))
              = f (set_use_workspace false s1)).
    { intros T f Hder. unfold bind.
      erewrite lookup_workspace_error_status; [apply Hder|done|done|apply Hreq|done]. }
    split.
    + rewrite Hrestore by done. rewrite Hrun; [done|].
      unfold derive_collection_id. frame.
    + intros k Hk. rewrite (Hrestore _ (fun s => additional_parameter s k)) by done.
      rewrite (Hrun _ (fun s => additional_parameter s k)); [done|].
      by apply derive_collection_id_stageout.
  - intros failure Hfail.
    assert (Hlookup : lookup_workspace E s1 = (Raise failure, s1)).
    { destruct Hfail as [[Hreq ->]|(r & Hreq & Hok & Hjson)].
      - eapply lookup_workspace_network_failure; [done|done|apply Hreq].
      - eapply lookup_workspace_unreadable_body; [done|done|apply Hreq|done|done]. }
    assert (Hrun : (lookup_workspace E ;;; derive_collection_id) s1 = (Raise failure, s1))
      by (unfold bind; by rewrite Hlookup).
    split; [|split].
    + rewrite Hhook, try_finally_restore_fst. by rewrite Hrun.
    + rewrite Hrestore by done. by rewrite Hrun.
    + intros k Hk. rewrite (Hrestore _ (fun s => additional_parameter s k)) by done.
      by rewrite Hrun.
Qed.

(** ** Output-catalogue assembly *)

Lemma alist_lookup_alter {V} (f : V -> V) k (l : list (string * V)) d :
  alist_lookup k l = Some d -> alist_lookup k (alist_alter f k l) = Some (f d).
Proof.
  induction l as [|[k' v] l IH]; cbn [alist_lookup alist_alter]; [done|].
  destruct (String.eqb k k') eqn:Hk; cbn [alist_lookup]; rewrite Hk; [congruence|done].
Qed.

Lemma alist_lookup_alter_ne {V} (f : V -> V) k k0 (l : list (string * V)) :
  k0 <> k -> alist_lookup k0 (alist_alter f k l) = alist_lookup k0 l.
Proof.
  intros Hne. induction l as [|[k' v] l IH]; cbn [alist_lookup alist_alter]; [done|].
  destruct (String.eqb k k') eqn:Hk; cbn [alist_lookup]; [|by rewrite IH].
  apply String.eqb_eq in Hk as <-.
  apply String.eqb_neq in Hne. by rewrite Hne.
Qed.

Lemma conf_item_run s sec k x :
  conf s !! sec ≫= (.!! k) = Some x -> conf_item sec k s = (Ret x, s).
Proof.
  unfold conf_item, bind, gets, lift, subscript.
  destruct (conf s !! sec) as [d|]; cbn [mbind option_bind]; [|done].
  by intros ->.
Qed.

Lemma output_setitem_run s name k x d :
  alist_lookup name (outputs s) = Some d ->
  output_setitem name k x s = (Ret tt, set_outputs (alist_alter (insert k x) name) s).
Proof.
  intros Hd. unfold output_setitem, output_item, bind, gets, modify. by rewrite Hd.
Qed.

Lemma subscript_val_dict v k p :
  subscript_val v k = Ret p -> exists e, v = PDict e.
Proof. destruct v; try discriminate. eauto. Qed.

Lemma setOutput_loop_unloadable E name v vals loc s d :
  unloadable E v ->
  alist_lookup name (outputs s) = Some d ->
  setOutput_loop E name (v :: vals) loc s =
    (Ret LoopReturn,
     set_outputs (alist_alter (insert "collection" json_dumps_empty) name) s).
Proof.
  intros (p & Hsub & Hload) Hd.
  destruct (subscript_val_dict _ _ _ Hsub) as [e ->].
  cbn [setOutput_loop]. unfold bind at 1, lift at 1. rewrite Hsub, Hload.
  unfold bind. by erewrite output_setitem_run.
Qed.

Lemma setOutput_loop_loadable E name v vals loc s :
  loadable E v ->
  is_Some (additional_parameter s "collection_id") ->
  exists loc', setOutput_loop E name (v :: vals) loc s = setOutput_loop E name vals loc' s.
Proof.
  intros (p & cat & Hsub & Hload) [cid Hcid].
  destruct (subscript_val_dict _ _ _ Hsub) as [e ->].
  cbn [setOutput_loop]. unfold bind at 1, lift at 1. rewrite Hsub, Hload.
  unfold bind at 1. rewrite (conf_item_run _ _ _ _ Hcid).
  destruct (all_collections cat) as [[| |c rest]|]; eauto.
Qed.

Lemma setOutput_loop_native E name v c vals loc s cid :
  native_collection E v c ->
  additional_parameter s "collection_id" = Some cid ->
  setOutput_loop E name (v :: vals) loc s =
    setOutput_loop E name vals
      (Locals (l_items loc) (l_itemFinal loc) (Some (Some (NativeCollection c))) (Some cid)) s.
Proof.
  intros (p & cat & rest & Hsub & Hload & Hcol) Hcid.
  destruct (subscript_val_dict _ _ _ Hsub) as [e ->].
  cbn [setOutput_loop]. unfold bind at 1, lift at 1. rewrite Hsub, Hload.
  unfold bind at 1. rewrite (conf_item_run _ _ _ _ Hcid). by rewrite Hcol.
Qed.

Lemma setOutput_loop_until_unloadable E name pre ref post s d :
  Forall (loadable E) pre ->
  pre = [] \/ is_Some (additional_parameter s "collection_id") ->
  unloadable E ref ->
  alist_lookup name (outputs s) = Some d ->
  forall loc,
    setOutput_loop E name (pre ++ ref :: post) loc s =
      (Ret LoopReturn,
       set_outputs (alist_alter (insert "collection" json_dumps_empty) name) s).
Proof.
  intros Hpre Hcid Href Hd.
  induction Hpre as [|v pre Hv Hpre IH]; intros loc; cbn [app].
  - by eapply setOutput_loop_unloadable.
  - destruct Hcid as [|Hcid]; [done|].
    destruct (setOutput_loop_loadable E name v (pre ++ ref :: post) loc s Hv Hcid)
      as [loc' ->].
    apply IH. by right.
Qed.

Lemma setOutput_loop_all_native E name pre ref c s cid :
  Forall (fun v => exists c', native_collection E v c') pre ->
  native_collection E ref c ->
  additional_parameter s "collection_id" = Some cid ->
  forall loc,
    setOutput_loop E name (pre ++ [ref]) loc s =
      (Ret (LoopDone (Locals (l_items loc) (l_itemFinal loc)
                             (Some (Some (NativeCollection c))) (Some cid))), s).
Proof.
  intros Hpre Href Hcid.
  induction Hpre as [|v pre [c' Hv] Hpre IH]; intros loc; cbn [app].
  - by erewrite setOutput_loop_native.
  - erewrite setOutput_loop_native by done. by rewrite IH.
Qed.

(** Entering [setOutput]: the output descriptor and the engine's value
    exist; afterwards the loop runs over [values_list v] in a state with
    the same configuration and descriptors. *)
Lemma setOutput_enter E name s d v :
  alist_lookup name (outputs s) = Some d ->
  engine_output s !! name = Some v ->
  exists s1,
    conf s1 = conf s /\ outputs s1 = outputs s /\
    workspace_catalog_register s1 = workspace_catalog_register s /\
    setOutput E name s =
      match setOutput_loop E name (values_list v) (Locals (ItemsList []) None None None) s1 with
      | (Ret LoopReturn, s') => (Ret tt, s')
      | (Ret (LoopDone loc), s') => setOutput_finish E name loc s'
      | (Raise e, s') => (Raise e, s')
      end.
Proof.
  intros Hd Hv.
  unfold setOutput, output_item.
  unfold bind at 1. unfold bind at 1, gets at 1. rewrite Hd. unfold ret at 1.
  unfold bind at 1, gets at 1. unfold bind at 1, lift at 1, subscript. rewrite Hv.
  set (s1 := match v with
             | PList _ => s
             | _ => set_engine_output (insert name (PList [v])) s
             end).
  exists s1. split; [by destruct v|]. split; [by destruct v|]. split; [by destruct v|].
  assert (Hvals : forall B (k : list pyval -> M B),
             (vals <- match v with
                      | PList l => ret l
                      | _ => modify (set_engine_output (insert name (PList [v]))) ;;; ret [v]
                      end ;; k vals) s = k (values_list v) s1) by (intros; by destruct v).
  rewrite Hvals. unfold bind.
  by destruct (setOutput_loop E name (values_list v) _ s1) as [[[|loc]|e] s'].
Qed.

(** C8 — when the document of an output reference cannot be loaded,
    [setOutput] records the empty-collection sentinel (the JSON text of an
    empty object, [json.dumps({})]) in the output's [collection] field and
    returns without raising.  References that precede it in the engine's
    value and load do not change this. *)
Theorem setOutput_unloadable_sentinel E name s d v pre ref post :
  alist_lookup name (outputs s) = Some d ->
  engine_output s !! name = Some v ->
  values_list v = (pre ++ ref :: post)%list ->
  Forall (loadable E) pre ->
  pre = [] \/ is_Some (additional_parameter s "collection_id") ->
  unloadable E ref ->
  exists s',
    setOutput E name s = (Ret tt, s') /\
    alist_lookup name (outputs s') = Some (<["collection" := json_dumps_empty]> d).
Proof.
  intros Hd Hv Hvals Hpre Hcid Href.
  destruct (setOutput_enter E name s d v Hd Hv) as (s1 & Hc & Ho & _ & ->).
  rewrite Hvals.
  erewrite setOutput_loop_until_unloadable; [| done | | done | by rewrite Ho].
  2:{ unfold additional_parameter in *. by rewrite Hc. }
  eexists; split; [reflexivity|].
  cbn [outputs set_outputs]. rewrite Ho. by apply alist_lookup_alter.
Qed.

Lemma register_collection_pure E collection collection_dict :
  preserves (fun s => s) (register_collection E collection collection_dict).
Proof. unfold register_collection. frame. Qed.

Lemma setOutput_finish_native E name s d c cid itemFinal :
  alist_lookup name (outputs s) = Some d ->
  let collection_dict := <["id" := cid]> (collection_to_dict c) in
  exists r,
    setOutput_finish E name
      (Locals (ItemsList []) itemFinal (Some (Some (NativeCollection c))) (Some cid)) s
    = (r, set_outputs (alist_alter (insert "collection" (PDict collection_dict)) name) s) /\
    (workspace_catalog_register s = false -> r = Ret tt).
Proof.
  intros Hd collection_dict.
  unfold setOutput_finish. cbn [l_collection l_items l_itemFinal l_collection_id items_len length].
  unfold bind at 1, lift at 1. cbn [Nat.ltb Nat.leb].
  unfold bind at 1, ret at 1. unfold bind at 1, ret at 1.
  unfold bind at 1. cbn [collection_ref_to_dict]. fold collection_dict.
  erewrite output_setitem_run by done.
  set (s2 := set_outputs _ s).
  unfold bind, gets, when. cbn [workspace_catalog_register s2 set_outputs].
  destruct (workspace_catalog_register s) eqn:Hreg.
  - pose proof (register_collection_pure E (NativeCollection c) collection_dict s2) as Hp.
    cbn beta in Hp.
    destruct (register_collection E (NativeCollection c) collection_dict s2) as [r s3].
    cbn [snd] in Hp. subst s3. exists r. split; [done|done].
  - exists (Ret tt). done.
Qed.

(** C4 — when the engine's references name documents that load and contain
    a native collection, [setOutput] stores the last document's first
    collection in the output's [collection] field with its [id] forced to
    the job's [collection_id], whatever [id] the document gave it.  (A
    failing registration request can still raise afterwards; the field is
    already set.) *)
Theorem setOutput_native_collection_id E name s d v pre ref c cid :
  alist_lookup name (outputs s) = Some d ->
  engine_output s !! name = Some v ->
  values_list v = (pre ++ [ref])%list ->
  Forall (fun v => exists c', native_collection E v c') pre ->
  native_collection E ref c ->
  additional_parameter s "collection_id" = Some cid ->
  exists r s' collection_dict,
    setOutput E name s = (r, s') /\
    alist_lookup name (outputs s') = Some (<["collection" := PDict collection_dict]> d) /\
    collection_dict = <["id" := cid]> (collection_to_dict c) /\
    collection_dict !! "id" = Some cid /\
    (workspace_catalog_register s = false -> r = Ret tt).
Proof.
  intros Hd Hv Hvals Hpre Href Hcid.
  destruct (setOutput_enter E name s d v Hd Hv) as (s1 & Hc & Ho & Hreg & ->).
  rewrite Hvals.
  erewrite setOutput_loop_all_native; [| done | done |].
  2:{ unfold additional_parameter in *. rewrite Hc. exact Hcid. }
  cbn [l_items l_itemFinal].
  destruct (setOutput_finish_native E name s1 d c cid None) as (r & -> & Hr);
    [by rewrite Ho|].
  exists r. eexists. eexists. split; [reflexivity|].
  cbn [outputs set_outputs]. rewrite Ho.
  split; [by apply alist_lookup_alter|]. split; [reflexivity|].
  split; [apply lookup_insert_eq|]. intros Hs. apply Hr. by rewrite Hreg.
Qed.

(** ** Outputs without a media type *)

Lemma map_output_other E o i :
  o <> i -> preserves (output_view o) (map_output E i).
Proof.
  intros Hne. apply map_output_frame; intros; unfold output_view;
    cbn [outputs engine_output set_outputs set_engine_output].
  - by rewrite alist_lookup_alter_ne.
  - by rewrite lookup_insert_ne.
Qed.

Lemma map_output_raw E o s d :
  alist_lookup o (outputs s) = Some d ->
  d !! "mimeType" = None ->
  map_output E o s =
    match engine_output s !! o with
    | Some v =>
        (Ret tt, set_outputs (alist_alter (insert "value" (PStr (py_str E v))) o) s)
    | None => (Raise (KeyError o), s)
    end.
Proof.
  intros Hd Hm. unfold map_output, output_item.
  unfold bind at 1. unfold bind at 1, gets at 1. rewrite Hd. unfold ret at 1.
  rewrite bool_decide_eq_false_2 by (rewrite Hm; by intros [? ?]).
  unfold bind at 1, gets at 1. unfold bind at 1, lift at 1, subscript.
  destruct (engine_output s !! o) as [v|]; [|done].
  by erewrite output_setitem_run.
Qed.

Lemma map_outputs_raw_invariant E o d ov names :
  d !! "mimeType" = None ->
  forall s,
    engine_output s !! o = ov ->
    (exists d0, alist_lookup o (outputs s) = Some d0 /\ same_but_value d d0) ->
    exists r s' d',
      map_outputs E names s = (r, s') /\
      alist_lookup o (outputs s') = Some d' /\ same_but_value d d' /\
      (r = Ret tt ->
       o ∈ names \/
       (exists d0 v, alist_lookup o (outputs s) = Some d0 /\ ov = Some v /\
                     d0 !! "value" = Some (PStr (py_str E v))) ->
       exists v, ov = Some v /\ d' !! "value" = Some (PStr (py_str E v))).
Proof.
  intros Hm. induction names as [|i names IH]; intros s Hov (d0 & Hd0 & Hsame).
  - exists (Ret tt), s, d0. cbn [map_outputs]. split; [done|]. split; [done|].
    split; [done|]. intros _ [Hin|(d1 & v & Hd1 & Hv & Hval)].
    + by apply elem_of_nil in Hin.
    + exists v. split; [done|]. congruence.
  - cbn [map_outputs]. unfold bind at 1.
    destruct (decide (o = i)) as [<-|Hne].
    + rewrite (map_output_raw E o s d0 Hd0) by (rewrite Hsame; [done|discriminate]).
      rewrite Hov. destruct ov as [v|].
      * set (s1 := set_outputs _ s).
        assert (Hd1 : alist_lookup o (outputs s1)
                      = Some (<["value" := PStr (py_str E v)]> d0))
          by (by apply alist_lookup_alter).
        destruct (IH s1) as (r & s' & d' & Hrun & Hd' & Hsame' & Hret).
        { done. }
        { eexists; split; [exact Hd1|]. intros k Hk.
          rewrite lookup_insert_ne by done. by apply Hsame. }
        exists r, s', d'. split; [done|]. split; [done|]. split; [done|].
        intros Hr _. apply Hret; [done|]. right.
        exists (<["value" := PStr (py_str E v)]> d0), v.
        split; [done|]. split; [done|]. apply lookup_insert_eq.
      * exists (Raise (KeyError o)), s, d0. repeat split; try done.
    + pose proof (map_output_other E o i Hne s) as Hview.
      destruct (map_output E i s) as [[[]|e] s1]; cbn [snd] in Hview;
        unfold output_view in Hview; injection Hview as Hout Heng.
      * destruct (IH s1) as (r & s' & d' & Hrun & Hd' & Hsame' & Hret).
        { congruence. }
        { exists d0. split; [congruence|done]. }
        exists r, s', d'. split; [done|]. split; [done|]. split; [done|].
        intros Hr [Hin|(d1 & v & Hd1 & Hv & Hval)]; apply Hret; try done.
        -- apply elem_of_cons in Hin as [->|Hin]; [done|by left].
        -- right. exists d1, v. split; [congruence|done].
      * exists (Raise e), s1, d0. split; [done|]. split; [congruence|].
        split; [done|]. discriminate.
Qed.

Lemma bind_frame_cases {T A B} (f : state -> T) (m : M A) (k : A -> M B) s r s' :
  preserves f m ->
  bind m k s = (r, s') ->
  (f s' = f s /\ exists e, r = Raise e) \/
  (exists a s1, f s1 = f s /\ k a s1 = (r, s')).
Proof.
  intros Hm. unfold bind. specialize (Hm s).
  destruct (m s) as [[a|e] s1]; cbn [snd] in Hm; intros Hrun.
  - right. eauto.
  - left. simplify_eq. eauto.
Qed.

Lemma restore_http_proxy_env_returns s :
  exists s', restore_http_proxy_env s = (Ret tt, s') /\ outputs s' = outputs s.
Proof.
  unfold restore_http_proxy_env, bind, gets, when, ret, modify.
  destruct (http_proxy_env s) as [v|]; [|eauto].
  destruct (negb (String.eqb v "")); eauto.
Qed.

Lemma alist_lookup_elem_of {V} k (l : list (string * V)) d :
  alist_lookup k l = Some d -> k ∈ fst <$> l.
Proof.
  induction l as [|[k' v] l IH]; cbn [alist_lookup]; [done|].
  destruct (String.eqb k k') eqn:Hk; intros H; cbn [fmap list_fmap fst].
  - apply String.eqb_eq in Hk as ->. apply elem_of_cons. by left.
  - apply elem_of_cons. right. by apply IH.
Qed.

(** For a declared output without [mimeType], the post hook never touches
    any field but [value], and when it returns the [value] is [str] of the
    engine's raw value. *)
Lemma post_execution_hook_raw_frame E output s o d :
  alist_lookup o (outputs s) = Some d ->
  d !! "mimeType" = None ->
  exists r s' d',
    post_execution_hook E output s = (r, s') /\
    alist_lookup o (outputs s') = Some d' /\
    (forall k, k <> "value" -> d' !! k = d !! k) /\
    d' !! "collection" = d !! "collection" /\
    (r = Ret tt ->
     exists v, output !! o = Some v /\
               d' !! "value" = Some (PStr (py_str E v)) /\
               d' = <["value" := PStr (py_str E v)]> d).
Proof.
  intros Hd Hm.
  unfold post_execution_hook. unfold bind at 1, modify at 1.
  set (s0 := set_engine_output (fun _ => output) s).
  unfold try_finally. rewrite reraise_id.
  match goal with |- context [?body s0] => destruct (body s0) as [r s1] eqn:Hbody end.
  destruct (restore_http_proxy_env_returns s1) as (s2 & -> & Hout2).
  assert (Hgoal : exists d',
             alist_lookup o (outputs s1) = Some d' /\ same_but_value d d' /\
             (r = Ret tt -> exists v, output !! o = Some v /\
                                      d' !! "value" = Some (PStr (py_str E v)))).
  { set (f := fun s => (outputs s, engine_output s)).
    assert (Hstop : forall s', f s' = f s0 ->
               exists d', alist_lookup o (outputs s') = Some d' /\ same_but_value d d').
    { intros s' Hs'. injection Hs' as Ho _. exists d. by rewrite Ho. }
    apply (bind_frame_cases f) in Hbody as [[Hf [e ->]]|(? & sa & Hfa & Hbody)];
      [destruct (Hstop _ Hf) as (d' & ? & ?); by exists d'
      | |unfold unset_http_proxy_env; frame].
    do 4 (apply (bind_frame_cases f) in Hbody as [[Hf [e ->]]|(? & sb & Hfb & Hbody)];
          [destruct (Hstop s1) as (d' & ? & ?); [congruence|by exists d']
          | |frame];
          assert (Hfa' : f sb = f s0) by congruence;
          clear Hfa Hfb sa; rename sb into sa; rename Hfa' into Hfa).
    unfold bind, gets in Hbody. injection Hfa as Hoa Hea.
    destruct (map_outputs_raw_invariant E o d (output !! o) (fst <$> outputs sa) Hm sa)
      as (r' & s' & d' & Hrun & Hd' & Hsame & Hret).
    { by rewrite Hea. }
    { exists d. rewrite Hoa. done. }
    rewrite Hrun in Hbody. simplify_eq.
    exists d'. split; [done|]. split; [done|]. intros Hr. apply Hret; [done|].
    left. rewrite Hoa. by eapply alist_lookup_elem_of. }
  destruct Hgoal as (d' & Hd' & Hsame & Hret).
  exists r, s2, d'. split; [done|]. split; [by rewrite Hout2|]. split; [done|].
  split; [by apply Hsame|].
  intros Hr. destruct (Hret Hr) as (v & Hv & Hval). exists v.
  split; [done|]. split; [done|].
  apply map_eq; intros k. destruct (decide (k = "value")) as [->|Hk].
  - by rewrite lookup_insert_eq.
  - rewrite lookup_insert_ne by done. by apply Hsame.
Qed.

Lemma publishable_inv v :
  publishable v = true -> exists a, v = Some (PStr a) /\ has_nul a = false.
Proof.
  destruct v as [[| | |a| |]|]; try discriminate. cbn [publishable].
  intros H%negb_true_iff. eauto.
Qed.

Lemma publish_credential_run var k s a :
  additional_parameter s k = Some (PStr a) ->
  has_nul a = false ->
  publish_credential var k s = (Ret tt, set_environ (insert var a) s).
Proof.
  unfold additional_parameter. intros Hv Hnul.
  unfold publish_credential, bind. rewrite (conf_item_run _ _ _ _ Hv).
  unfold environ_setitem, bind, lift. cbn [as_str]. by rewrite Hnul.
Qed.

Lemma post_execution_hook_unfold E output s :
  post_execution_hook E output s =
    try_finally (fun s0 => publish_and_map E (set_environ (delete "HTTP_PROXY") s0))
                restore_http_proxy_env
                (set_engine_output (fun _ => output) s).
Proof.
  unfold post_execution_hook. unfold bind at 1, modify at 1.
  unfold try_finally. by rewrite reraise_id.
Qed.

Lemma raw_and_valued_lookup output l i :
  forallb (raw_and_valued output) l = true ->
  i ∈ fst <$> l ->
  exists di v, alist_lookup i l = Some di /\ di !! "mimeType" = None /\
               output !! i = Some v.
Proof.
  induction l as [|[k d] l IH]; cbn [forallb fmap list_fmap fst alist_lookup].
  - intros _ Hin. by apply elem_of_nil in Hin.
  - intros [Hhead Htail]%andb_true_iff Hin.
    destruct (String.eqb i k) eqn:Hk.
    + apply String.eqb_eq in Hk as ->. unfold raw_and_valued in Hhead.
      cbn [fst snd] in Hhead.
      destruct (d !! "mimeType") eqn:Hm; [discriminate|].
      destruct (output !! k) as [v|] eqn:Hv; [|discriminate]. by exists d, v.
    + apply String.eqb_neq in Hk.
      apply elem_of_cons in Hin as [->|Hin]; [done|]. by apply IH.
Qed.

Lemma map_outputs_all_raw E names :
  forall s,
    (forall i, i ∈ names ->
       exists di v, alist_lookup i (outputs s) = Some di /\
                    di !! "mimeType" = None /\ engine_output s !! i = Some v) ->
    fst (map_outputs E names s) = Ret tt.
Proof.
  induction names as [|i names IH]; intros s Hraw; cbn [map_outputs]; [done|].
  unfold bind.
  destruct (Hraw i) as (di & v & Hd & Hm & Hv); [apply elem_of_cons; by left|].
  rewrite (map_output_raw E i s di Hd Hm), Hv.
  apply IH. intros j Hj.
  destruct (Hraw j) as (dj & vj & Hdj & Hmj & Hvj); [apply elem_of_cons; by right|].
  cbn [outputs engine_output set_outputs].
  destruct (decide (j = i)) as [->|Hne].
  - exists (<["value" := PStr (py_str E v)]> di), v.
    split; [by apply alist_lookup_alter|]. split; [|done].
    by rewrite lookup_insert_ne.
  - exists dj, vj. by rewrite alist_lookup_alter_ne.
Qed.

(** With publishable credentials and plain outputs only, the post hook
    returns. *)
Lemma post_execution_hook_all_raw E output s :
  credentials_publishable s = true ->
  all_raw output s = true ->
  fst (post_execution_hook E output s) = Ret tt.
Proof.
  intros Hpub Hraw. rewrite post_execution_hook_unfold, try_finally_restore_fst.
  unfold credentials_publishable, credential_keys in Hpub. cbn [forallb] in Hpub.
  apply andb_true_iff in Hpub as [(a & Ha & Hna)%publishable_inv Hpub].
  apply andb_true_iff in Hpub as [(b & Hb & Hnb)%publishable_inv Hpub].
  apply andb_true_iff in Hpub as [(c & Hc & Hnc)%publishable_inv Hpub].
  apply andb_true_iff in Hpub as [(d & Hd & Hnd)%publishable_inv _].
  cbv beta. unfold publish_and_map.
  unfold bind at 1. erewrite publish_credential_run; [|exact Ha|exact Hna].
  unfold bind at 1. erewrite publish_credential_run; [|exact Hb|exact Hnb].
  unfold bind at 1. erewrite publish_credential_run; [|exact Hc|exact Hnc].
  unfold bind at 1. erewrite publish_credential_run; [|exact Hd|exact Hnd].
  unfold bind at 1, gets at 1. cbn [outputs set_environ set_engine_output].
  apply map_outputs_all_raw. intros i Hi.
  cbn [outputs engine_output set_environ set_engine_output].
  by apply raw_and_valued_lookup.
Qed.

(** C5 — for a declared output without [mimeType], the post hook never
    touches any field but [value]: no [collection] is ever set on it,
    whether the hook returns or raises.  When the hook returns, the
    output's [value] is [str] of the engine's raw value for that output;
    and the hook does return, with that value written, when the four
    credentials it publishes are strings without NUL and every declared
    output is a plain one for which the engine produced a value.  Whatever
    the other outputs are, the body of the loop, at the turn of this
    output, writes that value and goes on. *)
Theorem post_execution_hook_raw_output E output s o d :
  alist_lookup o (outputs s) = Some d ->
  d !! "mimeType" = None ->
  (exists r s' d',
     post_execution_hook E output s = (r, s') /\
     alist_lookup o (outputs s') = Some d' /\
     (forall k, k <> "value" -> d' !! k = d !! k) /\
     d' !! "collection" = d !! "collection" /\
     (r = Ret tt ->
      exists v, output !! o = Some v /\
                d' !! "value" = Some (PStr (py_str E v)) /\
                d' = <["value" := PStr (py_str E v)]> d) /\
     (credentials_publishable s = true -> all_raw output s = true ->
      r = Ret tt /\
      exists v, output !! o = Some v /\
                d' = <["value" := PStr (py_str E v)]> d)) /\
  (forall s1 v,
     alist_lookup o (outputs s1) = Some d ->
     engine_output s1 !! o = Some v ->
     exists s2,
       map_output E o s1 = (Ret tt, s2) /\
       alist_lookup o (outputs s2) = Some (<["value" := PStr (py_str E v)]> d) /\
       (forall i, i <> o -> alist_lookup i (outputs s2) = alist_lookup i (outputs s1)) /\
       engine_output s2 = engine_output s1).
Proof.
  intros Hd Hm. split.
  - destruct (post_execution_hook_raw_frame E output s o d Hd Hm)
      as (r & s' & d' & Hrun & Hd' & Hsame & Hcoll & Hret).
    exists r, s', d'. split; [done|]. split; [done|]. split; [done|].
    split; [done|]. split; [done|].
    intros Hpub Hraw.
    pose proof (post_execution_hook_all_raw E output s Hpub Hraw) as Hfst.
    rewrite Hrun in Hfst. cbn [fst] in Hfst. split; [done|].
    destruct (Hret Hfst) as (v & Hv & _ & Hd''). eauto.
  - intros s1 v Hd1 Hv. rewrite (map_output_raw E o s1 d Hd1 Hm), Hv.
    eexists. split; [reflexivity|]. cbn [outputs engine_output set_outputs].
    split; [by apply alist_lookup_alter|]. split; [|done].
    intros i Hi. by apply alist_lookup_alter_ne.
Qed.

(** ** Secrets file *)

(** C9 — [local_get_file] returns the empty mapping when the file is absent
    ([FileNotFoundError]) or malformed ([yaml.YAMLError]); so does
    [get_secrets] for the fixed path of the image-pull secrets. *)
Theorem local_get_file_absent_or_malformed E fileName :
  (open_read E fileName = Raise FileNotFoundError \/
   exists content, open_read E fileName = Ret content /\
                   yaml_safe_load E content = Raise YAMLError) ->
  local_get_file E fileName = Ret (PDict ∅) /\
  (fileName = "/assets/pod_imagePullSecrets.yaml" -> get_secrets E = Ret (PDict ∅)).
Proof.
  intros H.
  assert (Hl : local_get_file E fileName = Ret (PDict ∅)).
  { unfold local_get_file. destruct H as [->|(content & -> & ->)]; reflexivity. }
  split; [done|]. intros ->. exact Hl.
Qed.

(** ** Service logs *)

Lemma conf_item_raises s sec k :
  conf s !! sec ≫= (.!! k) = None ->
  exists x, conf_item sec k s = (Raise (KeyError x), s).
Proof.
  unfold conf_item, bind, gets, lift, subscript.
  destruct (conf s !! sec) as [d|]; cbn [mbind option_bind]; [|eauto].
  intros ->. eauto.
Qed.

Lemma user_tmp_url_run s t u :
  conf s !! "main" ≫= (.!! "tmpUrl") = Some (PStr t) ->
  conf s !! "auth_env" ≫= (.!! "user") = Some (PStr u) ->
  user_tmp_url s = (Ret (str_replace "temp/" (u +:+ "/temp/") t), s).
Proof.
  intros Ht Hu. unfold user_tmp_url.
  unfold bind at 1. rewrite (conf_item_run _ _ _ _ Ht).
  unfold bind at 1, lift at 1, as_str.
  unfold bind at 1. rewrite (conf_item_run _ _ _ _ Hu).
  reflexivity.
Qed.

Lemma user_tmp_url_cases s :
  str_valued s "main" "tmpUrl" -> str_valued s "auth_env" "user" ->
  (exists x, user_tmp_url s = (Raise (KeyError x), s)) \/
  (exists t u, conf s !! "main" ≫= (.!! "tmpUrl") = Some (PStr t) /\
               conf s !! "auth_env" ≫= (.!! "user") = Some (PStr u)).
Proof.
  intros Ht Hu.
  destruct (conf s !! "main" ≫= (.!! "tmpUrl")) as [v|] eqn:Hv.
  - destruct (Ht v Hv) as [t ->].
    destruct (conf s !! "auth_env" ≫= (.!! "user")) as [w|] eqn:Hw.
    + destruct (Hu w Hw) as [u ->]. right. eauto.
    + left. destruct (conf_item_raises _ _ _ Hw) as [x Hx]. exists x.
      unfold user_tmp_url. unfold bind at 1. rewrite (conf_item_run _ _ _ _ Hv).
      unfold bind at 1, lift at 1, as_str. unfold bind at 1. by rewrite Hx.
  - left. destruct (conf_item_raises _ _ _ Hv) as [x Hx]. exists x.
    unfold user_tmp_url. unfold bind at 1. by rewrite Hx.
Qed.

Lemma conf_setitem_run s sec k v d :
  conf s !! sec = Some d ->
  conf_setitem sec k v s = (Ret tt, set_conf (insert sec (<[k := v]> d)) s).
Proof. intros Hd. unfold conf_setitem, bind, gets, lift, subscript, modify. by rewrite Hd. Qed.

Lemma build_service_logs_run E tool_logs s t i u :
  conf s !! "main" ≫= (.!! "tmpUrl") = Some (PStr t) ->
  conf s !! "lenv" ≫= (.!! "Identifier") = Some i ->
  conf s !! "lenv" ≫= (.!! "usid") = Some u ->
  exists logs,
    build_service_logs E tool_logs s = (Ret logs, s) /\ length logs = length tool_logs.
Proof.
  intros Ht Hi Hu. induction tool_logs as [|tool_log tool_logs (logs & IH & Hlen)].
  - by exists [].
  - cbn [build_service_logs].
    unfold bind at 1. rewrite (conf_item_run _ _ _ _ Ht).
    unfold bind at 1. rewrite (conf_item_run _ _ _ _ Hi).
    unfold bind at 1. rewrite (conf_item_run _ _ _ _ Hu).
    unfold bind at 1, lift at 1, as_str.
    unfold bind at 1. rewrite IH. unfold ret.
    eexists; split; [reflexivity|]. cbn [length]. by rewrite Hlen.
Qed.

Lemma store_service_logs_returns logs :
  forall cindex s,
    exists s',
      store_service_logs logs cindex s = (Ret tt, s') /\
      (logs = [] -> s' = s) /\
      (logs <> [] \/ is_Some (conf s !! "service_logs") ->
       is_Some (conf s' !! "service_logs")).
Proof.
  induction logs as [|entry logs IH]; intros cindex s.
  - exists s. split; [done|]. split; [done|]. by intros [?|?].
  - cbn [store_service_logs].
    unfold bind at 1, gets at 1. unfold bind at 1.
    assert (Hw : exists s1 d,
               when (bool_decide (conf s !! "service_logs" = None))
                    (modify (set_conf (insert "service_logs" ∅))) s = (Ret tt, s1) /\
               conf s1 !! "service_logs" = Some d).
    { unfold when. case_bool_decide as Hc.
      - eexists _, _. split; [reflexivity|]. cbn [conf set_conf]. apply lookup_insert_eq.
      - destruct (conf s !! "service_logs") as [d|] eqn:Hd; [|done].
        exists s, d. done. }
    destruct Hw as (s1 & d & -> & Hd).
    unfold bind at 1. rewrite (conf_setitem_run _ _ _ _ _ Hd).
    unfold bind at 1. erewrite conf_setitem_run by (cbn [conf set_conf]; apply lookup_insert_eq).
    unfold bind at 1. erewrite conf_setitem_run by (cbn [conf set_conf]; apply lookup_insert_eq).
    match goal with |- context [store_service_logs logs ?c ?s2] =>
      destruct (IH c s2) as (s' & Hrun & _ & Hsome) end.
    exists s'. split; [done|]. split; [done|]. intros _. apply Hsome. right.
    cbn [conf set_conf]. rewrite lookup_insert_eq. eauto.
Qed.

(** C10 — on a configuration without a [service_logs] section (whose
    [main.tmpUrl] and [auth_env.user], when present, are strings),
    [handle_outputs] with an empty list of tool logs raises a [KeyError]:
    the one for [service_logs] as soon as the entries read before it exist.
    With at least one tool log and the identifiers of [lenv] present, the
    call completes and [service_logs.length] is the number of entries just
    built. *)
Theorem handle_outputs_without_service_logs E s :
  conf s !! "service_logs" = None ->
  str_valued s "main" "tmpUrl" ->
  str_valued s "auth_env" "user" ->
  (exists k s', handle_outputs E [] s = (Raise (KeyError k), s')) /\
  (is_Some (conf s !! "main" ≫= (.!! "tmpUrl")) ->
   is_Some (conf s !! "auth_env" ≫= (.!! "user")) ->
   (exists s', handle_outputs E [] s = (Raise (KeyError "service_logs"), s')) /\
   forall tool_logs,
     tool_logs <> [] ->
     is_Some (conf s !! "lenv" ≫= (.!! "Identifier")) ->
     is_Some (conf s !! "lenv" ≫= (.!! "usid")) ->
     exists s',
       handle_outputs E tool_logs s = (Ret tt, s') /\
       conf s' !! "service_logs" ≫= (.!! "length")
       = Some (PStr (str_of_int (Z.of_nat (length tool_logs))))).
Proof.
  intros Hnone Htyp Hutyp.
  assert (Hpresent : forall t u,
    conf s !! "main" ≫= (.!! "tmpUrl") = Some (PStr t) ->
    conf s !! "auth_env" ≫= (.!! "user") = Some (PStr u) ->
    (exists s', handle_outputs E [] s = (Raise (KeyError "service_logs"), s')) /\
    forall tool_logs,
      tool_logs <> [] ->
      is_Some (conf s !! "lenv" ≫= (.!! "Identifier")) ->
      is_Some (conf s !! "lenv" ≫= (.!! "usid")) ->
      exists s',
        handle_outputs E tool_logs s = (Ret tt, s') /\
        conf s' !! "service_logs" ≫= (.!! "length")
        = Some (PStr (str_of_int (Z.of_nat (length tool_logs))))).
  { intros t u Ht Hu.
    destruct (conf s !! "main") as [m|] eqn:Hmain; [|done].
    set (url := str_replace "temp/" (u +:+ "/temp/") t).
    set (s1 := set_conf (insert "main" (<["tmpUrl" := PStr url]> m)) s).
    assert (Hstart : forall tool_logs,
      handle_outputs E tool_logs s =
        (servicesLogs <- build_service_logs E tool_logs ;;
         c <- gets conf ;;
         let cindex := if bool_decide (is_Some (c !! "service_logs")) then 1%nat else 0%nat in
         store_service_logs servicesLogs cindex ;;;
         conf_setitem "service_logs" "length"
                      (PStr (str_of_int (Z.of_nat (length servicesLogs))))) s1).
    { intros tool_logs. unfold handle_outputs. rewrite reraise_id.
      unfold bind at 1. rewrite (user_tmp_url_run s t u) by (by rewrite ?Hmain).
      unfold bind at 1. by rewrite (conf_setitem_run _ _ _ _ _ Hmain). }
    assert (Hnone1 : conf s1 !! "service_logs" = None).
    { unfold s1. cbn [conf set_conf]. by rewrite lookup_insert_ne by discriminate. }
    split.
    - exists s1. rewrite Hstart. cbn [build_service_logs].
      unfold bind at 1, ret at 1. unfold bind at 1, gets at 1.
      rewrite Hnone1. rewrite bool_decide_eq_false_2 by (by intros [? ?]).
      cbn [store_service_logs length]. unfold bind at 1, ret at 1.
      unfold conf_setitem, bind, gets, lift, subscript. by rewrite Hnone1.
    - intros tool_logs Hne [i Hi] [w Hw].
      rewrite Hstart.
      destruct (build_service_logs_run E tool_logs s1 url i w) as (logs & Hb & Hlen).
      { unfold s1. cbn [conf set_conf]. rewrite lookup_insert_eq.
        cbn [mbind option_bind]. apply lookup_insert_eq. }
      { unfold s1. cbn [conf set_conf]. by rewrite lookup_insert_ne by discriminate. }
      { unfold s1. cbn [conf set_conf]. by rewrite lookup_insert_ne by discriminate. }
      unfold bind at 1. rewrite Hb. unfold bind at 1, gets at 1.
      rewrite Hnone1. rewrite bool_decide_eq_false_2 by (by intros [? ?]).
      destruct (store_service_logs_returns logs 0 s1) as (s2 & Hs & _ & Hsome).
      unfold bind at 1. rewrite Hs.
      destruct Hsome as [d Hd].
      { left. intros ->. destruct tool_logs; [done|discriminate]. }
      rewrite (conf_setitem_run _ _ _ _ _ Hd).
      eexists; split; [reflexivity|]. cbn [conf set_conf].
      rewrite lookup_insert_eq. cbn [mbind option_bind].
      rewrite lookup_insert_eq. by rewrite Hlen. }
  split.
  - destruct (user_tmp_url_cases s Htyp Hutyp) as [[x Hx]|(t & u & Ht & Hu)].
    + exists x, s. unfold handle_outputs. rewrite reraise_id.
      unfold bind at 1. by rewrite Hx.
    + destruct (Hpresent t u Ht Hu) as [[s' Hs'] _]. eauto.
  - intros [v Hv] [w Hw].
    destruct (Htyp v Hv) as [t ->]. destruct (Hutyp w Hw) as [u ->].
    by apply (Hpresent t u).
Qed.

(** ** Concrete runs *)

(** Closed goals: split the conjunctions, evaluate each side. *)
Ltac evaluate :=
  repeat match goal with |- _ /\ _ => split end;
  vm_compute; try reflexivity.

(** *** Workspace lookup *)

(** A 503 answer from the workspace API: the pre hook returns, the
    defaults stay, workspace mode is off. *)
Lemma workspace_error_status_witness :
  use_workspace (Demo.handler "" "http://proxy:3128") = true /\
  workspace_url (Demo.handler "" "http://proxy:3128") = PStr "https://workspace.example" /\
  response_ok Demo.unavailable = false /\
  lookup_workspace (Demo.world (HttpResponse Demo.unavailable))
                   (Demo.handler "" "http://proxy:3128")
  = (Ret tt, set_use_workspace false (Demo.handler "" "http://proxy:3128")) /\
  use_workspace (snd (pre_execution_hook (Demo.world (HttpResponse Demo.unavailable))
                                         (Demo.handler "" "http://proxy:3128"))) = false /\
  forall k, k ∈ stageout_keys ->
    additional_parameter
      (snd (pre_execution_hook (Demo.world (HttpResponse Demo.unavailable))
                               (Demo.handler "" "http://proxy:3128"))) k
    = additional_parameter (Demo.handler "" "http://proxy:3128") k.
Proof.
  split; [vm_compute; reflexivity|]. split; [vm_compute; reflexivity|].
  split; [reflexivity|].
  destruct (workspace_error_status_keeps_defaults
              (Demo.world (HttpResponse Demo.unavailable))
              (Demo.handler "" "http://proxy:3128")
              "https://workspace.example" ∅) as [Herror _].
  - vm_compute; reflexivity.
  - vm_compute; reflexivity.
  - intros H; vm_compute in H; discriminate H.
  - apply (Herror Demo.unavailable); [intros; reflexivity|reflexivity].
Defined.

(** C1 as stated fails: when the workspace API cannot be reached, or
    answers 200 with a body that is not JSON, the exception leaves the pre
    hook and workspace mode stays enabled. *)
Lemma workspace_failure_raises_counterexample :
  use_workspace (Demo.handler "" "") = true /\
  fst (pre_execution_hook (Demo.world HttpFailure) (Demo.handler "" ""))
  = Raise RequestException /\
  use_workspace (snd (pre_execution_hook (Demo.world HttpFailure) (Demo.handler "" "")))
  = true /\
  fst (pre_execution_hook (Demo.world (HttpResponse Demo.garbled)) (Demo.handler "" ""))
  = Raise JSONDecodeError /\
  use_workspace (snd (pre_execution_hook (Demo.world (HttpResponse Demo.garbled))
                                         (Demo.handler "" "")))
  = true.
Proof. evaluate. Qed.

(** *** Service logs *)

(** C2 fails on the failure branch itself: from a configuration without
    [service_logs], saving the job log and then one tool log leaves two
    entries (the unsuffixed one and [_1]) while [length] reads "1". *)
Theorem failure_branch_length_mismatch :
  conf (Demo.handler "" "") !! "service_logs" = None /\
  fst (service_failure_branch (Demo.world HttpFailure) (Some Demo.failed_runner)
                              "Exception during execution"
                              (Demo.handler "" ""))
  = Ret SERVICE_FAILED /\
  Demo.salvaged_logs !! "title" = Some (PStr "Job pod log") /\
  Demo.salvaged_logs !! "title_1" = Some (PStr "Tool log step-1.log") /\
  has_entry Demo.salvaged_logs 0 = true /\
  has_entry Demo.salvaged_logs 1 = true /\
  Demo.salvaged_logs !! "length" = Some (PStr "1").
Proof. evaluate. Qed.

(** *** Proxy variable *)

Lemma http_proxy_env_scope_witness :
  handler_new (Demo.job_conf "") Demo.job_outputs (Demo.process_env "http://proxy:3128")
  = Ret (Demo.handler "" "http://proxy:3128") /\
  (http_proxy_env (Demo.handler "" "http://proxy:3128")
   = Demo.process_env "http://proxy:3128" !! "HTTP_PROXY" /\
   forall s output,
     http_proxy_env s = http_proxy_env (Demo.handler "" "http://proxy:3128") ->
     let after := match Demo.process_env "http://proxy:3128" !! "HTTP_PROXY" with
                  | Some v => if String.eqb v "" then None else Some v
                  | None => None
                  end in
     environ (snd (pre_execution_hook (Demo.world HttpFailure) s)) !! "HTTP_PROXY" = after /\
     environ (snd (post_execution_hook (Demo.world HttpFailure) output s)) !! "HTTP_PROXY"
     = after).
Proof.
  split; [vm_compute; reflexivity|].
  apply (http_proxy_env_scope (Demo.world HttpFailure) (Demo.job_conf "") Demo.job_outputs
           (Demo.process_env "http://proxy:3128") (Demo.handler "" "http://proxy:3128")).
  vm_compute; reflexivity.
Defined.

(** C3 as stated fails: HTTP_PROXY present with the empty value is absent
    after the hook. *)
Lemma http_proxy_empty_counterexample :
  handler_new (Demo.job_conf "") Demo.job_outputs (Demo.process_env "")
  = Ret (Demo.handler "" "") /\
  environ (Demo.handler "" "") !! "HTTP_PROXY" = Some "" /\
  environ (snd (pre_execution_hook (Demo.world (HttpResponse Demo.unavailable))
                                   (Demo.handler "" ""))) !! "HTTP_PROXY" = None /\
  fst (pre_execution_hook (Demo.world (HttpResponse Demo.unavailable)) (Demo.handler "" ""))
  = Ret tt.
Proof. evaluate. Qed.

(** *** Identity *)

Lemma identity_resolution_witness :
  username (Demo.handler "tok-alice" "") = PNone /\
  decode_token (Demo.world HttpFailure) (ades_rx_token (Demo.handler "tok-alice" ""))
  = Ret Demo.claims_alice /\
  username (snd (pre_execution_hook (Demo.world HttpFailure) (Demo.handler "tok-alice" "")))
  = PStr "alice".
Proof.
  split; [vm_compute; reflexivity|]. split; [vm_compute; reflexivity|].
  destruct (identity_resolution (Demo.world HttpFailure) (Demo.handler "tok-alice" "")
              Demo.claims_alice) as (_ & _ & H).
  - vm_compute; reflexivity.
  - intros _. vm_compute; reflexivity.
  - rewrite H. vm_compute; reflexivity.
Defined.

(** C6 as stated fails: the token's first recognised claim is [username],
    with the empty string as value, yet the resolved identity is the
    namespace. *)
Lemma identity_empty_claim_counterexample :
  decode_token (Demo.world HttpFailure) (ades_rx_token (Demo.handler "tok-empty" ""))
  = Ret Demo.claims_empty /\
  Demo.claims_empty !! "username" = Some (PStr "") /\
  get_user_name Demo.claims_empty = PStr "" /\
  username (snd (pre_execution_hook (Demo.world HttpFailure) (Demo.handler "tok-empty" "")))
  = PStr "ns" /\
  username (snd (pre_execution_hook (Demo.world HttpFailure) (Demo.handler "tok-empty" "")))
  <> get_user_name Demo.claims_empty.
Proof. evaluate. discriminate. Qed.

(** *** Output catalogue *)

Lemma setOutput_native_collection_id_witness :
  alist_lookup "stac" (outputs (Demo.after_pre_hook Demo.good_output))
  = Some {[ "mimeType" := PStr "application/json" ]} /\
  native_collection (Demo.world HttpFailure)
                    (PDict {[ "value" := PStr "bucket/catalog.json" ]}) Demo.native /\
  additional_parameter (Demo.after_pre_hook Demo.good_output) "collection_id"
  = Some (PStr "job-1") /\
  exists r s' collection_dict,
    setOutput (Demo.world HttpFailure) "stac" (Demo.after_pre_hook Demo.good_output)
    = (r, s') /\
    alist_lookup "stac" (outputs s')
    = Some (<["collection" := PDict collection_dict]>
              {[ "mimeType" := PStr "application/json" ]}) /\
    collection_dict = <["id" := PStr "job-1"]> (collection_to_dict Demo.native) /\
    collection_dict !! "id" = Some (PStr "job-1") /\
    (workspace_catalog_register (Demo.after_pre_hook Demo.good_output) = false ->
     r = Ret tt).
Proof.
  assert (Hnative : native_collection (Demo.world HttpFailure)
            (PDict {[ "value" := PStr "bucket/catalog.json" ]}) Demo.native).
  { exists (PStr "bucket/catalog.json"), Demo.catalog, IterEnd. evaluate. }
  split; [vm_compute; reflexivity|]. split; [exact Hnative|].
  split; [vm_compute; reflexivity|].
  apply (setOutput_native_collection_id (Demo.world HttpFailure) "stac"
           (Demo.after_pre_hook Demo.good_output)
           {[ "mimeType" := PStr "application/json" ]}
           (PDict {[ "value" := PStr "bucket/catalog.json" ]})
           [] (PDict {[ "value" := PStr "bucket/catalog.json" ]})
           Demo.native (PStr "job-1")).
  - vm_compute; reflexivity.
  - vm_compute; reflexivity.
  - reflexivity.
  - constructor.
  - exact Hnative.
  - vm_compute; reflexivity.
Defined.

Lemma setOutput_unloadable_sentinel_witness :
  unloadable (Demo.world HttpFailure)
             (PDict {[ "value" := PStr "s3://missing/catalog.json" ]}) /\
  exists s',
    setOutput (Demo.world HttpFailure) "stac" (Demo.after_pre_hook Demo.lost_output)
    = (Ret tt, s') /\
    alist_lookup "stac" (outputs s')
    = Some (<["collection" := json_dumps_empty]>
              {[ "mimeType" := PStr "application/json" ]}).
Proof.
  assert (Hlost : unloadable (Demo.world HttpFailure)
            (PDict {[ "value" := PStr "s3://missing/catalog.json" ]})).
  { exists (PStr "s3://missing/catalog.json"). evaluate. }
  split; [exact Hlost|].
  apply (setOutput_unloadable_sentinel (Demo.world HttpFailure) "stac"
           (Demo.after_pre_hook Demo.lost_output)
           {[ "mimeType" := PStr "application/json" ]}
           (PList [PDict {[ "value" := PStr "s3://missing/catalog.json" ]}])
           [] (PDict {[ "value" := PStr "s3://missing/catalog.json" ]}) []).
  - vm_compute; reflexivity.
  - vm_compute; reflexivity.
  - reflexivity.
  - constructor.
  - by left.
  - exact Hlost.
Defined.

Lemma post_execution_hook_raw_output_witness :
  alist_lookup "raw" (outputs Demo.plain_job) = Some {[ "title" := PStr "plain result" ]} /\
  credentials_publishable Demo.plain_job = true /\
  all_raw Demo.plain_output Demo.plain_job = true /\
  exists s',
    post_execution_hook (Demo.world HttpFailure) Demo.plain_output Demo.plain_job
    = (Ret tt, s') /\
    alist_lookup "raw" (outputs s')
    = Some (<["value" := PStr "42"]> {[ "title" := PStr "plain result" ]}).
Proof.
  assert (Hd : alist_lookup "raw" (outputs Demo.plain_job)
               = Some {[ "title" := PStr "plain result" ]}) by (vm_compute; reflexivity).
  assert (Hpub : credentials_publishable Demo.plain_job = true) by (vm_compute; reflexivity).
  assert (Hraw : all_raw Demo.plain_output Demo.plain_job = true) by (vm_compute; reflexivity).
  split; [exact Hd|]. split; [exact Hpub|]. split; [exact Hraw|].
  destruct (post_execution_hook_raw_output (Demo.world HttpFailure) Demo.plain_output
              Demo.plain_job "raw" {[ "title" := PStr "plain result" ]} Hd)
    as [(r & s' & d' & Hrun & Hd' & _ & _ & _ & Hall) _]; [vm_compute; reflexivity|].
  destruct (Hall Hpub Hraw) as (-> & v & Hv & ->).
  exists s'. split; [exact Hrun|]. rewrite Hd'.
  assert (v = PStr "42") as ->
    by (assert (Demo.plain_output !! "raw" = Some (PStr "42")) by (vm_compute; reflexivity);
        congruence).
  reflexivity.
Defined.

(** *** Secrets and service logs *)

Lemma local_get_file_absent_witness :
  open_read (Demo.world HttpFailure) "/assets/pod_imagePullSecrets.yaml"
  = Raise FileNotFoundError /\
  local_get_file (Demo.world HttpFailure) "/assets/pod_imagePullSecrets.yaml"
  = Ret (PDict ∅) /\
  ("/assets/pod_imagePullSecrets.yaml" = "/assets/pod_imagePullSecrets.yaml" ->
   get_secrets (Demo.world HttpFailure) = Ret (PDict ∅)).
Proof.
  split; [reflexivity|].
  apply (local_get_file_absent_or_malformed (Demo.world HttpFailure)
           "/assets/pod_imagePullSecrets.yaml").
  left. reflexivity.
Defined.

Lemma handle_outputs_without_service_logs_witness :
  conf (Demo.handler "" "") !! "service_logs" = None /\
  (exists k s', handle_outputs (Demo.world HttpFailure) [] (Demo.handler "" "")
                = (Raise (KeyError k), s')) /\
  exists s',
    handle_outputs (Demo.world HttpFailure) ["/tmp/a.log"; "/tmp/b.log"] (Demo.handler "" "")
    = (Ret tt, s') /\
    conf s' !! "service_logs" ≫= (.!! "length") = Some (PStr "2").
Proof.
  split; [vm_compute; reflexivity|].
  destruct (handle_outputs_without_service_logs (Demo.world HttpFailure) (Demo.handler "" ""))
    as [Hempty Hrest].
  - vm_compute; reflexivity.
  - intros v Hv. vm_compute in Hv. injection Hv as <-. eauto.
  - intros v Hv. vm_compute in Hv. injection Hv as <-. eauto.
  - split; [exact Hempty|].
    destruct Hrest as [_ Hlogs].
    + vm_compute. eauto.
    + vm_compute. eauto.
    + apply (Hlogs ["/tmp/a.log"; "/tmp/b.log"]).
      * discriminate.
      * vm_compute. eauto.
      * vm_compute. eauto.
Defined.

(** * Further properties of the handler *)

(** ** Construction *)

Lemma handler_new_state c o env s :
  handler_new c o env = Ret s ->
  exists reg,
    s = set_conf (insert "additional_parameters"
                    (with_defaults env (default ∅ (c !! "additional_parameters"))))
          (State c o env ∅ (env !! "HTTP_PROXY")
             (default (PStr "") (default ∅ (c !! "eoepca") !! "domain"))
             (default (PStr "") (default ∅ (c !! "eoepca") !! "workspace_url"))
             (default (PStr "") (default ∅ (c !! "eoepca") !! "workspace_prefix"))
             (truthy (default (PStr "") (default ∅ (c !! "eoepca") !! "workspace_url")) &&
              truthy (default (PStr "") (default ∅ (c !! "eoepca") !! "workspace_prefix")))
             reg PNone
             (default (PStr "") (default ∅ (c !! "auth_env") !! "jwt"))) /\
    (reg = true ->
     exists flag,
       default (PStr "false") (default ∅ (c !! "eoepca") !! "workspace_catalog_register")
       = PStr flag /\ str_lower flag = "true").
Proof.
  unfold handler_new.
  set (wurl := default (PStr "") (default ∅ (c !! "eoepca") !! "workspace_url")).
  set (wprefix := default (PStr "") (default ∅ (c !! "eoepca") !! "workspace_prefix")).
  set (flag := default (PStr "false")
                 (default ∅ (c !! "eoepca") !! "workspace_catalog_register")).
  destruct (truthy wurl && truthy wprefix) eqn:Hws.
  - destruct flag as [| | |f| |] eqn:Hflag; cbn [lower_val]; try discriminate.
    rewrite init_config_defaults_run. intros [= <-].
    eexists. split; [reflexivity|]. intros Hreg. exists f. split; [done|].
    by apply String.eqb_eq.
  - rewrite init_config_defaults_run. intros [= <-].
    eexists. split; [reflexivity|]. discriminate.
Qed.

(** X1 — a handler that has been constructed keeps the caller's [outputs]
    and environment, has no user name yet, holds all nine staging keys in
    [get_additional_parameters], has workspace mode on exactly when both the
    workspace URL and prefix are truthy, and registers to the catalogue only
    with workspace mode on and a flag that reads "true" in any letter
    case. *)
Theorem handler_new_invariants c o env s :
  handler_new c o env = Ret s ->
  outputs s = o /\ environ s = env /\ username s = PNone /\
  (forall k, k ∈ staging_keys -> is_Some (get_additional_parameters s !! k)) /\
  (forall sec, sec <> "additional_parameters" -> conf s !! sec = c !! sec) /\
  use_workspace s = (truthy (workspace_url s) && truthy (workspace_prefix s)) /\
  (workspace_catalog_register s = true ->
   use_workspace s = true /\
   exists flag,
     default ∅ (c !! "eoepca") !! "workspace_catalog_register" = Some (PStr flag) /\
     str_lower flag = "true").
Proof.
  intros Hnew. destruct (handler_new_state c o env s Hnew) as (reg & -> & Hreg).
  cbn [outputs environ username use_workspace workspace_url workspace_prefix
       workspace_catalog_register conf set_conf].
  split; [done|]. split; [done|]. split; [done|]. split; [|split; [|split; [done|]]].
  - intros k Hk. unfold get_additional_parameters. cbn [conf set_conf].
    rewrite lookup_insert_eq. cbn [from_option id]. by apply with_defaults_lookup.
  - intros sec Hsec. by rewrite lookup_insert_ne.
  - intros ->. destruct (Hreg eq_refl) as (flag & Hflag & Hlow).
    assert (Huw : truthy (default (PStr "") (default ∅ (c !! "eoepca") !! "workspace_url")) &&
                  truthy (default (PStr "") (default ∅ (c !! "eoepca") !! "workspace_prefix"))
                  = true).
    { unfold handler_new in Hnew.
      destruct (truthy _ && truthy _); [done|].
      rewrite init_config_defaults_run in Hnew. by injection Hnew as [=]. }
    split; [done|]. exists flag. split; [|done].
    destruct (default ∅ (c !! "eoepca") !! "workspace_catalog_register") as [v|] eqn:Hv.
    + cbn [from_option id] in Hflag. by subst.
    + cbn [from_option id] in Hflag. injection Hflag as <-. discriminate Hlow.
Qed.

(** X2 — construction fails in one case only: workspace mode is on and the
    catalogue-registration flag is not a string, and then with
    [AttributeError]. *)
Theorem handler_new_failure c o env :
  let eoepca := default ∅ (c !! "eoepca") in
  let workspace_on :=
    truthy (default (PStr "") (eoepca !! "workspace_url")) &&
    truthy (default (PStr "") (eoepca !! "workspace_prefix")) in
  (forall e, handler_new c o env = Raise e ->
     e = AttributeError /\ workspace_on = true /\
     exists v, eoepca !! "workspace_catalog_register" = Some v /\
               forall flag, v <> PStr flag) /\
  (workspace_on = false \/ (forall v, eoepca !! "workspace_catalog_register" = Some v ->
                                      exists flag, v = PStr flag) ->
   exists s, handler_new c o env = Ret s).
Proof.
  intros eoepca workspace_on. unfold handler_new. fold eoepca. fold workspace_on.
  split.
  - intros e. destruct workspace_on.
    + destruct (eoepca !! "workspace_catalog_register") as [v|] eqn:Hv; cbn [from_option id].
      * destruct v; cbn [lower_val]; rewrite ?init_config_defaults_run;
          intros [= <-]; (split; [done|]); (split; [done|]); eexists; (split; [done|]);
          intros flag; discriminate.
      * cbn [lower_val]. rewrite init_config_defaults_run. discriminate.
    + rewrite init_config_defaults_run. discriminate.
  - intros [->|Hstr].
    + rewrite init_config_defaults_run. eauto.
    + destruct workspace_on; [|rewrite init_config_defaults_run; eauto].
      destruct (eoepca !! "workspace_catalog_register") as [v|] eqn:Hv; cbn [from_option id].
      * destruct (Hstr v eq_refl) as [flag ->]. cbn [lower_val].
        rewrite init_config_defaults_run. eauto.
      * cbn [lower_val]. rewrite init_config_defaults_run. eauto.
Qed.

Ltac split_conj := repeat match goal with |- _ /\ _ => split end.

(** ** The pre hook *)

Lemma set_from_credentials_run s creds k field m :
  conf s !! "additional_parameters" = Some m ->
  set_from_credentials (PDict creds) k field s =
    (Ret tt, set_conf (insert "additional_parameters"
                         (<[k := default PNone (creds !! field)]> m)) s).
Proof.
  intros Hm. unfold set_from_credentials, bind, lift, get_val.
  by rewrite (conf_setitem_run _ _ _ _ _ Hm).
Qed.

Lemma set_from_credentials_after s creds k field m :
  set_from_credentials (PDict creds) k field
    (set_conf (insert "additional_parameters" m) s) =
    (Ret tt, set_conf (insert "additional_parameters"
                         (<[k := default PNone (creds !! field)]> m)) s).
Proof.
  erewrite set_from_credentials_run by (cbn [conf set_conf]; apply lookup_insert_eq).
  by rewrite set_conf_insert_twice.
Qed.

Lemma lookup_workspace_credentials E s base r body storage creds m :
  use_workspace s = true ->
  workspace_url s = PStr base ->
  workspace_request E s base = HttpResponse r ->
  response_ok r = true ->
  json r = Ret body ->
  subscript_val body "storage" = Ret storage ->
  subscript_val storage "credentials" = Ret (PDict creds) ->
  conf s !! "additional_parameters" = Some m ->
  lookup_workspace E s =
    (Ret tt, set_conf (insert "additional_parameters" (with_credentials creds m)) s).
Proof.
  intros Huw Hurl Hreq Hok Hjson Hst Hcr Hm.
  unfold lookup_workspace. unfold bind at 1, gets at 1. rewrite Huw. unfold when.
  unfold bind at 1, gets at 1. unfold bind at 1, gets at 1.
  unfold bind at 1, gets at 1. unfold bind at 1, lift at 1. rewrite Hurl. cbn [as_str].
  unfold bind at 1, gets at 1. unfold workspace_request in Hreq. rewrite Hreq, Hok.
  unfold bind at 1, lift at 1. rewrite Hjson.
  unfold bind at 1, lift at 1. rewrite Hst.
  unfold bind at 1, lift at 1. rewrite Hcr.
  unfold bind at 1. rewrite (set_from_credentials_run _ _ _ _ _ Hm).
  do 3 (unfold bind at 1; rewrite set_from_credentials_after).
  by rewrite set_from_credentials_after.
Qed.

(** X3 — with workspace integration enabled and a workspace-details
    response that is ok and carries [storage.credentials] as a mapping, the
    pre hook overwrites the five STAGEOUT_* entries with the credentials'
    [endpoint], [access], [secret], [region] and [bucketname] ([None] for a
    field the mapping lacks) and leaves workspace mode enabled. *)
Theorem pre_execution_hook_workspace_credentials E s base r body storage creds claims :
  use_workspace s = true ->
  workspace_url s = PStr base ->
  (truthy (ades_rx_token s) = true -> decode_token E (ades_rx_token s) = Ret claims) ->
  (forall url headers, requests_get E url headers = HttpResponse r) ->
  response_ok r = true ->
  json r = Ret body ->
  subscript_val body "storage" = Ret storage ->
  subscript_val storage "credentials" = Ret (PDict creds) ->
  is_Some (conf s !! "additional_parameters") ->
  let s' := snd (pre_execution_hook E s) in
  use_workspace s' = true /\
  additional_parameter s' "STAGEOUT_AWS_SERVICEURL" = Some (default PNone (creds !! "endpoint")) /\
  additional_parameter s' "STAGEOUT_AWS_ACCESS_KEY_ID" = Some (default PNone (creds !! "access")) /\
  additional_parameter s' "STAGEOUT_AWS_SECRET_ACCESS_KEY" = Some (default PNone (creds !! "secret")) /\
  additional_parameter s' "STAGEOUT_AWS_REGION" = Some (default PNone (creds !! "region")) /\
  additional_parameter s' "STAGEOUT_OUTPUT" = Some (default PNone (creds !! "bucketname")).
Proof.
  intros Huw Hurl Hdec Hreq Hok Hjson Hst Hcr [m Hm] s'. subst s'.
  set (s0 := set_environ (delete "HTTP_PROXY") s).
  destruct (resolve_username_returns E s0 claims Hdec) as [u Hres].
  set (s1 := set_username u s0).
  set (s2 := set_conf (insert "additional_parameters" (with_credentials creds m)) s1).
  assert (Hhook : forall T (f : state -> T),
            (forall g s, f (set_environ g s) = f s) ->
            preserves f derive_collection_id ->
            f (snd (pre_execution_hook E s)) = f s2).
  { intros T f Henv Hder. unfold pre_execution_hook.
    rewrite (try_finally_frame f) by (by apply restore_http_proxy_env_frame).
    rewrite reraise_id.
    unfold bind at 1, unset_http_proxy_env, modify. fold s0.
    unfold bind at 1. rewrite Hres. unfold bind at 1.
    erewrite lookup_workspace_credentials;
      [apply Hder|done|done|apply Hreq|done|done|exact Hst|done|done]. }
  assert (Hkey : forall k, k ∈ stageout_keys ->
            additional_parameter (snd (pre_execution_hook E s)) k
            = with_credentials creds m !! k).
  { intros k Hk. rewrite (Hhook _ (fun s => additional_parameter s k));
      [|done|by apply derive_collection_id_stageout].
    unfold additional_parameter, s2. cbn [conf set_conf]. by rewrite lookup_insert_eq. }
  split.
  { rewrite Hhook; [done|done|]. unfold derive_collection_id. frame. }
  unfold stageout_keys in Hkey.
  split_conj; (rewrite Hkey by (rewrite !elem_of_cons; tauto));
    unfold with_credentials; lookup_ins; reflexivity.
Qed.

Lemma derive_collection_id_returns s s' :
  derive_collection_id s = (Ret tt, s') ->
  exists usid,
    default (PStr "") (default ∅ (conf s !! "lenv") !! "usid") = PStr usid /\
    additional_parameter s' "collection_id" = Some (PStr usid) /\
    additional_parameter s' "process"
    = Some (PStr (os_path_join "processing-results" usid)).
Proof.
  unfold derive_collection_id, conf_get_section.
  unfold bind at 1. unfold bind at 1, gets at 1. unfold ret at 1.
  set (v := default (PStr "") (default ∅ (conf s !! "lenv") !! "usid")).
  unfold bind at 1.
  destruct (conf s !! "additional_parameters") as [m|] eqn:Hm.
  - rewrite (conf_setitem_run _ _ _ _ _ Hm).
    unfold bind at 1.
    erewrite conf_item_run.
    2:{ cbn [conf set_conf]. rewrite lookup_insert_eq. cbn [mbind option_bind].
        apply lookup_insert_eq. }
    unfold bind at 1, lift at 1.
    destruct v as [| | |usid| |] eqn:Hv; cbn [as_str]; try discriminate.
    erewrite conf_setitem_run by (cbn [conf set_conf]; apply lookup_insert_eq).
    intros [= <-]. exists usid. split; [done|].
    unfold additional_parameter. cbn [conf set_conf].
    rewrite !lookup_insert_eq. cbn [mbind option_bind].
    split; lookup_ins; reflexivity.
  - unfold conf_setitem, bind, gets, lift, subscript. rewrite Hm. discriminate.
Qed.

Lemma try_finally_returns {A} (m : M A) (fin : M unit) s a s' :
  try_finally m fin s = (Ret a, s') ->
  exists s1, m s = (Ret a, s1) /\ fin s1 = (Ret tt, s').
Proof.
  unfold try_finally. destruct (m s) as [r s1].
  destruct (fin s1) as [[[]|e] s2] eqn:Hf; intros H; simplify_eq; eauto.
Qed.

Lemma bind_returns {A B} (m : M A) (k : A -> M B) s b s' :
  bind m k s = (Ret b, s') ->
  exists a s1, m s = (Ret a, s1) /\ k a s1 = (Ret b, s').
Proof.
  unfold bind. destruct (m s) as [[a|e] s1]; [eauto|discriminate].
Qed.

(** X4 — when the pre hook returns, the job's short identifier
    [lenv.usid] (the empty string when absent) is a string, it is stored as
    [additional_parameters.collection_id], and
    [additional_parameters.process] is its path under
    [processing-results]. *)
Theorem pre_execution_hook_collection_id E s s' :
  pre_execution_hook E s = (Ret tt, s') ->
  exists usid,
    default (PStr "") (default ∅ (conf s !! "lenv") !! "usid") = PStr usid /\
    additional_parameter s' "collection_id" = Some (PStr usid) /\
    additional_parameter s' "process"
    = Some (PStr (os_path_join "processing-results" usid)).
Proof.
  unfold pre_execution_hook. intros Hrun.
  apply try_finally_returns in Hrun as (s4 & Hbody & Hfin).
  rewrite reraise_id in Hbody.
  apply bind_returns in Hbody as ([] & s1 & H1 & Hbody).
  apply bind_returns in Hbody as ([] & s2 & H2 & Hbody).
  apply bind_returns in Hbody as ([] & s3 & H3 & Hbody).
  assert (Hlenv : conf s3 !! "lenv" = conf s !! "lenv").
  { assert (P1 : preserves (fun s => conf s !! "lenv") unset_http_proxy_env)
      by (unfold unset_http_proxy_env; frame).
    assert (P2 : preserves (fun s => conf s !! "lenv") (resolve_username E))
      by (unfold resolve_username; frame).
    assert (P3 : preserves (fun s => conf s !! "lenv") (lookup_workspace E))
      by (unfold lookup_workspace; frame).
    specialize (P1 s). specialize (P2 s1). specialize (P3 s2).
    rewrite H1 in P1. rewrite H2 in P2. rewrite H3 in P3.
    cbn [snd] in P1, P2, P3. congruence. }
  destruct (derive_collection_id_returns s3 s4 Hbody) as (usid & Hu & Hc & Hp).
  rewrite Hlenv in Hu.
  assert (Hconf : conf s' = conf s4).
  { assert (P : preserves conf restore_http_proxy_env)
      by (by apply restore_http_proxy_env_frame).
    specialize (P s4). by rewrite Hfin in P. }
  exists usid. unfold additional_parameter in *. rewrite Hconf. done.
Qed.

(** X5 — with workspace mode off the pre hook makes no use of the workspace
    API: its outcome and final state are the same in any two worlds that
    decode tokens alike.  Workspace mode stays off and every stage-out
    entry keeps its value. *)
Theorem pre_execution_hook_without_workspace E E' s :
  use_workspace s = false ->
  (forall token, jwt_decode E token = jwt_decode E' token) ->
  pre_execution_hook E s = pre_execution_hook E' s /\
  use_workspace (snd (pre_execution_hook E s)) = false /\
  forall k, k ∈ stageout_keys ->
    additional_parameter (snd (pre_execution_hook E s)) k = additional_parameter s k.
Proof.
  intros Huw Hjwt.
  assert (Hres : forall s, resolve_username E s = resolve_username E' s).
  { intros s1. unfold resolve_username, bind, gets, when, lift.
    destruct (truthy (ades_rx_token s1)); [|done].
    assert (Hd : decode_token E (ades_rx_token s1) = decode_token E' (ades_rx_token s1))
      by (unfold decode_token; destruct (ades_rx_token s1); auto).
    by rewrite Hd. }
  assert (Hoff : forall W s1, use_workspace s1 = false ->
            lookup_workspace W s1 = (Ret tt, s1)).
  { intros W s1 H1. unfold lookup_workspace, bind, gets, when. by rewrite H1. }
  set (s0 := set_environ (delete "HTTP_PROXY") s).
  assert (Hbody : forall W,
            (unset_http_proxy_env ;;; resolve_username W ;;; lookup_workspace W ;;;
             derive_collection_id) s
            = (resolve_username W ;;; derive_collection_id) s0).
  { intros W. unfold bind at 1, unset_http_proxy_env, modify. fold s0.
    unfold bind at 1 3.
    assert (P : preserves use_workspace (resolve_username W))
      by (unfold resolve_username; frame).
    specialize (P s0).
    destruct (resolve_username W s0) as [[[]|e] s1]; [|done].
    unfold bind at 1. rewrite Hoff; [done|]. cbn [snd] in P. by rewrite P. }
  assert (Hsame : pre_execution_hook E s = pre_execution_hook E' s).
  { unfold pre_execution_hook, try_finally. rewrite !reraise_id, !Hbody.
    unfold bind. by rewrite Hres. }
  split; [done|].
  assert (Hf : forall T (f : state -> T),
            (forall g s, f (set_environ g s) = f s) ->
            (forall u s, f (set_username u s) = f s) ->
            preserves f derive_collection_id ->
            f (snd (pre_execution_hook E s)) = f s).
  { intros T f Henv Huser Hder. unfold pre_execution_hook.
    rewrite (try_finally_frame f) by (by apply restore_http_proxy_env_frame).
    rewrite reraise_id, Hbody.
    assert (P : preserves f (resolve_username E ;;; derive_collection_id)).
    { apply preserves_bind; [|done]. unfold resolve_username. frame. }
    rewrite P. apply Henv. }
  split.
  - rewrite Hf; [done|done|done|]. unfold derive_collection_id. frame.
  - intros k Hk. rewrite (Hf _ (fun s => additional_parameter s k)); [done|done|done|].
    by apply derive_collection_id_stageout.
Qed.

(** X6 — round trip of the proxy variable: when the handler's saved value
    is what HTTP_PROXY currently holds, and is not the empty string, the
    pre hook leaves the whole process environment as it found it, whether
    it returns or raises. *)
Theorem pre_execution_hook_environ_round_trip E s :
  environ s !! "HTTP_PROXY" = http_proxy_env s ->
  http_proxy_env s <> Some "" ->
  environ (snd (pre_execution_hook E s)) = environ s.
Proof.
  intros Hsaved Hne. unfold pre_execution_hook, try_finally. rewrite reraise_id.
  unfold bind at 1, unset_http_proxy_env, modify.
  set (s0 := set_environ (delete "HTTP_PROXY") s).
  pose proof (pre_execution_hook_body_frame environ E
                (fun _ _ => eq_refl) (fun _ _ => eq_refl) (fun _ _ => eq_refl) s0) as Henv.
  pose proof (pre_execution_hook_body_frame http_proxy_env E
                (fun _ _ => eq_refl) (fun _ _ => eq_refl) (fun _ _ => eq_refl) s0) as Hpx.
  destruct ((resolve_username E ;;; lookup_workspace E ;;; derive_collection_id) s0)
    as [r s1]. cbn [snd] in Henv, Hpx.
  assert (Hgoal : environ (snd (restore_http_proxy_env s1)) = environ s).
  { unfold restore_http_proxy_env, bind, gets, when. rewrite Hpx.
    cbn [http_proxy_env s0 set_environ].
    destruct (http_proxy_env s) as [v|] eqn:Hv.
    - destruct (String.eqb v "") eqn:Hempty.
      + apply String.eqb_eq in Hempty as ->. done.
      + cbn [negb modify snd environ set_environ]. rewrite Henv.
        cbn [environ s0 set_environ]. rewrite insert_delete_eq. by apply insert_id.
    - cbn [ret snd]. rewrite Henv. cbn [environ s0 set_environ]. by apply delete_id. }
  by destruct (restore_http_proxy_env s1) as [[[]|e] s2].
Qed.

(** ** The post hook *)

Lemma publish_credential_cases var k s :
  (exists a, additional_parameter s k = Some (PStr a) /\ has_nul a = false /\
             publish_credential var k s = (Ret tt, set_environ (insert var a) s)) \/
  (publishable (additional_parameter s k) = false /\
   exists e, publish_credential var k s = (Raise e, s) /\
             credential_error (additional_parameter s k) e).
Proof.
  destruct (additional_parameter s k) as [v|] eqn:Hv.
  - assert (Hrun : publish_credential var k s =
              match v with
              | PStr a => if has_nul a then (Raise ValueError, s)
                          else (Ret tt, set_environ (insert var a) s)
              | _ => (Raise TypeError, s)
              end).
    { unfold publish_credential, bind. unfold additional_parameter in Hv.
      rewrite (conf_item_run _ _ _ _ Hv).
      unfold environ_setitem, bind, lift. destruct v; try done.
      cbn [as_str]. by destruct (has_nul _). }
    rewrite Hrun.
    destruct v as [| | |a| |];
      try (right; split; [done|]; exists TypeError; split; done).
    destruct (has_nul a) eqn:Hnul.
    + right. cbn [publishable]. rewrite Hnul. split; [done|].
      exists ValueError. split; [done|]. cbn [credential_error]. by rewrite Hnul.
    + left. eauto.
  - right. split; [done|]. unfold additional_parameter in Hv.
    destruct (conf_item_raises _ _ _ Hv) as [x Hx]. exists (KeyError x).
    unfold publish_credential, bind. rewrite Hx. split; [done|].
    cbn [credential_error]. eauto.
Qed.

Lemma map_outputs_names E names :
  preserves (fun s => fst <$> outputs s) (map_outputs E names).
Proof.
  assert (Hkeys : forall (h : gmap string pyval -> gmap string pyval) name
                         (l : list (string * gmap string pyval)),
             fst <$> alist_alter h name l = fst <$> l).
  { intros h name l. induction l as [|[k v] l IH]; [done|].
    cbn [alist_alter]. destruct (String.eqb name k); cbn [fmap list_fmap fst]; [done|].
    f_equal. exact IH. }
  apply map_outputs_frame; intros; cbn [outputs set_outputs set_engine_output]; auto.
Qed.

Lemma publish_and_map_cases E s :
  (exists a b c d,
     additional_parameter s "STAGEOUT_AWS_SERVICEURL" = Some (PStr a) /\
     additional_parameter s "STAGEOUT_AWS_ACCESS_KEY_ID" = Some (PStr b) /\
     additional_parameter s "STAGEOUT_AWS_SECRET_ACCESS_KEY" = Some (PStr c) /\
     additional_parameter s "STAGEOUT_AWS_REGION" = Some (PStr d) /\
     publish_and_map E s =
       map_outputs E (fst <$> outputs s)
         (set_environ (insert "AWS_REGION" d)
           (set_environ (insert "AWS_SECRET_ACCESS_KEY" c)
             (set_environ (insert "AWS_ACCESS_KEY_ID" b)
               (set_environ (insert "AWS_S3_ENDPOINT" a) s)))) /\
     credentials_publishable s = true) \/
  (exists var k e s',
     (var, k) ∈ published_credentials /\
     first_bad_credential s = Some k /\
     credential_error (additional_parameter s k) e /\
     publish_and_map E s = (Raise e, s') /\
     outputs s' = outputs s /\ conf s' = conf s).
Proof.
  assert (Hgood : forall k a, additional_parameter s k = Some (PStr a) ->
                              has_nul a = false ->
                              negb (publishable (additional_parameter s k)) = false).
  { intros k a -> Hn. cbn [publishable]. by rewrite Hn. }
  assert (Hbad : forall k, publishable (additional_parameter s k) = false ->
                           negb (publishable (additional_parameter s k)) = true).
  { by intros k ->. }
  unfold publish_and_map, published_credentials.
  destruct (publish_credential_cases "AWS_S3_ENDPOINT" "STAGEOUT_AWS_SERVICEURL" s)
    as [(a & Ha & Na & Hra)|(Hna & e & Hre & He)].
  2:{ right. exists "AWS_S3_ENDPOINT", "STAGEOUT_AWS_SERVICEURL", e, s.
      split; [rewrite !elem_of_cons; tauto|]. unfold bind at 1. rewrite Hre.
      split; [|done]. unfold first_bad_credential, credential_keys. cbn [find].
      by rewrite (Hbad _ Hna). }
  set (s1 := set_environ (insert "AWS_S3_ENDPOINT" a) s) in *.
  destruct (publish_credential_cases "AWS_ACCESS_KEY_ID" "STAGEOUT_AWS_ACCESS_KEY_ID" s1)
    as [(b & Hb & Nb & Hrb)|(Hnb & e & Hre & He)].
  2:{ right. exists "AWS_ACCESS_KEY_ID", "STAGEOUT_AWS_ACCESS_KEY_ID", e, s1.
      split; [rewrite !elem_of_cons; tauto|]. unfold bind at 1. rewrite Hra.
      unfold bind at 1. rewrite Hre.
      split; [|done]. unfold first_bad_credential, credential_keys. cbn [find].
      by rewrite (Hgood _ _ Ha Na), (Hbad _ Hnb). }
  set (s2 := set_environ (insert "AWS_ACCESS_KEY_ID" b) s1) in *.
  destruct (publish_credential_cases "AWS_SECRET_ACCESS_KEY"
              "STAGEOUT_AWS_SECRET_ACCESS_KEY" s2)
    as [(c & Hc & Nc & Hrc)|(Hnc & e & Hre & He)].
  2:{ right. exists "AWS_SECRET_ACCESS_KEY", "STAGEOUT_AWS_SECRET_ACCESS_KEY", e, s2.
      split; [rewrite !elem_of_cons; tauto|]. unfold bind at 1. rewrite Hra.
      unfold bind at 1. rewrite Hrb. unfold bind at 1. rewrite Hre.
      split; [|done]. unfold first_bad_credential, credential_keys. cbn [find].
      by rewrite (Hgood _ _ Ha Na), (Hgood _ _ Hb Nb), (Hbad _ Hnc). }
  set (s3 := set_environ (insert "AWS_SECRET_ACCESS_KEY" c) s2) in *.
  destruct (publish_credential_cases "AWS_REGION" "STAGEOUT_AWS_REGION" s3)
    as [(d & Hd & Nd & Hrd)|(Hnd & e & Hre & He)].
  2:{ right. exists "AWS_REGION", "STAGEOUT_AWS_REGION", e, s3.
      split; [rewrite !elem_of_cons; tauto|]. unfold bind at 1. rewrite Hra.
      unfold bind at 1. rewrite Hrb. unfold bind at 1. rewrite Hrc.
      unfold bind at 1. rewrite Hre.
      split; [|done]. unfold first_bad_credential, credential_keys. cbn [find].
      by rewrite (Hgood _ _ Ha Na), (Hgood _ _ Hb Nb), (Hgood _ _ Hc Nc), (Hbad _ Hnd). }
  left. exists a, b, c, d. split; [done|]. split; [done|]. split; [done|]. split; [done|].
  split.
  - unfold bind at 1. rewrite Hra. unfold bind at 1. rewrite Hrb.
    unfold bind at 1. rewrite Hrc. unfold bind at 1. rewrite Hrd.
    reflexivity.
  - unfold credentials_publishable, credential_keys. cbn [forallb].
    rewrite (Ha : additional_parameter s _ = _), (Hb : additional_parameter s _ = _),
      (Hc : additional_parameter s _ = _), (Hd : additional_parameter s _ = _).
    cbn [publishable]. by rewrite Na, Nb, Nc, Nd.
Qed.

(** X7 — when the post hook returns, the four stage-out credentials of
    [additional_parameters] were strings and the process environment holds
    them as AWS_S3_ENDPOINT, AWS_ACCESS_KEY_ID, AWS_SECRET_ACCESS_KEY and
    AWS_REGION. *)
Theorem post_execution_hook_publishes_credentials E output s s' :
  post_execution_hook E output s = (Ret tt, s') ->
  exists a b c d,
    additional_parameter s "STAGEOUT_AWS_SERVICEURL" = Some (PStr a) /\
    additional_parameter s "STAGEOUT_AWS_ACCESS_KEY_ID" = Some (PStr b) /\
    additional_parameter s "STAGEOUT_AWS_SECRET_ACCESS_KEY" = Some (PStr c) /\
    additional_parameter s "STAGEOUT_AWS_REGION" = Some (PStr d) /\
    environ s' !! "AWS_S3_ENDPOINT" = Some a /\
    environ s' !! "AWS_ACCESS_KEY_ID" = Some b /\
    environ s' !! "AWS_SECRET_ACCESS_KEY" = Some c /\
    environ s' !! "AWS_REGION" = Some d.
Proof.
  rewrite post_execution_hook_unfold. intros Hrun.
  apply try_finally_returns in Hrun as (s2 & Hbody & Hfin).
  set (s0 := set_environ (delete "HTTP_PROXY") (set_engine_output (fun _ => output) s)) in *.
  destruct (publish_and_map_cases E s0)
    as [(a & b & c & d & Ha & Hb & Hc & Hd & Hmap & _)|(var & k & e & s1 & _ & _ & _ & Hr & _)].
  2:{ rewrite Hr in Hbody. discriminate. }
  exists a, b, c, d. split; [done|]. split; [done|]. split; [done|]. split; [done|].
  rewrite Hmap in Hbody.
  assert (Henv : forall var, var <> "HTTP_PROXY" ->
            environ s' !! var
            = (<["AWS_REGION" := d]> (<["AWS_SECRET_ACCESS_KEY" := c]>
                 (<["AWS_ACCESS_KEY_ID" := b]> (<["AWS_S3_ENDPOINT" := a]> (environ s0)))))
              !! var).
  { intros var Hvar.
    assert (P : preserves (fun s => environ s !! var) restore_http_proxy_env).
    { unfold restore_http_proxy_env. apply preserves_bind; [apply preserves_gets|intros saved].
      destruct saved; [|apply preserves_ret]. apply preserves_when.
      apply preserves_modify. intros ?. cbn [environ set_environ].
      by apply lookup_insert_ne. }
    specialize (P s2). rewrite Hfin in P. cbn [snd] in P. rewrite P.
    pose proof (map_outputs_frame (fun s => environ s) E (fst <$> outputs s0)
                  (fun _ _ _ => eq_refl) (fun _ _ _ => eq_refl)) as Q.
    match type of Hbody with map_outputs _ _ ?st = _ => specialize (Q st) end.
    rewrite Hbody in Q. cbn [snd] in Q. by rewrite Q. }
  split_conj; (rewrite Henv by discriminate); lookup_ins; reflexivity.
Qed.

(** X8 — when one of the four stage-out credentials cannot be published
    (it is missing, is not a string, as after a workspace answer that lacks
    the field, or holds a NUL), the post hook raises before it maps any
    output: the output descriptors and the configuration are as before.
    The exception is the one of the first such credential: [KeyError] for a
    missing one, [TypeError] for one that is not a string, [ValueError] for
    a string with a NUL. *)
Theorem post_execution_hook_bad_credential E output s k :
  first_bad_credential s = Some k ->
  exists e s',
    post_execution_hook E output s = (Raise e, s') /\
    credential_error (additional_parameter s k) e /\
    (e = TypeError \/ e = ValueError \/ exists x, e = KeyError x) /\
    outputs s' = outputs s /\ conf s' = conf s.
Proof.
  intros Hk. rewrite post_execution_hook_unfold.
  set (s0 := set_environ (delete "HTTP_PROXY") (set_engine_output (fun _ => output) s)).
  destruct (publish_and_map_cases E s0)
    as [(a & b & c & d & _ & _ & _ & _ & _ & Hpub)
       |(var & k' & e & s1 & _ & Hfirst & He & Hr & Ho & Hc)].
  { exfalso. change (credentials_publishable s = true) in Hpub.
    unfold credentials_publishable in Hpub. rewrite forallb_forall in Hpub.
    apply find_some in Hk as [Hin Hbad]. rewrite (Hpub k Hin) in Hbad. discriminate. }
  change (first_bad_credential s = Some k') in Hfirst.
  assert (k' = k) as -> by congruence.
  change (credential_error (additional_parameter s k) e) in He.
  unfold try_finally. fold s0. rewrite Hr.
  destruct (restore_http_proxy_env_total s1) as [s2 Hfin].
  assert (P1 : preserves outputs restore_http_proxy_env)
    by (by apply restore_http_proxy_env_frame).
  assert (P2 : preserves conf restore_http_proxy_env)
    by (by apply restore_http_proxy_env_frame).
  specialize (P1 s1). specialize (P2 s1). rewrite Hfin in P1, P2 |- *. cbn [snd] in P1, P2.
  exists e, s2. split; [done|]. split; [done|].
  split.
  { destruct (additional_parameter s k) as [v|]; [destruct v|];
      cbn [credential_error] in He; try (by left).
    - right. left. by destruct He.
    - right. by right. }
  split; [rewrite P1, Ho|rewrite P2, Hc]; reflexivity.
Qed.

(** X9 — the post hook never writes to the configuration, the handler's
    user name or its workspace flags, keeps the set and order of the
    declared outputs, and changes no environment variable other than the
    four AWS_* ones and HTTP_PROXY, whether it returns or raises. *)
Theorem post_execution_hook_frame E output s :
  let s' := snd (post_execution_hook E output s) in
  conf s' = conf s /\ username s' = username s /\
  use_workspace s' = use_workspace s /\
  workspace_catalog_register s' = workspace_catalog_register s /\
  fst <$> outputs s' = fst <$> outputs s /\
  forall var,
    var ∉ ["HTTP_PROXY"; "AWS_S3_ENDPOINT"; "AWS_ACCESS_KEY_ID";
           "AWS_SECRET_ACCESS_KEY"; "AWS_REGION"] ->
    environ s' !! var = environ s !! var.
Proof.
  intros s'. subst s'.
  assert (Hf : forall T (f : state -> T),
            (forall g s, f (set_environ g s) = f s) ->
            (forall g s, f (set_engine_output g s) = f s) ->
            (forall name h s, f (set_outputs (alist_alter h name) s) = f s) ->
            f (snd (post_execution_hook E output s)) = f s).
  { intros T f Henv Heng Hout. rewrite post_execution_hook_unfold.
    rewrite (try_finally_frame f) by (by apply restore_http_proxy_env_frame).
    pose proof (fun names => map_outputs_frame f E names Hout (fun _ _ => Heng _)) as Hm.
    assert (P : preserves f (publish_and_map E)) by (unfold publish_and_map; frame).
    rewrite P. by rewrite Henv, Heng. }
  split; [by apply Hf|]. split; [by apply Hf|]. split; [by apply Hf|].
  split; [by apply Hf|]. split.
  - rewrite post_execution_hook_unfold.
    rewrite (try_finally_frame (fun s => fst <$> outputs s))
      by (by apply restore_http_proxy_env_frame).
    assert (P : preserves (fun s => fst <$> outputs s) (publish_and_map E)).
    { unfold publish_and_map. pose proof (map_outputs_names E) as Hm. frame. }
    by rewrite P.
  - intros var Hvar. rewrite !not_elem_of_cons in Hvar.
    destruct Hvar as (H0 & H1 & H2 & H3 & H4 & _).
    rewrite post_execution_hook_unfold.
    assert (Pr : preserves (fun s => environ s !! var) restore_http_proxy_env).
    { unfold restore_http_proxy_env. apply preserves_bind; [apply preserves_gets|intros saved].
      destruct saved; [|apply preserves_ret]. apply preserves_when.
      apply preserves_modify. intros ?. cbn [environ set_environ].
      by apply lookup_insert_ne. }
    rewrite (try_finally_frame (fun s => environ s !! var)) by done.
    assert (P : preserves (fun s => environ s !! var) (publish_and_map E)).
    { unfold publish_and_map, publish_credential, environ_setitem.
      pose proof (fun names => map_outputs_frame (fun s => environ s !! var) E names
                    (fun _ _ _ => eq_refl) (fun _ _ _ => eq_refl)) as Hm.
      repeat first
        [ assumption | apply Hm | apply preserves_gets | apply preserves_lift
        | apply preserves_raise
        | match goal with |- preserves _ (if ?b then _ else _) => destruct b end
        | apply preserves_bind; [|intros ?]
        | apply preserves_modify; intros ?; cbn [environ set_environ];
          by apply lookup_insert_ne
        | progress unfold conf_item ]. }
    rewrite P. cbn [environ set_environ set_engine_output].
    by apply lookup_delete_ne.
Qed.

(** ** [setOutput] beyond native collections *)

Lemma setOutput_loop_fallback (E : externals) name ref p cat cid s loc :
  subscript_val ref "value" = Ret p ->
  load_catalog E p = Some cat ->
  (forall c rest, all_collections cat <> Some (IterYield c rest)) ->
  additional_parameter s "collection_id" = Some cid ->
  setOutput_loop E name [ref] loc s =
    (Ret (LoopDone (items_fallback (conf s) cat cid
                      (Locals (l_items loc) (l_itemFinal loc) (Some None) (Some cid)))), s).
Proof.
  intros Hsub Hload Hnone Hcid.
  destruct (subscript_val_dict _ _ _ Hsub) as [e ->].
  cbn [setOutput_loop]. unfold bind at 1, lift at 1. rewrite Hsub, Hload.
  unfold bind at 1. rewrite (conf_item_run _ _ _ _ Hcid).
  destruct (all_collections cat) as [[| |c rest]|] eqn:Hc;
    try (by unfold bind, gets, ret).
  by destruct (Hnone c rest).
Qed.

Lemma setOutput_enter_same name s d v :
  alist_lookup name (outputs s) = Some d ->
  engine_output s !! name = Some v ->
  exists s1,
    conf s1 = conf s /\ outputs s1 = outputs s /\
    workspace_catalog_register s1 = workspace_catalog_register s /\
    forall W,
      setOutput W name s =
        match setOutput_loop W name (values_list v) no_locals s1 with
        | (Ret LoopReturn, s') => (Ret tt, s')
        | (Ret (LoopDone loc), s') => setOutput_finish W name loc s'
        | (Raise e, s') => (Raise e, s')
        end.
Proof.
  intros Hd Hv.
  set (s1 := match v with
             | PList _ => s
             | _ => set_engine_output (insert name (PList [v])) s
             end).
  exists s1. split; [by destruct v|]. split; [by destruct v|]. split; [by destruct v|].
  intros W. unfold setOutput, output_item.
  unfold bind at 1. unfold bind at 1, gets at 1. rewrite Hd. unfold ret at 1.
  unfold bind at 1, gets at 1. unfold bind at 1, lift at 1, subscript. rewrite Hv.
  assert (Hvals : forall B (k : list pyval -> M B),
             (vals <- match v with
                      | PList l => ret l
                      | _ => modify (set_engine_output (insert name (PList [v]))) ;;; ret [v]
                      end ;; k vals) s = k (values_list v) s1) by (intros; by destruct v).
  rewrite Hvals. unfold bind, no_locals.
  by destruct (setOutput_loop W name (values_list v) _ s1) as [[[|loc]|e] s'].
Qed.

(** X10 — for a single reference whose document loads but yields no
    collection, [setOutput] never stores a collection built from the
    document's items: [get_all_items()] returns an iterator, on which
    [items.append] and [len(items)] fail.  With no item at all the call
    raises [TypeError] and leaves the descriptors as they were; in every
    other case it stores the empty-collection sentinel and returns. *)
Theorem setOutput_items_only E name s d v ref p cat cid :
  alist_lookup name (outputs s) = Some d ->
  engine_output s !! name = Some v ->
  values_list v = [ref] ->
  subscript_val ref "value" = Ret p ->
  load_catalog E p = Some cat ->
  (forall c rest, all_collections cat <> Some (IterYield c rest)) ->
  additional_parameter s "collection_id" = Some cid ->
  (all_items cat = Some IterEnd ->
   exists s', setOutput E name s = (Raise TypeError, s') /\ outputs s' = outputs s) /\
  (all_items cat <> Some IterEnd ->
   exists s', setOutput E name s = (Ret tt, s') /\
              alist_lookup name (outputs s')
              = Some (<["collection" := json_dumps_empty]> d)).
Proof.
  intros Hd Hv Hvals Hsub Hload Hnone Hcid.
  destruct (setOutput_enter_same name s d v Hd Hv) as (s1 & Hc & Ho & _ & Hrun).
  rewrite Hrun, Hvals.
  erewrite setOutput_loop_fallback; [|done|done|done|].
  2:{ unfold additional_parameter in *. rewrite Hc. exact Hcid. }
  cbn [no_locals l_items l_itemFinal].
  assert (Hsentinel : forall items itemFinal ocid,
            exists s',
              setOutput_finish E name (Locals items itemFinal (Some None) ocid) s1
              = (Ret tt, s') /\
              alist_lookup name (outputs s')
              = Some (<["collection" := json_dumps_empty]> d)).
  { intros. unfold setOutput_finish. cbn [l_collection].
    erewrite output_setitem_run by (by rewrite Ho).
    eexists; split; [reflexivity|]. cbn [outputs set_outputs]. rewrite Ho.
    by apply alist_lookup_alter. }
  unfold items_fallback. cbn [l_collection l_collection_id].
  split.
  - intros ->. exists s1. split; [|done].
    unfold setOutput_finish. cbn [l_collection l_items items_len]. reflexivity.
  - intros Hne.
    destruct (all_items cat) as [[| |i rest]|]; [done| | |]; try apply Hsentinel.
    destruct (enrich_assets (conf s1) (item_assets i)); apply Hsentinel.
Qed.

(** X11 — when the engine's value for the output is an empty list, or a
    list that starts with [None], the loop of [setOutput] binds nothing and
    the call raises [UnboundLocalError] for [collection]; the descriptors
    are as before. *)
Theorem setOutput_nothing_to_read E name s d v :
  alist_lookup name (outputs s) = Some d ->
  engine_output s !! name = Some v ->
  v = PNone \/ v = PList [] \/ (exists rest, v = PList (PNone :: rest)) ->
  exists s',
    setOutput E name s = (Raise (UnboundLocalError "collection"), s') /\
    outputs s' = outputs s.
Proof.
  intros Hd Hv Hcase.
  destruct (setOutput_enter_same name s d v Hd Hv) as (s1 & _ & Ho & _ & Hrun).
  rewrite Hrun. exists s1. split; [|done].
  destruct Hcase as [->|[->|[rest ->]]]; reflexivity.
Qed.

(** X12 — [setOutput] for one output leaves every other declared output,
    the engine's values for the other outputs, the configuration and the
    process environment untouched, whether it returns or raises. *)
Theorem setOutput_frame_others E name s o :
  o <> name ->
  let s' := snd (setOutput E name s) in
  alist_lookup o (outputs s') = alist_lookup o (outputs s) /\
  engine_output s' !! o = engine_output s !! o /\
  conf s' = conf s /\ environ s' = environ s.
Proof.
  intros Hne s'. subst s'.
  assert (Hv : output_view o (snd (setOutput E name s)) = output_view o s).
  { apply (setOutput_frame (output_view o)); intros; unfold output_view;
      cbn [outputs engine_output set_outputs set_engine_output].
    - by rewrite alist_lookup_alter_ne.
    - by rewrite lookup_insert_ne. }
  unfold output_view in Hv. injection Hv as H1 H2.
  split; [done|]. split; [done|].
  split; by apply (setOutput_frame _ E name).
Qed.

Lemma bind_ext {A B} (m m' : M A) (k k' : A -> M B) s :
  m s = m' s ->
  (forall a s1, m s = (Ret a, s1) -> k a s1 = k' a s1) ->
  bind m k s = bind m' k' s.
Proof.
  intros Hm Hk. unfold bind. rewrite <- Hm.
  destruct (m s) as [[a|e] s1]; [by apply Hk|done].
Qed.

Lemma preserved_by_run {T A} (f : state -> T) (m : M A) s r s1 :
  preserves f m -> m s = (r, s1) -> f s1 = f s.
Proof. intros P H. specialize (P s). by rewrite H in P. Qed.

Lemma setOutput_loop_same_storage E E' name vals :
  (forall href, read_file E href = read_file E' href) ->
  forall loc s, setOutput_loop E name vals loc s = setOutput_loop E' name vals loc s.
Proof.
  intros Hread. induction vals as [|v vals IH]; intros loc s; [done|].
  cbn [setOutput_loop]. destruct v; try done.
  apply bind_ext; [done|intros p s1 _].
  assert (Hl : load_catalog E p = load_catalog E' p)
    by (unfold load_catalog; destruct p; auto).
  rewrite Hl. destruct (load_catalog E' p) as [cat|]; [|done].
  apply bind_ext; [done|intros cid s2 _].
  destruct (all_collections cat) as [[| |c rest]|];
    first [apply IH | apply bind_ext; [done|intros; apply IH]].
Qed.

(** X13 — with catalogue registration off, [setOutput] sends nothing to the
    workspace: its outcome and final state are the same in any two worlds
    that store the same documents, whatever their HTTP behaviour. *)
Theorem setOutput_without_registration E E' name s :
  workspace_catalog_register s = false ->
  (forall href, read_file E href = read_file E' href) ->
  setOutput E name s = setOutput E' name s.
Proof.
  intros Hreg Hread.
  assert (Hfin : forall loc s1, workspace_catalog_register s1 = false ->
            setOutput_finish E name loc s1 = setOutput_finish E' name loc s1).
  { intros loc s1 H1. unfold setOutput_finish.
    destruct (l_collection loc) as [[collection|]|]; try done.
    apply bind_ext; [done|intros n s2 Hn].
    apply bind_ext; [done|intros c s3 Hc].
    apply bind_ext; [done|intros cid s4 Hcid].
    apply bind_ext; [done|intros [] s5 Hset].
    apply bind_ext; [done|intros reg s6 Hget].
    assert (reg = false) as ->; [|done].
    unfold gets in Hget. injection Hget as <- <-.
    assert (Hs5 : workspace_catalog_register s5 = workspace_catalog_register s4)
      by (eapply preserved_by_run; [|exact Hset]; frame).
    assert (Hs4 : workspace_catalog_register s4 = workspace_catalog_register s3)
      by (destruct (l_collection_id loc); unfold ret, raise in Hcid; congruence).
    assert (Hs3 : workspace_catalog_register s3 = workspace_catalog_register s2).
    { destruct (0 <? n)%nat; [destruct (l_itemFinal loc)|];
        unfold ret, raise in Hc; congruence. }
    assert (Hs2 : workspace_catalog_register s2 = workspace_catalog_register s1)
      by (unfold lift in Hn; congruence).
    congruence. }
  unfold setOutput.
  apply bind_ext; [done|intros o s0 H0].
  apply bind_ext; [done|intros values s1 H1].
  apply bind_ext; [done|intros v s2 H2].
  apply bind_ext; [done|intros vals s3 H3].
  apply bind_ext; [apply setOutput_loop_same_storage; exact Hread|intros r s4 H4].
  destruct r as [|loc]; [done|]. apply Hfin.
  assert (Hs4 : workspace_catalog_register s4 = workspace_catalog_register s3).
  { eapply preserved_by_run; [|exact H4].
    by apply (setOutput_loop_frame workspace_catalog_register E name). }
  assert (Hs3 : workspace_catalog_register s3 = workspace_catalog_register s2).
  { eapply preserved_by_run; [|exact H3]. destruct v; frame. }
  assert (Hs2 : workspace_catalog_register s2 = workspace_catalog_register s1)
    by (unfold lift in H2; congruence).
  assert (Hs1 : workspace_catalog_register s1 = workspace_catalog_register s0)
    by (unfold gets in H1; congruence).
  assert (Hs0 : workspace_catalog_register s0 = workspace_catalog_register s).
  { eapply preserved_by_run; [|exact H0]. frame. }
  congruence.
Qed.

(** ** Numbering of the service logs *)

Lemma app_inj_prefix (p a b : string) : p +:+ a = p +:+ b -> a = b.
Proof. induction p as [|c p IH]; cbn [String.app]; [done|]. intros [= H]. auto. Qed.

Lemma okeys_cases f : f ∈ okeys -> f = "url" \/ f = "title" \/ f = "rel".
Proof. unfold okeys. rewrite !elem_of_cons, elem_of_nil. tauto. Qed.

Lemma suffixed_inj n m key : suffixed n key = suffixed m key -> n = m.
Proof.
  unfold suffixed, str_of_int. intros H.
  apply app_inj_prefix in H. apply (app_inj_prefix "_") in H.
  by apply (inj pretty) in H.
Qed.

Lemma entry_key_inj a b f g :
  f ∈ okeys -> g ∈ okeys -> entry_key a f = entry_key b g -> a = b /\ f = g.
Proof.
  intros Hf Hg.
  destruct a as [|a], b as [|b]; unfold entry_key.
  - done.
  - unfold suffixed. generalize (str_of_int (Z.of_nat (S b))). intros x.
    apply okeys_cases in Hf as [-> | [-> | ->] ];
      apply okeys_cases in Hg as [-> | [-> | ->] ]; cbn [String.app]; discriminate.
  - unfold suffixed. generalize (str_of_int (Z.of_nat (S a))). intros x.
    apply okeys_cases in Hf as [-> | [-> | ->] ];
      apply okeys_cases in Hg as [-> | [-> | ->] ]; cbn [String.app]; discriminate.
  - intros H.
    assert (Hfg : f = g).
    { revert H. unfold suffixed.
      generalize (str_of_int (Z.of_nat (S a))), (str_of_int (Z.of_nat (S b))).
      intros x y.
      apply okeys_cases in Hf as [-> | [-> | ->] ];
        apply okeys_cases in Hg as [-> | [-> | ->] ]; cbn [String.app];
        intros H; (done || discriminate H). }
    subst g. apply suffixed_inj in H. split; [lia|done].
Qed.

Lemma entry_key_not_length a f : f ∈ okeys -> entry_key a f <> "length".
Proof.
  intros Hf. destruct a; unfold entry_key, suffixed;
    [|generalize (str_of_int (Z.of_nat (S a))); intros x];
    apply okeys_cases in Hf as [-> | [-> | ->] ]; cbn [String.app]; discriminate.
Qed.

Lemma write_entry_lookup c entry d k :
  write_entry c entry d !! k =
    if decide (k = entry_key c "rel") then Some (PStr (sl_rel entry))
    else if decide (k = entry_key c "title") then Some (PStr (sl_title entry))
    else if decide (k = entry_key c "url") then Some (PStr (sl_url entry))
    else d !! k.
Proof.
  unfold write_entry. rewrite !lookup_insert.
  repeat case_decide; try done; congruence.
Qed.

Lemma okeys_url : "url" ∈ okeys. Proof. unfold okeys. rewrite !elem_of_cons. tauto. Qed.
Lemma okeys_title : "title" ∈ okeys. Proof. unfold okeys. rewrite !elem_of_cons. tauto. Qed.
Lemma okeys_rel : "rel" ∈ okeys. Proof. unfold okeys. rewrite !elem_of_cons. tauto. Qed.

(** Keys written by [write_entries] from index [c] on are exactly the
    entry keys of the indices [c .. c + length - 1]. *)
Lemma write_entries_other logs :
  forall c d k,
    (forall j f, (j < length logs)%nat -> f ∈ okeys -> k <> entry_key (c + j) f) ->
    write_entries logs c d !! k = d !! k.
Proof.
  induction logs as [|entry logs IH]; intros c d k Hk; [done|].
  cbn [write_entries]. rewrite IH.
  - rewrite write_entry_lookup.
    pose proof (Hk 0%nat "rel" ltac:(cbn; lia) okeys_rel) as H1.
    pose proof (Hk 0%nat "title" ltac:(cbn; lia) okeys_title) as H2.
    pose proof (Hk 0%nat "url" ltac:(cbn; lia) okeys_url) as H3.
    rewrite Nat.add_0_r in H1, H2, H3.
    repeat case_decide; done.
  - intros j f Hj Hf. replace (S c + j)%nat with (c + S j)%nat by lia.
    apply Hk; [cbn; lia|done].
Qed.

Lemma write_entries_lookup logs :
  forall c d j entry,
    logs !! j = Some entry ->
    write_entries logs c d !! entry_key (c + j) "url" = Some (PStr (sl_url entry)) /\
    write_entries logs c d !! entry_key (c + j) "title" = Some (PStr (sl_title entry)) /\
    write_entries logs c d !! entry_key (c + j) "rel" = Some (PStr (sl_rel entry)).
Proof.
  induction logs as [|e logs IH]; intros c d j entry Hj; [done|].
  cbn [write_entries]. destruct j as [|j].
  - injection Hj as ->. rewrite Nat.add_0_r.
    assert (Hfix : forall f, f ∈ okeys ->
              write_entries logs (S c) (write_entry c entry d) !! entry_key c f
              = write_entry c entry d !! entry_key c f).
    { intros f Hf. apply write_entries_other. intros j g _ Hg Heq.
      apply entry_key_inj in Heq as [Hcj _]; [lia|done|done]. }
    rewrite !Hfix by (apply okeys_url || apply okeys_title || apply okeys_rel).
    rewrite !write_entry_lookup.
    split_conj; repeat case_decide; try done;
      match goal with
      | H : entry_key _ _ = entry_key _ _ |- _ =>
          apply entry_key_inj in H as [_ H];
            [discriminate H|apply okeys_url || apply okeys_title || apply okeys_rel
                           |apply okeys_url || apply okeys_title || apply okeys_rel]
      end.
  - replace (c + S j)%nat with (S c + j)%nat by lia. by apply IH.
Qed.

Lemma store_service_logs_run logs :
  forall c s,
    logs <> [] \/ is_Some (conf s !! "service_logs") ->
    store_service_logs logs c s =
      (Ret tt, set_conf (insert "service_logs"
                           (write_entries logs c (default ∅ (conf s !! "service_logs")))) s).
Proof.
  induction logs as [|entry logs IH]; intros c s Hcase.
  - destruct Hcase as [|[d Hd]]; [done|]. cbn [store_service_logs write_entries].
    rewrite Hd. cbn [from_option id]. unfold ret, set_conf.
    rewrite insert_id by done. by destruct s.
  - cbn [store_service_logs write_entries].
    assert (Hkeys : forall n,
              nth n (if (0 <? c)%nat then suffixed (Z.of_nat c) <$> okeys else okeys) ""
              = nth n (entry_key c <$> okeys) "").
    { intros n. destruct c; [|done]. cbn [Nat.ltb Nat.leb]. unfold okeys, entry_key.
      by cbn [fmap list_fmap]. }
    rewrite !Hkeys. unfold okeys. cbn [fmap list_fmap nth].
    unfold bind at 1, gets at 1. unfold bind at 1.
    set (d := default ∅ (conf s !! "service_logs")).
    assert (Hw : exists s1,
               when (bool_decide (conf s !! "service_logs" = None))
                    (modify (set_conf (insert "service_logs" ∅))) s = (Ret tt, s1) /\
               conf s1 !! "service_logs" = Some d /\
               forall x, set_conf (insert "service_logs" x) s1
                         = set_conf (insert "service_logs" x) s).
    { unfold when. case_bool_decide as Hc.
      - eexists. split; [reflexivity|]. split.
        + cbn [conf set_conf]. rewrite lookup_insert_eq. unfold d. by rewrite Hc.
        + intros x. by rewrite set_conf_insert_twice.
      - exists s. split; [done|]. split; [|done].
        unfold d. by destruct (conf s !! "service_logs"). }
    destruct Hw as (s1 & -> & Hd & Hset).
    unfold bind at 1. rewrite (conf_setitem_run _ _ _ _ _ Hd). rewrite Hset.
    unfold bind at 1. erewrite conf_setitem_run by (cbn [conf set_conf]; apply lookup_insert_eq).
    rewrite set_conf_insert_twice.
    unfold bind at 1. erewrite conf_setitem_run by (cbn [conf set_conf]; apply lookup_insert_eq).
    rewrite set_conf_insert_twice.
    rewrite IH.
    + cbn [conf set_conf]. rewrite lookup_insert_eq. cbn [from_option id].
      by rewrite set_conf_insert_twice.
    + right. cbn [conf set_conf]. rewrite lookup_insert_eq. eauto.
Qed.

Lemma build_service_logs_map E tool_logs s t i u :
  conf s !! "main" ≫= (.!! "tmpUrl") = Some (PStr t) ->
  conf s !! "lenv" ≫= (.!! "Identifier") = Some i ->
  conf s !! "lenv" ≫= (.!! "usid") = Some u ->
  build_service_logs E tool_logs s = (Ret (tool_log_entry E t i u <$> tool_logs), s).
Proof.
  intros Ht Hi Hu. induction tool_logs as [|tool_log tool_logs IH]; [done|].
  cbn [build_service_logs].
  unfold bind at 1. rewrite (conf_item_run _ _ _ _ Ht).
  unfold bind at 1. rewrite (conf_item_run _ _ _ _ Hi).
  unfold bind at 1. rewrite (conf_item_run _ _ _ _ Hu).
  unfold bind at 1, lift at 1, as_str.
  unfold bind at 1. by rewrite IH.
Qed.

(** The state [handle_outputs] ends in when every entry it reads exists. *)
Lemma handle_outputs_run E tool_logs s t u m i w :
  conf s !! "main" = Some m ->
  m !! "tmpUrl" = Some (PStr t) ->
  conf s !! "auth_env" ≫= (.!! "user") = Some (PStr u) ->
  conf s !! "lenv" ≫= (.!! "Identifier") = Some i ->
  conf s !! "lenv" ≫= (.!! "usid") = Some w ->
  tool_logs <> [] \/ is_Some (conf s !! "service_logs") ->
  let url := str_replace "temp/" (u +:+ "/temp/") t in
  let cindex := if bool_decide (is_Some (conf s !! "service_logs")) then 1%nat else 0%nat in
  handle_outputs E tool_logs s =
    (Ret tt,
     set_conf (insert "service_logs"
                 (<["length" := PStr (str_of_int (Z.of_nat (length tool_logs)))]>
                    (write_entries (tool_log_entry E url i w <$> tool_logs) cindex
                       (default ∅ (conf s !! "service_logs")))))
       (set_conf (insert "main" (<["tmpUrl" := PStr url]> m)) s)).
Proof.
  intros Hm Ht Hu Hi Hw Hcase url cindex.
  unfold handle_outputs. rewrite reraise_id.
  unfold bind at 1. rewrite (user_tmp_url_run s t u) by (by rewrite ?Hm).
  unfold bind at 1. rewrite (conf_setitem_run _ _ _ _ _ Hm). fold url.
  set (s1 := set_conf (insert "main" (<["tmpUrl" := PStr url]> m)) s).
  assert (Hsl : conf s1 !! "service_logs" = conf s !! "service_logs")
    by (unfold s1; cbn [conf set_conf]; by rewrite lookup_insert_ne by discriminate).
  unfold bind at 1. rewrite (build_service_logs_map E tool_logs s1 url i w).
  2:{ unfold s1. cbn [conf set_conf]. rewrite lookup_insert_eq.
      cbn [mbind option_bind]. apply lookup_insert_eq. }
  2:{ unfold s1. cbn [conf set_conf]. by rewrite lookup_insert_ne by discriminate. }
  2:{ unfold s1. cbn [conf set_conf]. by rewrite lookup_insert_ne by discriminate. }
  unfold bind at 1, gets at 1. rewrite Hsl. fold cindex.
  unfold bind at 1. rewrite store_service_logs_run.
  2:{ rewrite Hsl. destruct Hcase as [Hne|?]; [left|by right].
      intros Hnil. apply fmap_nil_inv in Hnil. done. }
  erewrite conf_setitem_run by (cbn [conf set_conf]; apply lookup_insert_eq).
  rewrite set_conf_insert_twice, Hsl. by rewrite length_fmap.
Qed.

(** X14 — placement of the tool-log entries: when the entries it reads
    exist, [handle_outputs] returns and stores the entry of the [j]-th tool
    log under the keys of index [j] on a configuration without
    [service_logs], and of index [j + 1] when the section already exists;
    every other key of the section except [length] keeps its value, and
    [length] is the number of tool logs of this call. *)
Theorem handle_outputs_placement E tool_logs s t u i w :
  conf s !! "main" ≫= (.!! "tmpUrl") = Some (PStr t) ->
  conf s !! "auth_env" ≫= (.!! "user") = Some (PStr u) ->
  conf s !! "lenv" ≫= (.!! "Identifier") = Some i ->
  conf s !! "lenv" ≫= (.!! "usid") = Some w ->
  tool_logs <> [] \/ is_Some (conf s !! "service_logs") ->
  let url := str_replace "temp/" (u +:+ "/temp/") t in
  let cindex := if bool_decide (is_Some (conf s !! "service_logs")) then 1%nat else 0%nat in
  let before := default ∅ (conf s !! "service_logs") in
  exists s' after,
    handle_outputs E tool_logs s = (Ret tt, s') /\
    conf s' !! "service_logs" = Some after /\
    after !! "length" = Some (PStr (str_of_int (Z.of_nat (length tool_logs)))) /\
    (forall j tool_log,
       tool_logs !! j = Some tool_log ->
       after !! entry_key (cindex + j) "url"
       = Some (PStr (os_path_join3 url (py_str E i +:+ "-" +:+ py_str E w)
                                   (os_path_basename tool_log))) /\
       after !! entry_key (cindex + j) "title"
       = Some (PStr ("Tool log " +:+ os_path_basename tool_log)) /\
       after !! entry_key (cindex + j) "rel" = Some (PStr "related")) /\
    (forall k,
       k <> "length" ->
       (forall j f, (j < length tool_logs)%nat -> f ∈ okeys ->
                    k <> entry_key (cindex + j) f) ->
       after !! k = before !! k).
Proof.
  intros Ht Hu Hi Hw Hcase url cindex before.
  destruct (conf s !! "main") as [m|] eqn:Hm; [|done]. cbn [mbind option_bind] in Ht.
  eexists _, _. split; [by apply (handle_outputs_run E tool_logs s t u m i w)|].
  cbn [conf set_conf]. split; [apply lookup_insert_eq|]. split; [apply lookup_insert_eq|].
  fold url cindex before. split.
  - intros j tool_log Hj.
    assert (He : (tool_log_entry E url i w <$> tool_logs) !! j
                 = Some (tool_log_entry E url i w tool_log))
      by (by rewrite list_lookup_fmap, Hj).
    destruct (write_entries_lookup _ cindex before j _ He) as (H1 & H2 & H3).
    split_conj; (rewrite lookup_insert_ne by (apply not_eq_sym, entry_key_not_length;
      (apply okeys_url || apply okeys_title || apply okeys_rel))); done.
  - intros k Hk Hother. rewrite lookup_insert_ne by done.
    apply write_entries_other. intros j f Hj Hf. apply Hother; [|done].
    by rewrite length_fmap in Hj.
Qed.

(** X15 — on a configuration without [service_logs], after
    [handle_outputs] has stored at least one tool log the entries that exist
    are exactly those of the indices below the number of tool logs, which is
    what [length] holds. *)
Theorem handle_outputs_fresh_numbering E tool_logs s t u i w :
  conf s !! "service_logs" = None ->
  conf s !! "main" ≫= (.!! "tmpUrl") = Some (PStr t) ->
  conf s !! "auth_env" ≫= (.!! "user") = Some (PStr u) ->
  conf s !! "lenv" ≫= (.!! "Identifier") = Some i ->
  conf s !! "lenv" ≫= (.!! "usid") = Some w ->
  tool_logs <> [] ->
  exists s' after,
    handle_outputs E tool_logs s = (Ret tt, s') /\
    conf s' !! "service_logs" = Some after /\
    after !! "length" = Some (PStr (str_of_int (Z.of_nat (length tool_logs)))) /\
    forall j, has_entry after j = true <-> (j < length tool_logs)%nat.
Proof.
  intros Hnone Ht Hu Hi Hw Hne.
  destruct (conf s !! "main") as [m|] eqn:Hm; [|done]. cbn [mbind option_bind] in Ht.
  eexists _, _.
  split; [apply (handle_outputs_run E tool_logs s t u m i w); auto|].
  cbn [conf set_conf]. split; [apply lookup_insert_eq|]. split; [apply lookup_insert_eq|].
  rewrite Hnone. rewrite bool_decide_eq_false_2 by (by intros [? ?]).
  cbn [from_option id].
  set (url := str_replace "temp/" (u +:+ "/temp/") t).
  intros j. unfold has_entry. rewrite bool_decide_eq_true.
  rewrite lookup_insert_ne by (apply not_eq_sym, entry_key_not_length, okeys_url).
  split.
  - intros Hsome. destruct (decide (j < length tool_logs)%nat) as [|Hge]; [done|].
    rewrite write_entries_other in Hsome.
    + rewrite lookup_empty in Hsome. by destruct Hsome.
    + intros j' f Hj' Hf Heq. rewrite length_fmap in Hj'.
      apply entry_key_inj in Heq as [-> _]; [|apply okeys_url|done].
      cbn in Hge. lia.
  - intros Hlt. destruct (lookup_lt_is_Some_2 tool_logs j Hlt) as [tool_log Hj].
    assert (He : (tool_log_entry E url i w <$> tool_logs) !! j
                 = Some (tool_log_entry E url i w tool_log))
      by (by rewrite list_lookup_fmap, Hj).
    destruct (write_entries_lookup _ 0 ∅ j _ He) as (H1 & _).
    cbn [Nat.add] in H1. rewrite H1. eauto.
Qed.

Section ConfSection.
Context (sec : string).
Hypothesis not_service_logs : sec <> "service_logs".

Lemma conf_setitem_service_logs_frame k v :
  preserves (fun s => conf s !! sec) (conf_setitem "service_logs" k v).
Proof.
  unfold conf_setitem. frame. apply preserves_modify. intros s.
  cbn [conf set_conf]. by apply lookup_insert_ne.
Qed.

Lemma store_service_logs_frame logs :
  forall c, preserves (fun s => conf s !! sec) (store_service_logs logs c).
Proof.
  induction logs as [|entry logs IH]; intros c; cbn [store_service_logs]; [frame|].
  pose proof conf_setitem_service_logs_frame as Hset.
  apply preserves_bind; [apply preserves_gets|intros conf0].
  apply preserves_bind.
  { apply preserves_when, preserves_modify. intros s. cbn [conf set_conf].
    by apply lookup_insert_ne. }
  intros _. repeat (apply preserves_bind; [apply Hset|intros _]). apply IH.
Qed.

Lemma build_service_logs_frame {T} (f : state -> T) E tool_logs :
  preserves f (build_service_logs E tool_logs).
Proof. induction tool_logs as [|tool_log tool_logs IH]; cbn [build_service_logs]; frame. Qed.

Lemma handle_outputs_frame E tool_logs :
  sec <> "main" -> preserves (fun s => conf s !! sec) (handle_outputs E tool_logs).
Proof.
  intros Hmain. unfold handle_outputs.
  pose proof conf_setitem_service_logs_frame as Hset.
  pose proof store_service_logs_frame as Hstore.
  pose proof (build_service_logs_frame (fun s => conf s !! sec) E) as Hbuild.
  apply preserves_try_except; [|intros; apply preserves_raise].
  apply preserves_bind; [frame|intros url].
  apply preserves_bind.
  { unfold conf_setitem. frame. apply preserves_modify. intros s.
    cbn [conf set_conf]. by apply lookup_insert_ne. }
  intros _. apply preserves_bind; [apply Hbuild|intros logs].
  apply preserves_bind; [apply preserves_gets|intros c].
  apply preserves_bind; [apply Hstore|intros _]. apply Hset.
Qed.

Lemma save_job_log_frame E r :
  preserves (fun s => conf s !! sec) (save_job_log E r).
Proof.
  unfold save_job_log. pose proof conf_setitem_service_logs_frame as Hset.
  apply preserves_try_except; [|intros; apply preserves_ret].
  apply preserves_bind; [frame|intros tmpPath].
  apply preserves_bind; [frame|intros rn].
  apply preserves_bind; [frame|intros _].
  apply preserves_bind; [frame|intros _].
  apply preserves_bind; [frame|intros c].
  apply preserves_bind.
  { apply preserves_when, preserves_modify. intros s. cbn [conf set_conf].
    by apply lookup_insert_ne. }
  intros _. apply preserves_bind; [frame|intros service_logs].
  apply preserves_bind; [destruct (service_logs !! "length"); frame|intros keys].
  apply preserves_bind; [frame|intros url].
  repeat (apply preserves_bind; [apply Hset|intros _]). apply Hset.
Qed.
End ConfSection.

(** X16 — [handle_outputs] rewrites [main.tmpUrl] in the configuration
    itself, replacing every "temp/" by the user's own temp directory, and
    the rewrite stays whether the call then returns or raises; a second
    call rewrites the rewritten URL again. *)
Theorem handle_outputs_rewrites_tmpUrl E tool_logs s t u :
  conf s !! "main" ≫= (.!! "tmpUrl") = Some (PStr t) ->
  conf s !! "auth_env" ≫= (.!! "user") = Some (PStr u) ->
  let rewrite_url := str_replace "temp/" (u +:+ "/temp/") in
  let s1 := snd (handle_outputs E tool_logs s) in
  conf s1 !! "main" ≫= (.!! "tmpUrl") = Some (PStr (rewrite_url t)) /\
  forall more_logs,
    conf (snd (handle_outputs E more_logs s1)) !! "main" ≫= (.!! "tmpUrl")
    = Some (PStr (rewrite_url (rewrite_url t))).
Proof.
  intros Ht Hu rewrite_url s1.
  assert (Hstep : forall logs s0 t0,
            conf s0 !! "main" ≫= (.!! "tmpUrl") = Some (PStr t0) ->
            conf s0 !! "auth_env" = conf s !! "auth_env" ->
            conf (snd (handle_outputs E logs s0)) !! "main" ≫= (.!! "tmpUrl")
            = Some (PStr (rewrite_url t0)) /\
            conf (snd (handle_outputs E logs s0)) !! "auth_env" = conf s !! "auth_env").
  { intros logs s0 t0 Ht0 Hauth.
    split; [|rewrite <- Hauth; by apply (handle_outputs_frame "auth_env")].
    destruct (conf s0 !! "main") as [m|] eqn:Hm; [|done].
    cbn [mbind option_bind] in Ht0.
    unfold handle_outputs. rewrite reraise_id.
    unfold bind at 1. rewrite (user_tmp_url_run s0 t0 u);
      [|by rewrite Hm|by rewrite Hauth].
    unfold bind at 1. rewrite (conf_setitem_run _ _ _ _ _ Hm).
    match goal with |- context [?rest (set_conf ?g s0)] =>
      assert (P : preserves (fun s => conf s !! "main") rest)
    end.
    { pose proof (store_service_logs_frame "main" ltac:(discriminate)) as Hstore.
      pose proof (conf_setitem_service_logs_frame "main" ltac:(discriminate)) as Hset.
      pose proof (build_service_logs_frame (fun s => conf s !! "main") E) as Hbuild.
      apply preserves_bind; [apply Hbuild|intros logs0].
      apply preserves_bind; [apply preserves_gets|intros c].
      apply preserves_bind; [apply Hstore|intros _]. apply Hset. }
    rewrite P. cbn [conf set_conf]. rewrite lookup_insert_eq.
    cbn [mbind option_bind]. apply lookup_insert_eq. }
  destruct (Hstep tool_logs s t Ht eq_refl) as [H1 Hauth]. fold s1 in H1, Hauth.
  split; [done|]. intros more_logs. by apply Hstep.
Qed.

(** ** The failure branch *)

Lemma swallowed (m : M unit) s :
  try_except m (fun _ => ret tt) s = (Ret tt, snd (m s)).
Proof. unfold try_except. by destruct (m s) as [[[]|e] s1]. Qed.

(** X17 — the failure branch of the entry point reports failure whatever
    happens to its salvage steps: with a [lenv] section in the
    configuration it returns [SERVICE_FAILED] and stores in [lenv.message]
    what [zoo._] gives for the message, leaving the rest of [lenv] alone;
    without one the [KeyError] for [lenv] escapes.  With the [ZooStub] of
    the file standing in for [zoo], what is stored is [None]. *)
Theorem service_failure_branch_reports E r message s :
  (forall lenv,
     conf s !! "lenv" = Some lenv ->
     exists s',
       service_failure_branch E r message s = (Ret SERVICE_FAILED, s') /\
       conf s' !! "lenv" = Some (<["message" := zoo_translate E message]> lenv) /\
       (zoo_translate E = ZooStub_translate ->
        conf s' !! "lenv" ≫= (.!! "message") = Some PNone)) /\
  (conf s !! "lenv" = None ->
   exists s', service_failure_branch E r message s = (Raise (KeyError "lenv"), s')).
Proof.
  assert (Hrun : exists s2,
            conf s2 !! "lenv" = conf s !! "lenv" /\
            service_failure_branch E r message s =
              (conf_setitem "lenv" "message" (zoo_translate E message) ;;;
               ret SERVICE_FAILED) s2).
  { unfold service_failure_branch, save_job_log, salvage_tool_logs.
    unfold bind at 1. rewrite swallowed.
    unfold bind at 1. rewrite swallowed.
    eexists. split; [|reflexivity].
    match goal with |- conf (snd (?m2 (snd (?m1 s)))) !! _ = _ =>
      assert (P1 : preserves (fun s => conf s !! "lenv") m1);
      [|assert (P2 : preserves (fun s => conf s !! "lenv") m2)]
    end.
    - pose proof (save_job_log_frame "lenv" ltac:(discriminate) E r) as P.
      unfold save_job_log in P. intros s0. specialize (P s0).
      rewrite swallowed in P. exact P.
    - apply preserves_bind; [unfold the_runner; frame|intros rn].
      apply preserves_bind; [frame|intros logs].
      apply (handle_outputs_frame "lenv"); discriminate.
    - by rewrite P2, P1. }
  destruct Hrun as (s2 & Hlenv & ->). split.
  - intros lenv Hl. rewrite Hl in Hlenv.
    unfold bind. rewrite (conf_setitem_run _ _ _ _ _ Hlenv).
    eexists. split; [reflexivity|]. cbn [conf set_conf].
    split; [apply lookup_insert_eq|]. intros Hstub.
    rewrite lookup_insert_eq. cbn [mbind option_bind].
    rewrite lookup_insert_eq, Hstub. reflexivity.
  - intros Hl. rewrite Hl in Hlenv. exists s2.
    unfold bind, conf_setitem, bind, gets, lift, subscript. by rewrite Hlenv.
Qed.

(** X18 — saving the job log is best effort: when the runner is not bound
    or the log file cannot be written, [save_job_log] raises nothing and
    leaves the configuration exactly as it was (no [service_logs] section
    is created). *)
Theorem save_job_log_skipped E r s :
  r = None \/ (exists rn e, r = Some rn /\ write_job_log rn = Raise e) ->
  save_job_log E r s = (Ret tt, s).
Proof.
  intros Hcase. unfold save_job_log. rewrite swallowed.
  f_equal.
  unfold bind at 1.
  destruct (conf_item "main" "tmpPath" s) as [[tmpPath|e] s1] eqn:Hp.
  2:{ assert (P : preserves (fun s => s) (conf_item "main" "tmpPath")) by frame.
      specialize (P s). by rewrite Hp in P. }
  assert (s1 = s) as ->.
  { assert (P : preserves (fun s => s) (conf_item "main" "tmpPath")) by frame.
    specialize (P s). by rewrite Hp in P. }
  unfold bind at 1, the_runner.
  destruct Hcase as [->|(rn & e & -> & Hw)]; [done|].
  unfold ret at 1. unfold bind at 1, lift at 1.
  destruct (as_str TypeError tmpPath); [|done].
  unfold bind at 1, lift at 1. by rewrite Hw.
Qed.

Lemma suffixed_fields_distinct n :
  suffixed n "url" <> suffixed n "title" /\ suffixed n "url" <> suffixed n "rel" /\
  suffixed n "title" <> suffixed n "rel" /\
  suffixed n "url" <> "length" /\ suffixed n "title" <> "length" /\
  suffixed n "rel" <> "length".
Proof.
  unfold suffixed. generalize (str_of_int n). intros x. cbn [String.app].
  split_conj; discriminate.
Qed.

(** X19 — when the job log has been written and [service_logs] already
    holds a [length] that [int] reads as the integer [n], the failure branch
    stores the job-log entry under the keys suffixed with [n], keeps every
    other entry, and sets [length] to "1" whatever [n] was. *)
Theorem save_job_log_placement E rn s tmpPath t u d len n :
  write_job_log rn = Ret tt ->
  conf s !! "main" ≫= (.!! "tmpPath") = Some (PStr tmpPath) ->
  conf s !! "main" ≫= (.!! "tmpUrl") = Some (PStr t) ->
  conf s !! "auth_env" ≫= (.!! "user") = Some (PStr u) ->
  conf s !! "service_logs" = Some d ->
  d !! "length" = Some len ->
  py_int E len = Ret n ->
  exists s' after,
    save_job_log E (Some rn) s = (Ret tt, s') /\
    conf s' !! "service_logs" = Some after /\
    after !! suffixed n "url"
    = Some (PStr (os_path_join3 (str_replace "temp/" (u +:+ "/temp/") t)
                                (get_namespace_name rn) "job.log")) /\
    after !! suffixed n "title" = Some (PStr "Job pod log") /\
    after !! suffixed n "rel" = Some (PStr "related") /\
    after !! "length" = Some (PStr "1") /\
    forall k, k ∉ [suffixed n "url"; suffixed n "title"; suffixed n "rel"; "length"] ->
              after !! k = d !! k.
Proof.
  intros Hw Hp Ht Hu Hd Hlen Hn.
  destruct (suffixed_fields_distinct n) as (D1 & D2 & D3 & D4 & D5 & D6).
  unfold save_job_log. rewrite swallowed.
  unfold bind at 1. rewrite (conf_item_run _ _ _ _ Hp).
  unfold bind at 1, the_runner, ret at 1.
  unfold bind at 1, lift at 1. cbn [as_str].
  unfold bind at 1, lift at 1. rewrite Hw.
  unfold bind at 1, gets at 1.
  unfold bind at 1. rewrite Hd.
  rewrite bool_decide_eq_false_2 by discriminate. unfold when, ret at 1.
  unfold bind at 1, conf_get_section. unfold bind at 1, gets at 1. rewrite Hd.
  cbn [from_option id]. unfold ret at 1.
  unfold bind at 1. rewrite Hlen. unfold bind at 1, lift at 1. rewrite Hn. unfold ret at 1.
  unfold okeys. cbn [fmap list_fmap nth].
  unfold bind at 1. rewrite (user_tmp_url_run s t u Ht Hu).
  unfold bind at 1. rewrite (conf_setitem_run _ _ _ _ _ Hd).
  unfold bind at 1. erewrite conf_setitem_run by (cbn [conf set_conf]; apply lookup_insert_eq).
  unfold bind at 1. erewrite conf_setitem_run by (cbn [conf set_conf]; apply lookup_insert_eq).
  erewrite conf_setitem_run by (cbn [conf set_conf]; apply lookup_insert_eq).
  cbn [snd]. eexists _, _. split; [reflexivity|].
  cbn [conf set_conf]. split; [apply lookup_insert_eq|].
  split; [|split; [|split; [|split]]].
  - rewrite !lookup_insert_ne by (done || by apply not_eq_sym). apply lookup_insert_eq.
  - rewrite !lookup_insert_ne by (done || by apply not_eq_sym). apply lookup_insert_eq.
  - rewrite !lookup_insert_ne by (done || by apply not_eq_sym). apply lookup_insert_eq.
  - apply lookup_insert_eq.
  - intros k Hk. rewrite !not_elem_of_cons in Hk. destruct Hk as (K1 & K2 & K3 & K4 & _).
    by rewrite !lookup_insert_ne by (done || by apply not_eq_sym).
Qed.

(** ** The success branch *)

Lemma alist_lookup_alter_fmap {V} (h : V -> V) k (l : list (string * V)) :
  alist_lookup k (alist_alter h k l) = h <$> alist_lookup k l.
Proof.
  destruct (alist_lookup k l) as [d|] eqn:Hd.
  - by apply alist_lookup_alter.
  - induction l as [|[k' v] l IH]; [done|]. cbn [alist_lookup alist_alter] in *.
    destruct (String.eqb k k') eqn:Hk; [done|]. cbn [alist_lookup]. rewrite Hk. auto.
Qed.

Lemma collect_output_run json_dumps i s d :
  alist_lookup i (outputs s) = Some d ->
  collect_output json_dumps i s =
    (Ret tt,
     match d !! "collection" with
     | Some collection =>
         set_outputs (alist_alter (insert "value" (PStr (json_dumps collection))) i) s
     | None => s
     end).
Proof.
  intros Hd. unfold collect_output, output_item.
  unfold bind at 1. unfold bind at 1, gets at 1. rewrite Hd. unfold ret at 1.
  destruct (d !! "collection"); [|done]. by erewrite output_setitem_run.
Qed.

Lemma with_serialized_collection_idem json_dumps d :
  with_serialized_collection json_dumps (with_serialized_collection json_dumps d)
  = with_serialized_collection json_dumps d.
Proof.
  unfold with_serialized_collection.
  destruct (d !! "collection") as [c|] eqn:Hc; [|by rewrite Hc].
  rewrite lookup_insert_ne by discriminate. rewrite Hc. by rewrite insert_insert_eq.
Qed.

Lemma collect_outputs_invariant json_dumps o d names :
  forall s,
    (forall i, i ∈ names -> is_Some (alist_lookup i (outputs s))) ->
    alist_lookup o (outputs s) = Some d \/
    alist_lookup o (outputs s) = Some (with_serialized_collection json_dumps d) ->
    exists s',
      collect_outputs json_dumps names s = (Ret tt, s') /\
      conf s' = conf s /\
      (alist_lookup o (outputs s') = Some d \/
       alist_lookup o (outputs s') = Some (with_serialized_collection json_dumps d)) /\
      (o ∈ names \/
       alist_lookup o (outputs s) = Some (with_serialized_collection json_dumps d) ->
       alist_lookup o (outputs s') = Some (with_serialized_collection json_dumps d)).
Proof.
  induction names as [|i names IH]; intros s Hnames Ho.
  - exists s. split; [done|]. split; [done|]. split; [done|].
    intros [Hin|H]; [by apply elem_of_nil in Hin|done].
  - cbn [collect_outputs]. unfold bind at 1.
    destruct (Hnames i) as [di Hdi]; [apply elem_of_cons; by left|].
    rewrite (collect_output_run json_dumps i s di Hdi).
    set (s1 := match di !! "collection" with
               | Some collection =>
                   set_outputs (alist_alter (insert "value" (PStr (json_dumps collection))) i) s
               | None => s
               end).
    assert (Hconf : conf s1 = conf s) by (unfold s1; by destruct (di !! "collection")).
    assert (Hkeys : forall k, is_Some (alist_lookup k (outputs s)) ->
                              is_Some (alist_lookup k (outputs s1))).
    { intros k Hk. unfold s1. destruct (di !! "collection"); [|done].
      cbn [outputs set_outputs]. destruct (decide (k = i)) as [->|Hne].
      - rewrite alist_lookup_alter_fmap. destruct Hk as [x ->]. by eexists.
      - by rewrite alist_lookup_alter_ne. }
    assert (Hself : alist_lookup i (outputs s1)
                    = Some (with_serialized_collection json_dumps di)).
    { unfold s1, with_serialized_collection. destruct (di !! "collection"); [|done].
      cbn [outputs set_outputs]. by apply alist_lookup_alter. }
    assert (Hother : o <> i -> alist_lookup o (outputs s1) = alist_lookup o (outputs s)).
    { intros Hne. unfold s1. destruct (di !! "collection"); [|done].
      cbn [outputs set_outputs]. by apply alist_lookup_alter_ne. }
    destruct (decide (o = i)) as [->|Hne].
    + assert (Hdone : alist_lookup i (outputs s1)
                      = Some (with_serialized_collection json_dumps d)).
      { rewrite Hself. destruct Ho as [Ho|Ho]; rewrite Hdi in Ho; injection Ho as ->;
          [done|by rewrite with_serialized_collection_idem]. }
      destruct (IH s1) as (s' & Hrun & Hc & Hinv & Hfin).
      { intros k Hk. apply Hkeys, Hnames. apply elem_of_cons. by right. }
      { by right. }
      exists s'. split; [done|]. split; [congruence|]. split; [done|].
      intros _. apply Hfin. by right.
    + destruct (IH s1) as (s' & Hrun & Hc & Hinv & Hfin).
      { intros k Hk. apply Hkeys, Hnames. apply elem_of_cons. by right. }
      { by rewrite Hother. }
      exists s'. split; [done|]. split; [congruence|]. split; [done|].
      intros [Hin|Hdone]; apply Hfin.
      * apply elem_of_cons in Hin as [?|Hin]; [done|by left].
      * right. by rewrite Hother.
Qed.

(** X20 — the success branch of the entry point never raises: every
    declared output that carries a [collection] gets the serialized
    collection as its [value] (replacing what the hook had put there), every
    other output is left as it is, and the configuration is untouched. *)
Theorem collect_outputs_serializes json_dumps s :
  exists s',
    collect_outputs json_dumps (fst <$> outputs s) s = (Ret tt, s') /\
    conf s' = conf s /\
    forall o d,
      alist_lookup o (outputs s) = Some d ->
      alist_lookup o (outputs s') = Some (with_serialized_collection json_dumps d).
Proof.
  assert (Hnames : forall i, i ∈ fst <$> outputs s -> is_Some (alist_lookup i (outputs s))).
  { intros i. induction (outputs s) as [|[k v] l IH]; cbn [fmap list_fmap fst alist_lookup].
    - intros H. by apply elem_of_nil in H.
    - intros H. destruct (String.eqb i k) eqn:Hk; [eauto|].
      apply elem_of_cons in H as [->|H]; [|by apply IH].
      by rewrite String.eqb_refl in Hk. }
  assert (Hrun : exists s', collect_outputs json_dumps (fst <$> outputs s) s = (Ret tt, s') /\
                            conf s' = conf s).
  { destruct (outputs s) as [|[o0 d0] l] eqn:Hout.
    - exists s. done.
    - rewrite <- Hout in *.
      destruct (collect_outputs_invariant json_dumps o0 d0 (fst <$> outputs s) s Hnames)
        as (s' & Hrun & Hc & _ & _); [|eauto].
      left. rewrite Hout. cbn [alist_lookup]. by rewrite String.eqb_refl. }
  destruct Hrun as (s' & Hrun & Hc).
  exists s'. split; [done|]. split; [done|]. intros o d Ho.
  destruct (collect_outputs_invariant json_dumps o d (fst <$> outputs s) s Hnames)
    as (s'' & Hrun' & _ & _ & Hfin); [by left|].
  rewrite Hrun in Hrun'. injection Hrun' as <-.
  apply Hfin. left. by eapply alist_lookup_elem_of.
Qed.

(** ** Runs of the further properties *)

Lemma handler_new_invariants_witness :
  handler_new ∅ [] ∅ = Ret Runs.bare /\
  outputs Runs.bare = [] /\ environ Runs.bare = ∅ /\ username Runs.bare = PNone.
Proof.
  assert (Hnew : handler_new ∅ [] ∅ = Ret Runs.bare) by (vm_compute; reflexivity).
  split; [exact Hnew|].
  destruct (handler_new_invariants ∅ [] ∅ Runs.bare Hnew) as (Ho & He & Hu & _).
  split; [exact Ho|]. split; [exact He|exact Hu].
Defined.

Lemma pre_execution_hook_workspace_credentials_witness :
  response_ok Runs.details = true /\
  use_workspace
    (snd (pre_execution_hook (Runs.world (HttpResponse Runs.details) HttpFailure)
                             (Runs.job ∅))) = true /\
  additional_parameter
    (snd (pre_execution_hook (Runs.world (HttpResponse Runs.details) HttpFailure)
                             (Runs.job ∅))) "STAGEOUT_OUTPUT"
  = Some (default PNone (Runs.credentials !! "bucketname")) /\
  additional_parameter
    (snd (pre_execution_hook (Runs.world (HttpResponse Runs.details) HttpFailure)
                             (Runs.job ∅))) "STAGEOUT_AWS_REGION"
  = Some (default PNone (Runs.credentials !! "region")).
Proof.
  split; [reflexivity|].
  destruct (pre_execution_hook_workspace_credentials
              (Runs.world (HttpResponse Runs.details) HttpFailure) (Runs.job ∅)
              "https://workspace.example" Runs.details
              (PDict {[ "storage" := PDict {[ "credentials" := PDict Runs.credentials ]} ]})
              (PDict {[ "credentials" := PDict Runs.credentials ]})
              Runs.credentials ∅) as (Huw & _ & _ & _ & Hregion & Hbucket).
  - reflexivity.
  - reflexivity.
  - intros H; vm_compute in H; discriminate H.
  - intros; reflexivity.
  - reflexivity.
  - reflexivity.
  - vm_compute; reflexivity.
  - vm_compute; reflexivity.
  - exists (default ∅ (conf (Runs.job ∅) !! "additional_parameters")).
    vm_compute; reflexivity.
  - split; [exact Huw|]. split; [exact Hbucket|exact Hregion].
Defined.

Lemma pre_execution_hook_collection_id_witness :
  pre_execution_hook (Runs.world (HttpResponse Runs.details) HttpFailure)
                     (Runs.job Demo.good_output)
  = (Ret tt, Runs.with_workspace_credentials) /\
  exists usid,
    default (PStr "") (default ∅ (conf (Runs.job Demo.good_output) !! "lenv") !! "usid")
    = PStr usid /\
    additional_parameter Runs.with_workspace_credentials "collection_id" = Some (PStr usid) /\
    additional_parameter Runs.with_workspace_credentials "process"
    = Some (PStr (os_path_join "processing-results" usid)).
Proof.
  assert (Hrun : pre_execution_hook (Runs.world (HttpResponse Runs.details) HttpFailure)
                                    (Runs.job Demo.good_output)
                 = (Ret tt, Runs.with_workspace_credentials)) by (vm_compute; reflexivity).
  split; [exact Hrun|].
  exact (pre_execution_hook_collection_id _ _ _ Hrun).
Defined.

Lemma pre_execution_hook_without_workspace_witness :
  use_workspace (set_use_workspace false (Runs.job ∅)) = false /\
  pre_execution_hook (Runs.world HttpFailure HttpFailure)
                     (set_use_workspace false (Runs.job ∅))
  = pre_execution_hook (Runs.world (HttpResponse Runs.details) HttpFailure)
                       (set_use_workspace false (Runs.job ∅)).
Proof.
  split; [reflexivity|].
  destruct (pre_execution_hook_without_workspace
              (Runs.world HttpFailure HttpFailure)
              (Runs.world (HttpResponse Runs.details) HttpFailure)
              (set_use_workspace false (Runs.job ∅))) as [Hsame _].
  - reflexivity.
  - intros; reflexivity.
  - exact Hsame.
Defined.

Lemma pre_execution_hook_environ_round_trip_witness :
  environ (Runs.job ∅) !! "HTTP_PROXY" = http_proxy_env (Runs.job ∅) /\
  environ (snd (pre_execution_hook (Runs.world HttpFailure HttpFailure) (Runs.job ∅)))
  = environ (Runs.job ∅).
Proof.
  assert (Hsaved : environ (Runs.job ∅) !! "HTTP_PROXY" = http_proxy_env (Runs.job ∅))
    by (vm_compute; reflexivity).
  split; [exact Hsaved|].
  apply (pre_execution_hook_environ_round_trip (Runs.world HttpFailure HttpFailure)
           (Runs.job ∅) Hsaved).
  discriminate.
Defined.

Lemma post_execution_hook_publishes_credentials_witness :
  post_execution_hook (Runs.world HttpFailure HttpFailure) Demo.good_output (Runs.job ∅)
  = (Ret tt, Runs.after_post_hook) /\
  exists region,
    additional_parameter (Runs.job ∅) "STAGEOUT_AWS_REGION" = Some (PStr region) /\
    environ Runs.after_post_hook !! "AWS_REGION" = Some region.
Proof.
  assert (Hrun : post_execution_hook (Runs.world HttpFailure HttpFailure)
                   Demo.good_output (Runs.job ∅) = (Ret tt, Runs.after_post_hook))
    by (vm_compute; reflexivity).
  split; [exact Hrun|].
  destruct (post_execution_hook_publishes_credentials _ _ _ _ Hrun)
    as (a & b & c & d & _ & _ & _ & Hd & _ & _ & _ & Ed).
  exists d. split; [exact Hd|exact Ed].
Defined.

Lemma post_execution_hook_bad_credential_witness :
  (additional_parameter Runs.with_workspace_credentials "STAGEOUT_AWS_REGION" = Some PNone /\
   exists s',
     post_execution_hook (Runs.world HttpFailure HttpFailure) Demo.good_output
                         Runs.with_workspace_credentials = (Raise TypeError, s') /\
     outputs s' = outputs Runs.with_workspace_credentials /\
     conf s' = conf Runs.with_workspace_credentials) /\
  (first_bad_credential Runs.with_nul_endpoint = Some "STAGEOUT_AWS_SERVICEURL" /\
   exists s',
     post_execution_hook (Runs.world HttpFailure HttpFailure) Demo.good_output
                         Runs.with_nul_endpoint = (Raise ValueError, s') /\
     outputs s' = outputs Runs.with_nul_endpoint /\
     conf s' = conf Runs.with_nul_endpoint).
Proof.
  split.
  - split; [vm_compute; reflexivity|].
    destruct (post_execution_hook_bad_credential (Runs.world HttpFailure HttpFailure)
                Demo.good_output Runs.with_workspace_credentials "STAGEOUT_AWS_REGION")
      as (e & s' & Hrun & He & _ & Ho & Hc); [vm_compute; reflexivity|].
    assert (Hregion : additional_parameter Runs.with_workspace_credentials
                        "STAGEOUT_AWS_REGION" = Some PNone) by (vm_compute; reflexivity).
    rewrite Hregion in He. cbn [credential_error] in He. subst e.
    exists s'. split; [exact Hrun|]. split; [exact Ho|exact Hc].
  - assert (Hfirst : first_bad_credential Runs.with_nul_endpoint
                     = Some "STAGEOUT_AWS_SERVICEURL") by (vm_compute; reflexivity).
    split; [exact Hfirst|].
    destruct (post_execution_hook_bad_credential (Runs.world HttpFailure HttpFailure)
                Demo.good_output Runs.with_nul_endpoint "STAGEOUT_AWS_SERVICEURL" Hfirst)
      as (e & s' & Hrun & He & _ & Ho & Hc).
    assert (Hurl : additional_parameter Runs.with_nul_endpoint "STAGEOUT_AWS_SERVICEURL"
                   = Some (PStr (String "a" (String "000" (String "b" EmptyString)))))
      by (vm_compute; reflexivity).
    rewrite Hurl in He. cbn [credential_error] in He. destruct He as [_ ->].
    exists s'. split; [exact Hrun|]. split; [exact Ho|exact Hc].
Defined.

Lemma setOutput_items_only_witness :
  (exists s',
     setOutput (Runs.world HttpFailure HttpFailure) "stac" (Runs.job Runs.items_output)
     = (Ret tt, s') /\
     alist_lookup "stac" (outputs s')
     = Some (<["collection" := json_dumps_empty]>
               {[ "mimeType" := PStr "application/json" ]})) /\
  (exists s',
     setOutput (Runs.world HttpFailure HttpFailure) "stac" (Runs.job Runs.empty_output)
     = (Raise TypeError, s') /\
     outputs s' = outputs (Runs.job Runs.empty_output)).
Proof.
  split.
  - destruct (setOutput_items_only (Runs.world HttpFailure HttpFailure) "stac"
                (Runs.job Runs.items_output) {[ "mimeType" := PStr "application/json" ]}
                (PDict {[ "value" := PStr "s3://bucket/items.json" ]})
                (PDict {[ "value" := PStr "s3://bucket/items.json" ]})
                (PStr "s3://bucket/items.json") Runs.items_only (PStr "job-1"))
      as [_ Hsentinel].
    + vm_compute; reflexivity.
    + vm_compute; reflexivity.
    + reflexivity.
    + vm_compute; reflexivity.
    + vm_compute; reflexivity.
    + intros c rest H. vm_compute in H. discriminate H.
    + vm_compute; reflexivity.
    + apply Hsentinel. intros H. vm_compute in H. discriminate H.
  - destruct (setOutput_items_only (Runs.world HttpFailure HttpFailure) "stac"
                (Runs.job Runs.empty_output) {[ "mimeType" := PStr "application/json" ]}
                (PDict {[ "value" := PStr "s3://bucket/empty.json" ]})
                (PDict {[ "value" := PStr "s3://bucket/empty.json" ]})
                (PStr "s3://bucket/empty.json") Runs.empty_catalog (PStr "job-1"))
      as [Hraise _].
    + vm_compute; reflexivity.
    + vm_compute; reflexivity.
    + reflexivity.
    + vm_compute; reflexivity.
    + vm_compute; reflexivity.
    + intros c rest H. vm_compute in H. discriminate H.
    + vm_compute; reflexivity.
    + apply Hraise. reflexivity.
Defined.

Lemma setOutput_nothing_to_read_witness :
  engine_output (Runs.job {[ "stac" := PList [] ]}) !! "stac" = Some (PList []) /\
  exists s',
    setOutput (Runs.world HttpFailure HttpFailure) "stac" (Runs.job {[ "stac" := PList [] ]})
    = (Raise (UnboundLocalError "collection"), s') /\
    outputs s' = outputs (Runs.job {[ "stac" := PList [] ]}).
Proof.
  assert (Hv : engine_output (Runs.job {[ "stac" := PList [] ]}) !! "stac" = Some (PList []))
    by (vm_compute; reflexivity).
  split; [exact Hv|].
  apply (setOutput_nothing_to_read (Runs.world HttpFailure HttpFailure) "stac"
           (Runs.job {[ "stac" := PList [] ]}) {[ "mimeType" := PStr "application/json" ]}
           (PList [])).
  - vm_compute; reflexivity.
  - exact Hv.
  - right. left. reflexivity.
Defined.

Lemma setOutput_frame_others_witness :
  "raw" <> "stac" /\
  alist_lookup "raw"
    (outputs (snd (setOutput (Runs.world HttpFailure HttpFailure) "stac"
                             (Runs.job Demo.good_output))))
  = alist_lookup "raw" (outputs (Runs.job Demo.good_output)).
Proof.
  assert (Hne : "raw" <> "stac") by discriminate.
  split; [exact Hne|].
  destruct (setOutput_frame_others (Runs.world HttpFailure HttpFailure) "stac"
              (Runs.job Demo.good_output) "raw" Hne) as [H _].
  exact H.
Defined.

Lemma setOutput_without_registration_witness :
  workspace_catalog_register (Runs.job Demo.good_output) = false /\
  setOutput (Runs.world HttpFailure HttpFailure) "stac" (Runs.job Demo.good_output)
  = setOutput (Runs.world HttpFailure (HttpResponse Demo.unavailable)) "stac"
              (Runs.job Demo.good_output).
Proof.
  split; [reflexivity|].
  apply (setOutput_without_registration
           (Runs.world HttpFailure HttpFailure)
           (Runs.world HttpFailure (HttpResponse Demo.unavailable))
           "stac" (Runs.job Demo.good_output)).
  - reflexivity.
  - intros; reflexivity.
Defined.

Lemma handle_outputs_placement_witness :
  conf (Runs.job ∅) !! "service_logs" = None /\
  exists s' after,
    handle_outputs (Runs.world HttpFailure HttpFailure) ["/tmp/a.log"; "/tmp/b.log"]
                   (Runs.job ∅) = (Ret tt, s') /\
    conf s' !! "service_logs" = Some after /\
    after !! "length"
    = Some (PStr (str_of_int (Z.of_nat (length ["/tmp/a.log"; "/tmp/b.log"])))).
Proof.
  split; [vm_compute; reflexivity|].
  destruct (handle_outputs_placement (Runs.world HttpFailure HttpFailure)
              ["/tmp/a.log"; "/tmp/b.log"] (Runs.job ∅)
              "https://zoo.example/temp/" "bob" (PStr "proc") (PStr "job-1"))
    as (s' & after & Hrun & Hsl & Hlen & _).
  - vm_compute; reflexivity.
  - vm_compute; reflexivity.
  - vm_compute; reflexivity.
  - vm_compute; reflexivity.
  - left. discriminate.
  - exists s', after. split; [exact Hrun|]. split; [exact Hsl|exact Hlen].
Defined.

Lemma handle_outputs_fresh_numbering_witness :
  conf (Runs.job ∅) !! "service_logs" = None /\
  exists s' after,
    handle_outputs (Runs.world HttpFailure HttpFailure) ["/tmp/a.log"; "/tmp/b.log"]
                   (Runs.job ∅) = (Ret tt, s') /\
    conf s' !! "service_logs" = Some after /\
    after !! "length"
    = Some (PStr (str_of_int (Z.of_nat (length ["/tmp/a.log"; "/tmp/b.log"])))) /\
    forall j, has_entry after j = true <-> (j < length ["/tmp/a.log"; "/tmp/b.log"])%nat.
Proof.
  assert (Hnone : conf (Runs.job ∅) !! "service_logs" = None) by (vm_compute; reflexivity).
  split; [exact Hnone|].
  apply (handle_outputs_fresh_numbering (Runs.world HttpFailure HttpFailure)
           ["/tmp/a.log"; "/tmp/b.log"] (Runs.job ∅)
           "https://zoo.example/temp/" "bob" (PStr "proc") (PStr "job-1") Hnone).
  - vm_compute; reflexivity.
  - vm_compute; reflexivity.
  - vm_compute; reflexivity.
  - vm_compute; reflexivity.
  - discriminate.
Defined.

Lemma handle_outputs_rewrites_tmpUrl_witness :
  conf (Runs.job ∅) !! "main" ≫= (.!! "tmpUrl") = Some (PStr "https://zoo.example/temp/") /\
  conf (snd (handle_outputs (Runs.world HttpFailure HttpFailure) [] (Runs.job ∅)))
    !! "main" ≫= (.!! "tmpUrl")
  = Some (PStr (str_replace "temp/" ("bob" +:+ "/temp/") "https://zoo.example/temp/")).
Proof.
  assert (Ht : conf (Runs.job ∅) !! "main" ≫= (.!! "tmpUrl")
               = Some (PStr "https://zoo.example/temp/")) by (vm_compute; reflexivity).
  split; [exact Ht|].
  destruct (handle_outputs_rewrites_tmpUrl (Runs.world HttpFailure HttpFailure) []
              (Runs.job ∅) "https://zoo.example/temp/" "bob" Ht) as [H _].
  - vm_compute; reflexivity.
  - exact H.
Defined.

Lemma save_job_log_skipped_witness :
  save_job_log (Runs.world HttpFailure HttpFailure) None (Runs.job ∅)
  = (Ret tt, Runs.job ∅).
Proof.
  apply (save_job_log_skipped (Runs.world HttpFailure HttpFailure) None (Runs.job ∅)).
  left. reflexivity.
Defined.

Lemma save_job_log_placement_witness :
  default ∅ (conf Runs.with_two_logs !! "service_logs") !! "length" = Some (PStr "2") /\
  py_int (Runs.world HttpFailure HttpFailure) (PStr "2") = Ret 2%Z /\
  exists s' after,
    save_job_log (Runs.world HttpFailure HttpFailure) (Some Demo.failed_runner)
                 Runs.with_two_logs = (Ret tt, s') /\
    conf s' !! "service_logs" = Some after /\
    after !! suffixed 2 "title" = Some (PStr "Job pod log") /\
    after !! "length" = Some (PStr "1").
Proof.
  split; [vm_compute; reflexivity|]. split; [reflexivity|].
  destruct (save_job_log_placement (Runs.world HttpFailure HttpFailure)
              Demo.failed_runner Runs.with_two_logs
              "/tmp" "https://zoo.example/bob/temp/" "bob"
              (default ∅ (conf Runs.with_two_logs !! "service_logs")) (PStr "2") 2%Z)
    as (s' & after & Hrun & Hsl & _ & Htitle & _ & Hlen & _).
  - reflexivity.
  - vm_compute; reflexivity.
  - vm_compute; reflexivity.
  - vm_compute; reflexivity.
  - vm_compute; reflexivity.
  - vm_compute; reflexivity.
  - reflexivity.
  - exists s', after. split; [exact Hrun|]. split; [exact Hsl|]. split; [exact Htitle|exact Hlen].
Defined.

Lemma handler_new_failure_witness :
  handler_new Runs.misflagged [] ∅ = Raise AttributeError /\
  exists v, default ∅ (Runs.misflagged !! "eoepca") !! "workspace_catalog_register" = Some v /\
            forall flag, v <> PStr flag.
Proof.
  assert (Hnew : handler_new Runs.misflagged [] ∅ = Raise AttributeError)
    by (vm_compute; reflexivity).
  split; [exact Hnew|].
  destruct (handler_new_failure Runs.misflagged [] ∅) as [Hraise _].
  destruct (Hraise AttributeError Hnew) as (_ & _ & Hflag).
  exact Hflag.
Defined.

Lemma service_failure_branch_reports_witness :
  exists s',
    service_failure_branch (Runs.world HttpFailure HttpFailure) (Some Demo.failed_runner)
      "Exception during execution..." (Runs.job ∅)
    = (Ret SERVICE_FAILED, s') /\
    conf s' !! "lenv" ≫= (.!! "message") = Some PNone /\
    conf s' !! "lenv" ≫= (.!! "usid") = Some (PStr "job-1").
Proof.
  destruct (service_failure_branch_reports (Runs.world HttpFailure HttpFailure)
              (Some Demo.failed_runner) "Exception during execution..." (Runs.job ∅))
    as [Hlenv _].
  destruct (Hlenv (default ∅ (conf (Runs.job ∅) !! "lenv")))
    as (s' & Hrun & Hl & Hstub); [vm_compute; reflexivity|].
  exists s'. split; [exact Hrun|]. split; [exact (Hstub eq_refl)|].
  rewrite Hl. cbn [mbind option_bind]. rewrite lookup_insert_ne by discriminate.
  vm_compute; reflexivity.
Defined.
